(** * SFNT font decoder (font/sfnt.go): a shallow embedding and its properties

    The Go decoder is embedded function by function.  Go integers are [Z]
    with the wrap-around of their width written out ([uint16], [int16],
    ...), byte buffers are [list byte], slices and arrays are lists with
    the run-time bounds checks of Go made explicit, pointers that may be
    nil are [option], and a Go function that returns an [error] returns a
    [result], which also records a run-time panic. *)

From Stdlib Require Import ZArith List String Ascii Bool Lia.
From Stdlib.Strings Require Import Byte.
From stdpp Require Import base option list gmap strings.

Local Open Scope string_scope.
Local Open Scope list_scope.
Local Open Scope Z_scope.

(** ** Outcomes of a Go call *)

(** The run-time panics of the Go code that the embedding tracks. *)
Inductive panic : Type :=
| IndexOutOfRange
| SliceBoundsOutOfRange
| NilPointerDereference.

(** An argument of [fmt.Errorf]. *)
Inductive fmtarg : Type :=
| ArgInt (z : Z)
| ArgStr (s : string).

(** A Go [error] value: the package's [ErrInvalidFontData] or the format
    string and arguments given to [fmt.Errorf]. *)
Inductive error : Type :=
| ErrInvalidFontData
| Errorf (format : string) (args : list fmtarg).

(** What a call does: it returns normally ([Ok]), returns a non-nil error
    ([Err]) or panics ([Panic]). *)
Inductive result (A : Type) : Type :=
| Ok (a : A)
| Err (e : error)
| Panic (p : panic).

Arguments Ok {A} a.
Arguments Err {A} e.
Arguments Panic {A} p.

Declare Scope result_scope.
Delimit Scope result_scope with res.
Bind Scope result_scope with result.

Definition bind {A B : Type} (m : result A) (k : A -> result B) : result B :=
  match m with
  | Ok a => k a
  | Err e => Err e
  | Panic p => Panic p
  end.

Arguments bind {A B} m%_res k%_res.

Notation "x <- e ;; k" := (bind e%res (fun x => k%res))
  (at level 100, e at next level, right associativity, only parsing) : result_scope.
Local Open Scope result_scope.

(** ** Fixed-width integers *)

Definition uint8 (z : Z) : Z := z mod 2 ^ 8.
Definition uint16 (z : Z) : Z := z mod 2 ^ 16.
Definition uint32 (z : Z) : Z := z mod 2 ^ 32.
Definition uint64 (z : Z) : Z := z mod 2 ^ 64.

Definition int8 (z : Z) : Z :=
  let u := z mod 2 ^ 8 in if u <? 2 ^ 7 then u else u - 2 ^ 8.
Definition int16 (z : Z) : Z :=
  let u := z mod 2 ^ 16 in if u <? 2 ^ 15 then u else u - 2 ^ 16.

Definition MaxInt32 : Z := 2 ^ 31 - 1.
Definition MaxUint32 : Z := 2 ^ 32 - 1.
Definition MaxInt64 : Z := 2 ^ 63 - 1.

(** ** Bytes, slices and arrays *)

Definition byteZ (b : byte) : Z := Z.of_N (Byte.to_N b).

Definition byte_of_Z (z : Z) : byte :=
  match Byte.of_N (Z.to_N (z mod 256)) with
  | Some b => b
  | None => x00
  end.

(** [len(s)] *)
Definition len {A : Type} (s : list A) : Z := Z.of_nat (length s).

(** [s[i]]: panics when [i] is not an index of [s]. *)
Definition index {A : Type} (s : list A) (i : Z) : result A :=
  if i <? 0 then Panic IndexOutOfRange
  else match s !! Z.to_nat i with
       | Some x => Ok x
       | None => Panic IndexOutOfRange
       end.

(** [s[i] = v]: panics when [i] is not an index of [s]. *)
Definition store {A : Type} (s : list A) (i : Z) (v : A) : result (list A) :=
  if (i <? 0) || (len s <=? i) then Panic IndexOutOfRange
  else Ok (<[Z.to_nat i := v]> s).

(** [s[lo:hi]]: panics unless [0 <= lo <= hi <= len(s)] (the slices of this
    program have their capacity equal to their length wherever they are
    re-sliced). *)
Definition slice {A : Type} (s : list A) (lo hi : Z) : result (list A) :=
  if (lo <? 0) || (hi <? lo) || (len s <? hi) then Panic SliceBoundsOutOfRange
  else Ok (take (Z.to_nat (hi - lo)) (drop (Z.to_nat lo) s)).

(** [s[lo:]] *)
Definition slice_from {A : Type} (s : list A) (lo : Z) : result (list A) :=
  slice s lo (len s).

(** [make([]T, n)] with the zero value [z]. *)
Definition make {A : Type} (z : A) (n : Z) : list A := replicate (Z.to_nat n) z.

(** Big-endian value of a byte sequence. *)
Definition be (bs : list byte) : Z :=
  fold_left (fun acc b => acc * 256 + byteZ b) bs 0.

(** [binary.BigEndian.Uint16(b)] and [Uint32(b)]: they read the first two
    (four) bytes and panic on a shorter slice. *)
Definition BigEndian_Uint16 (b : list byte) : result Z :=
  if len b <? 2 then Panic IndexOutOfRange else Ok (be (take 2 b)).
Definition BigEndian_Uint32 (b : list byte) : result Z :=
  if len b <? 4 then Panic IndexOutOfRange else Ok (be (take 4 b)).

(** The four big-endian bytes of a 32-bit value. *)
Definition bytes_of_uint32 (v : Z) : list byte :=
  [byte_of_Z (v / 2 ^ 24); byte_of_Z (v / 2 ^ 16); byte_of_Z (v / 2 ^ 8); byte_of_Z v].

(** [binary.BigEndian.PutUint32(b[off:], v)] as an update of [b]: panics when
    fewer than four bytes follow [off]. *)
Definition PutUint32_at (b : list byte) (off v : Z) : result (list byte) :=
  if (off <? 0) || (len b <? off) then Panic SliceBoundsOutOfRange
  else if len b - off <? 4 then Panic IndexOutOfRange
  else Ok (take (Z.to_nat off) b ++ bytes_of_uint32 v ++ drop (Z.to_nat (off + 4)) b).

(** A Go string made of the given bytes. *)
Definition string_of_bytes (bs : list byte) : string := string_of_list_byte bs.

(** ** The cursor reader *)

(** Modelled from the spec: the cursor reader ([binaryReader], with
    [newBinaryReader], [Len], [Pos], [Seek] and the [Read...] methods) is
    used by every decoder of sfnt.go and is declared outside the two source
    files.  The spec describes it as a sequential big-endian reader over a
    fixed in-memory buffer with remaining-length queries and absolute seek,
    every read being checked against the remaining length before consuming:
    a read that asks for more than what remains consumes nothing and yields
    the zero value (no bytes). *)
Module binaryReader.

Record t : Type := mk { buf : list byte; pos : Z }.

Definition Len (r : t) : Z := len (buf r) - pos r.

Definition Pos (r : t) : Z := pos r.

Definition Seek (p : Z) (r : t) : t :=
  if len (buf r) <? p then r else mk (buf r) p.

Definition ReadBytes (n : Z) (r : t) : list byte * t :=
  if Len r <? n then ([], r)
  else (take (Z.to_nat n) (drop (Z.to_nat (pos r)) (buf r)), mk (buf r) (pos r + n)).

Definition ReadString (n : Z) (r : t) : string * t :=
  let '(bs, r') := ReadBytes n r in (string_of_bytes bs, r').

Definition ReadUint (n : Z) (r : t) : Z * t :=
  let '(bs, r') := ReadBytes n r in (be bs, r').

Definition ReadByte : t -> Z * t := ReadUint 1.
Definition ReadUint8 : t -> Z * t := ReadUint 1.
Definition ReadUint16 : t -> Z * t := ReadUint 2.
Definition ReadUint32 : t -> Z * t := ReadUint 4.
Definition ReadUint64 : t -> Z * t := ReadUint 8.

Definition ReadInt8 (r : t) : Z * t :=
  let '(v, r') := ReadUint 1 r in (int8 v, r').
Definition ReadInt16 (r : t) : Z * t :=
  let '(v, r') := ReadUint 2 r in (int16 v, r').

End binaryReader.

Definition newBinaryReader (b : list byte) : binaryReader.t := binaryReader.mk b 0.

(** ** Decoders as state passing over a reader

    A decoder threads one reader through many reads and may stop with an
    error or a panic. *)
Definition parser (A : Type) : Type := binaryReader.t -> result (A * binaryReader.t).

Declare Scope parser_scope.
Delimit Scope parser_scope with parser.
Bind Scope parser_scope with parser.

Definition pret {A : Type} (a : A) : parser A := fun r => Ok (a, r).

Definition pbind {A B : Type} (m : parser A) (k : A -> parser B) : parser B :=
  fun r => match m r with
           | Ok (a, r') => k a r'
           | Err e => Err e
           | Panic p => Panic p
           end.

(** [return fmt.Errorf(...)] *)
Definition fail {A : Type} (e : error) : parser A := fun _ => Err e.

(** A pure step that may panic or fail. *)
Definition lift {A : Type} (m : result A) : parser A :=
  fun r => match m with
           | Ok a => Ok (a, r)
           | Err e => Err e
           | Panic p => Panic p
           end.

(** A read of the cursor reader. *)
Definition read {A : Type} (f : binaryReader.t -> A * binaryReader.t) : parser A :=
  fun r => Ok (f r).

Definition rLen : parser Z := fun r => Ok (binaryReader.Len r, r).
Definition rPos : parser Z := fun r => Ok (binaryReader.Pos r, r).
Definition rSeek (p : Z) : parser unit := fun r => Ok (tt, binaryReader.Seek p r).

Arguments pbind {A B} m%_parser k%_parser.

Notation "x <- e ;; k" := (pbind e%parser (fun x => k%parser))
  (at level 100, e at next level, right associativity, only parsing) : parser_scope.

(** [for i := i0; i < i0+n; i++ { s = body i s }] *)
Fixpoint forRange {S : Type} (n : nat) (i : Z) (body : Z -> S -> parser S) (s : S)
  : parser S :=
  match n with
  | O => pret s
  | S k => pbind (body i s) (fun s' => forRange k (i + 1) body s')
  end.

(** Running a decoder over a whole buffer, keeping its value. *)
Definition run {A : Type} (m : parser A) (b : list byte) : result A :=
  match m (newBinaryReader b) with
  | Ok (a, _) => Ok a
  | Err e => Err e
  | Panic p => Panic p
  end.

(** ** cmap subtables and their lookups *)

Definition MaxCmapSegments : Z := 20000.

Module cmapFormat0.

(** [GlyphIdArray] is the Go array [[256]uint8]; an index below 256 is
    always in range for it. *)
Record t : Type := mk { GlyphIdArray : list Z }.

Definition Get (subtable : t) (r : Z) : result (Z * bool) :=
  if (r <? 0) || (256 <=? r) then Ok (0, false)
  else Ok (uint16 (nth (Z.to_nat r) (GlyphIdArray subtable) 0), true).

End cmapFormat0.

Module cmapFormat4.

Record t : Type := mk {
  StartCode : list Z;
  EndCode : list Z;
  IdDelta : list Z;
  IdRangeOffset : list Z;
  GlyphIdArray : list Z
}.

(** The segment scan of [Get], from segment [i] on, [k] segments left. *)
Fixpoint Get_from (subtable : t) (r n : Z) (k : nat) (i : Z) : result (Z * bool) :=
  match k with
  | O => Ok (0, false)
  | S k' =>
      endCode <- index (EndCode subtable) i ;;
      if uint16 r <=? endCode then
        startCode <- index (StartCode subtable) i ;;
        if startCode <=? uint16 r then
          idRangeOffset <- index (IdRangeOffset subtable) i ;;
          if idRangeOffset =? 0 then
            (* is modulo 65536 with the idDelta cast and addition overflow *)
            idDelta <- index (IdDelta subtable) i ;;
            Ok (uint16 (uint16 idDelta + uint16 r), true)
          else
            let idx := idRangeOffset / 2 + uint16 (uint16 r - startCode) - (n - i) in
            g <- index (GlyphIdArray subtable) idx ;;
            Ok (g, true)
        else Get_from subtable r n k' (i + 1)
      else Get_from subtable r n k' (i + 1)
  end.

Definition Get (subtable : t) (r : Z) : result (Z * bool) :=
  if (r <? 0) || (65536 <=? r) then Ok (0, false)
  else
    let n := len (StartCode subtable) in
    Get_from subtable r n (Z.to_nat n) 0.

End cmapFormat4.

Module cmapFormat6.

Record t : Type := mk { FirstCode : Z; GlyphIdArray : list Z }.

Definition Get (subtable : t) (r : Z) : result (Z * bool) :=
  if (r <? FirstCode subtable)
     || (uint32 (len (GlyphIdArray subtable)) <=? uint32 (uint32 r - uint32 (FirstCode subtable)))
  then Ok (0, false)
  else (g <- index (GlyphIdArray subtable) (uint32 (uint32 r - uint32 (FirstCode subtable))) ;;
        Ok (g, true)).

End cmapFormat6.

Module cmapFormat12.

Record t : Type := mk {
  StartCharCode : list Z;
  EndCharCode : list Z;
  StartGlyphID : list Z
}.

Fixpoint Get_from (subtable : t) (r : Z) (k : nat) (i : Z) : result (Z * bool) :=
  match k with
  | O => Ok (0, false)
  | S k' =>
      endCharCode <- index (EndCharCode subtable) i ;;
      if uint32 r <=? endCharCode then
        startCharCode <- index (StartCharCode subtable) i ;;
        if startCharCode <=? uint32 r then
          startGlyphID <- index (StartGlyphID subtable) i ;;
          Ok (uint16 (uint32 (uint32 (uint32 r - startCharCode) + startGlyphID)), true)
        else Get_from subtable r k' (i + 1)
      else Get_from subtable r k' (i + 1)
  end.

Definition Get (subtable : t) (r : Z) : result (Z * bool) :=
  if r <? 0 then Ok (0, false)
  else Get_from subtable r (length (StartCharCode subtable)) 0.

End cmapFormat12.

Record cmapEncodingRecord : Type := mkEncodingRecord {
  PlatformID : Z;
  EncodingID : Z;
  Format : Z;
  Subtable : Z
}.

(** The interface [cmapSubtable], implemented by the four formats. *)
Inductive cmapSubtable : Type :=
| Format0 (s : cmapFormat0.t)
| Format4 (s : cmapFormat4.t)
| Format6 (s : cmapFormat6.t)
| Format12 (s : cmapFormat12.t).

Definition cmapSubtable_Get (subtable : cmapSubtable) (r : Z) : result (Z * bool) :=
  match subtable with
  | Format0 s => cmapFormat0.Get s r
  | Format4 s => cmapFormat4.Get s r
  | Format6 s => cmapFormat6.Get s r
  | Format12 s => cmapFormat12.Get s r
  end.

Module cmapTable.

Record t : Type := mk {
  EncodingRecords : list cmapEncodingRecord;
  Subtables : list cmapSubtable
}.

Fixpoint Get_in (subtables : list cmapSubtable) (r : Z) : result Z :=
  match subtables with
  | [] => Ok 0
  | subtable :: rest =>
      hit <- cmapSubtable_Get subtable r ;;
      if snd hit then Ok (fst hit) else Get_in rest r
  end.

Definition Get (t0 : t) (r : Z) : result Z := Get_in (Subtables t0) r.

End cmapTable.

(** ** loca and glyf: glyph outlines *)

Module locaTable.

Record t : Type := mk { Offsets : list Z }.

End locaTable.

Module glyfContour.

Record t : Type := mk {
  GlyphID : Z;
  XMin : Z;
  YMin : Z;
  XMax : Z;
  YMax : Z;
  EndPoints : list Z;
  Instructions : list byte;
  OnCurve : list bool;
  XCoordinates : list Z;
  YCoordinates : list Z
}.

End glyfContour.

(** Dereference of a pointer: panics on nil. *)
Definition deref {A : Type} (p : option A) : result A :=
  match p with
  | Some a => Ok a
  | None => Panic NilPointerDereference
  end.

Module glyfTable.

Import binaryReader.

Record t : Type := mk { data : list byte; loca : option locaTable.t }.

(** [Get] returns the nil slice ([None]) for a glyph ID outside loca. *)
Definition Get (glyf : t) (glyphID : Z) : result (option (list byte)) :=
  l <- deref (loca glyf) ;;
  if len (locaTable.Offsets l) <=? glyphID + 1 then Ok None
  else
    start <- index (locaTable.Offsets l) glyphID ;;
    end_ <- index (locaTable.Offsets l) (uint16 (glyphID + 1)) ;;
    b <- slice (data glyf) start end_ ;;
    Ok (Some b).

Definition badTable {A : Type} (glyphID : Z) : parser A :=
  fail (Errorf "glyf: bad table for glyphID %v" [ArgInt glyphID]).

Definition badTableOrFlags {A : Type} (glyphID : Z) : parser A :=
  fail (Errorf "glyf: bad table or flags for glyphID %v" [ArgInt glyphID]).

(** The inner loop of the flag expansion:
    [for j := 1; j <= int(repeat); j++ { flags[i+j] = flags[i]; OnCurve[i+j] = OnCurve[i] }] *)
Definition repeatFlag (i : Z) (j : Z) (st : list Z * list bool) : parser (list Z * list bool) :=
  lift (let '(flags, onCurve) := st in
        f <- index flags i ;;
        flags' <- store flags (i + j) f ;;
        c <- index onCurve i ;;
        onCurve' <- store onCurve (i + j) c ;;
        Ok (flags', onCurve')).

(** The loop over the run-length-encoded flags, from point [i] on.  Every
    turn advances [i] by at least one, so [k] turns, [k] being the points
    left, always reach [numPoints]. *)
Fixpoint readFlags (k : nat) (glyphID numPoints i : Z) (st : list Z * list bool)
  : parser (list Z * list bool) :=
  match k with
  | O => pret st
  | S k' =>
      if i <? numPoints then
        (n <- rLen ;;
         if n <? 1 then badTable glyphID
         else
           f <- read ReadByte ;;
           flags <- lift (store (fst st) i f) ;;
           onCurve <- lift (store (snd st) i (negb (Z.land f 0x01 =? 0))) ;;
           if negb (Z.land f 0x08 =? 0) then (* REPEAT_FLAG *)
             repeat_ <- read ReadByte ;;
             st' <- forRange (Z.to_nat repeat_) 1 (repeatFlag i) (flags, onCurve) ;;
             readFlags k' glyphID numPoints (i + repeat_ + 1) st'
           else readFlags k' glyphID numPoints (i + 1) (flags, onCurve))%parser
      else pret st
  end.

(** One turn of the loop over the x (or y) coordinates: [short] and [same]
    are the masks of the two flag bits that select the encoding. *)
Definition readCoordinate (glyphID short same : Z) (flags : list Z) (i : Z) (st : Z * list Z)
  : parser (Z * list Z) :=
  (let '(x, coordinates) := st in
   f <- lift (index flags i) ;;
   let shortVector := negb (Z.land f short =? 0) in
   let isSameOrPositiveShortVector := negb (Z.land f same =? 0) in
   x' <- (if shortVector then
            n <- rLen ;;
            if n <? 1 then badTableOrFlags glyphID
            else
              v <- read ReadUint8 ;;
              if isSameOrPositiveShortVector then pret (int16 (x + int16 v))
              else pret (int16 (x - int16 v))
          else if negb isSameOrPositiveShortVector then
            n <- rLen ;;
            if n <? 2 then badTableOrFlags glyphID
            else
              v <- read ReadInt16 ;;
              pret (int16 (x + v))
          else pret x) ;;
   coordinates' <- lift (store coordinates i x') ;;
   pret (x', coordinates'))%parser.

(** The simple-glyph branch of [Contour], after the ten header bytes. *)
Definition simpleGlyph (glyphID numberOfContours xMin yMin xMax yMax : Z)
  : parser glyfContour.t :=
  (n <- rLen ;;
   if n <? uint32 (2 * uint32 numberOfContours + 2) then badTable glyphID
   else
     endPoints <- forRange (Z.to_nat numberOfContours) 0
                    (fun i endPoints =>
                       v <- read ReadUint16 ;;
                       lift (store endPoints i v))
                    (make 0 numberOfContours) ;;
     instructionLength <- read ReadUint16 ;;
     n <- rLen ;;
     if n <? instructionLength then badTable glyphID
     else
       instructions <- read (ReadBytes instructionLength) ;;
       lastEndPoint <- lift (index endPoints (numberOfContours - 1)) ;;
       let numPoints := lastEndPoint + 1 in
       st <- readFlags (Z.to_nat numPoints) glyphID numPoints 0
               (make 0 numPoints, make false numPoints) ;;
       let '(flags, onCurve) := st in
       xs <- forRange (Z.to_nat numPoints) 0 (readCoordinate glyphID 0x02 0x10 flags)
               (0, make 0 numPoints) ;;
       ys <- forRange (Z.to_nat numPoints) 0 (readCoordinate glyphID 0x04 0x20 flags)
               (0, make 0 numPoints) ;;
       pret (glyfContour.mk glyphID xMin yMin xMax yMax endPoints instructions onCurve
               (snd xs) (snd ys)))%parser.

(** One component record of a composite glyph. *)
Record component : Type := mkComponent {
  flags : Z;
  subGlyphID : Z;
  dx : Z;
  dy : Z;
  txx : Z;
  txy : Z;
  tyx : Z;
  tyy : Z
}.

(** The reads of one turn of the component loop, up to the recursive call. *)
Definition readComponent (glyphID : Z) : parser component :=
  (n <- rLen ;;
   if n <? 4 then badTable glyphID
   else
     flags <- read ReadUint16 ;;
     subGlyphID <- read ReadUint16 ;;
     if Z.land flags 0x0002 =? 0 then (* ARGS_ARE_XY_VALUES *)
       fail (Errorf "glyf: composite glyph not supported" [])
     else
       d <- (if negb (Z.land flags 0x0001 =? 0) then (* ARG_1_AND_2_ARE_WORDS *)
               n <- rLen ;;
               if n <? 4 then badTable glyphID
               else
                 dx <- read ReadInt16 ;;
                 dy <- read ReadInt16 ;;
                 pret (dx, dy)
             else
               n <- rLen ;;
               if n <? 2 then badTable glyphID
               else
                 dx <- read ReadInt8 ;;
                 dy <- read ReadInt8 ;;
                 pret (int16 dx, int16 dy)) ;;
       if negb (Z.land flags 0x0008 =? 0) then (* WE_HAVE_A_SCALE *)
         n <- rLen ;;
         if n <? 2 then badTable glyphID
         else
           txx <- read ReadInt16 ;;
           pret (mkComponent flags subGlyphID (fst d) (snd d) txx 0 0 txx)
       else if negb (Z.land flags 0x0040 =? 0) then (* WE_HAVE_AN_X_AND_Y_SCALE *)
         n <- rLen ;;
         if n <? 4 then badTable glyphID
         else
           txx <- read ReadInt16 ;;
           tyy <- read ReadInt16 ;;
           pret (mkComponent flags subGlyphID (fst d) (snd d) txx 0 0 tyy)
       else if negb (Z.land flags 0x0080 =? 0) then (* WE_HAVE_A_TWO_BY_TWO *)
         n <- rLen ;;
         if n <? 8 then badTable glyphID
         else
           txx <- read ReadInt16 ;;
           txy <- read ReadInt16 ;;
           tyx <- read ReadInt16 ;;
           tyy <- read ReadInt16 ;;
           pret (mkComponent flags subGlyphID (fst d) (snd d) txx txy tyx tyy)
       else pret (mkComponent flags subGlyphID (fst d) (snd d) 0 0 0 0))%parser.

(** [int16((int64(a)*int64(t)+half)>>14)] with [half = 1 << 13]. *)
Definition mulFixed (a t0 : Z) : Z := int16 (Z.shiftr (a * t0 + 2 ^ 13) 14).

(** The points of the sub-glyph, transformed and translated, appended to the
    coordinates of the composite. *)
Fixpoint appendPoints (c : component) (sub : glyfContour.t) (k : nat) (i : Z)
    (xs ys : list Z) : result (list Z * list Z) :=
  match k with
  | O => Ok (xs, ys)
  | S k' =>
      x <- index (glyfContour.XCoordinates sub) i ;;
      y <- index (glyfContour.YCoordinates sub) i ;;
      let '(x, y) :=
        if negb (Z.land (flags c) 0x00C8 =? 0) then (* has transformation *)
          (int16 (mulFixed x (txx c) + mulFixed y (tyx c)),
           int16 (mulFixed x (txy c) + mulFixed y (tyy c)))
        else (x, y) in
      appendPoints c sub k' (i + 1) (xs ++ [int16 (dx c + x)]) (ys ++ [int16 (dy c + y)])
  end.

(** What one turn of the component loop does with the resolved sub-glyph;
    [subContour] is the pointer returned by the recursive call, nil for a
    glyph without outline. *)
Definition addComponent (contour : glyfContour.t) (c : component)
    (subContour : option glyfContour.t) : result glyfContour.t :=
  let endPoints := glyfContour.EndPoints contour in
  numPoints <- (if 0 <? len endPoints then
                  e <- index endPoints (len endPoints - 1) ;; Ok (uint16 (e + 1))
                else Ok 0) ;;
  sub <- deref subContour ;;
  let endPoints' :=
    endPoints ++ map (fun e => uint16 (numPoints + e)) (glyfContour.EndPoints sub) in
  let onCurve' := glyfContour.OnCurve contour ++ glyfContour.OnCurve sub in
  xy <- appendPoints c sub (length (glyfContour.XCoordinates sub)) 0
          (glyfContour.XCoordinates contour) (glyfContour.YCoordinates contour) ;;
  Ok (glyfContour.mk (glyfContour.GlyphID contour)
        (glyfContour.XMin contour) (glyfContour.YMin contour)
        (glyfContour.XMax contour) (glyfContour.YMax contour)
        endPoints' (glyfContour.Instructions contour) onCurve' (fst xy) (snd xy)).

(** The component loop [for { ... }] of a composite glyph.  [rec] is the
    recursive call [glyf.Contour(subGlyphID, level+1)]; [None] stands for a
    computation that has not finished within the budget.  Every turn
    consumes at least four bytes, so [k] turns, [k] being the length of the
    glyph's data, are never used up. *)
Fixpoint components (k : nat) (rec : Z -> option (result (option glyfContour.t)))
    (glyphID : Z) (contour : glyfContour.t) (r : binaryReader.t)
  : option (result glyfContour.t) :=
  match k with
  | O => None
  | S k' =>
      match readComponent glyphID r with
      | Err e => Some (Err e)
      | Panic p => Some (Panic p)
      | Ok (c, r') =>
          match rec (subGlyphID c) with
          | None => None
          | Some (Err e) => Some (Err e)
          | Some (Panic p) => Some (Panic p)
          | Some (Ok subContour) =>
              match addComponent contour c subContour with
              | Err e => Some (Err e)
              | Panic p => Some (Panic p)
              | Ok contour' =>
                  if Z.land (flags c) 0x0020 =? 0 (* MORE_COMPONENTS *)
                  then Some (Ok contour')
                  else components k' rec glyphID contour' r'
              end
          end
      end
  end.

(** The five 16-bit reads at the head of a glyph's data:
    [numberOfContours], [XMin], [YMin], [XMax], [YMax]. *)
Definition readHeader (r : binaryReader.t) : (Z * Z * Z * Z * Z) * binaryReader.t :=
  let '(numberOfContours, r) := ReadInt16 r in
  let '(xMin, r) := ReadInt16 r in
  let '(yMin, r) := ReadInt16 r in
  let '(xMax, r) := ReadInt16 r in
  let '(yMax, r) := ReadInt16 r in
  ((numberOfContours, xMin, yMin, xMax, yMax), r).

Definition tooDeeplyNested : error :=
  Errorf "glyf: compound glyphs too deeply nested" [].

(** [Contour]: the result is the pointer returned ([None] is the nil
    contour of a glyph without outline).  [fuel] bounds the depth of the
    recursion through composite glyphs; the outer [None] says that the
    budget did not suffice. *)
Fixpoint Contour (fuel : nat) (glyf : t) (glyphID level : Z) {struct fuel}
  : option (result (option glyfContour.t)) :=
  match fuel with
  | O => None
  | S fuel' =>
      match Get glyf glyphID with
      | Err e => Some (Err e)
      | Panic p => Some (Panic p)
      | Ok None => Some (Err (Errorf "glyf: bad glyphID %v" [ArgInt glyphID]))
      | Ok (Some b) =>
          if len b =? 0 then Some (Ok None)
          else
            let r := newBinaryReader b in
            if Len r <? 10 then
              Some (Err (Errorf "glyf: bad table for glyphID %v" [ArgInt glyphID]))
            else
              let '((numberOfContours, xMin, yMin, xMax, yMax), r) := readHeader r in
              if 0 <=? numberOfContours then
                (* simple glyph *)
                match simpleGlyph glyphID numberOfContours xMin yMin xMax yMax r with
                | Ok (contour, _) => Some (Ok (Some contour))
                | Err e => Some (Err e)
                | Panic p => Some (Panic p)
                end
              else if 7 <? level then Some (Err tooDeeplyNested)
              else
                (* composite glyph *)
                match components (length b)
                        (fun subGlyphID => Contour fuel' glyf subGlyphID (level + 1))
                        glyphID
                        (glyfContour.mk glyphID xMin yMin xMax yMax [] [] [] [] [])
                        r with
                | None => None
                | Some (Ok contour) => Some (Ok (Some contour))
                | Some (Err e) => Some (Err e)
                | Some (Panic p) => Some (Panic p)
                end
      end
  end.

(** *** Chains of composite glyphs

    What the properties of the recursion speak of: a glyph whose data is a
    composite glyph, the sub-glyphs that its component records name, and the
    glyphs met level by level while an outline is resolved. *)

(** The number of turns, the contour and the reader with which the component
    loop of a composite glyph starts. *)
Definition compositeStart (glyf : t) (glyphID : Z)
  : option (nat * glyfContour.t * binaryReader.t) :=
  match Get glyf glyphID with
  | Ok (Some b) =>
      if (len b =? 0) || (Len (newBinaryReader b) <? 10) then None
      else
        let '((numberOfContours, xMin, yMin, xMax, yMax), r) := readHeader (newBinaryReader b) in
        if 0 <=? numberOfContours then None
        else Some (length b, glyfContour.mk glyphID xMin yMin xMax yMax [] [] [] [] [], r)
  | _ => None
  end.

Definition isComposite (glyf : t) (glyphID : Z) : bool :=
  match compositeStart glyf glyphID with
  | Some _ => true
  | None => false
  end.

(** The sub-glyphs named by the component records from [r] on, in the order
    of the loop of [components]: the records are read up to the first one
    without MORE_COMPONENTS, or the first one that cannot be read. *)
Fixpoint subGlyphIDs (k : nat) (glyphID : Z) (r : binaryReader.t) : list Z :=
  match k with
  | O => []
  | S k' =>
      match readComponent glyphID r with
      | Ok (c, r') =>
          subGlyphID c
          :: (if Z.land (flags c) 0x0020 =? 0 then [] else subGlyphIDs k' glyphID r')
      | _ => []
      end
  end.

(** The sub-glyphs named by the component records of a glyph, none for a
    glyph that is not composite. *)
Definition componentIDs (glyf : t) (glyphID : Z) : list Z :=
  match compositeStart glyf glyphID with
  | Some (k, _, r) => subGlyphIDs k glyphID r
  | None => []
  end.

(** A chain of references: every glyph of [path] is named by a component
    record, at any position, of the glyph before it, and the first one by a
    record of [glyphID].  A glyph references itself, directly or through
    other glyphs, when such a chain leads from it back to it. *)
Fixpoint refers (glyf : t) (glyphID : Z) (path : list Z) : bool :=
  match path with
  | [] => true
  | sub :: path' =>
      existsb (Z.eqb sub) (componentIDs glyf glyphID) && refers glyf sub path'
  end.

(** The first [n] turns of the loop of [components], when each of them goes
    on to the next one: its record is read, its sub-glyph resolves, the
    sub-glyph is added and MORE_COMPONENTS is set.  The result is the
    contour and the reader with which turn [n] starts. *)
Fixpoint componentsBefore (n : nat) (rec : Z -> option (result (option glyfContour.t)))
    (glyphID : Z) (contour : glyfContour.t) (r : binaryReader.t)
  : option (glyfContour.t * binaryReader.t) :=
  match n with
  | O => Some (contour, r)
  | S n' =>
      match readComponent glyphID r with
      | Ok (c, r') =>
          match rec (subGlyphID c) with
          | Some (Ok subContour) =>
              match addComponent contour c subContour with
              | Ok contour' =>
                  if Z.land (flags c) 0x0020 =? 0 then None
                  else componentsBefore n' rec glyphID contour' r'
              | _ => None
              end
          | _ => None
          end
      | _ => None
      end
  end.

(** The sub-glyph for which turn [n] of the component loop of [glyphID],
    resolved at [level], makes the recursive call
    [glyf.Contour(subGlyphID, level+1)]; the sub-glyphs of the turns before
    it are resolved within [fuel] nested calls. *)
Definition componentAt (fuel : nat) (glyf : t) (glyphID level : Z) (n : nat) : option Z :=
  match compositeStart glyf glyphID with
  | Some (_, contour, r) =>
      match componentsBefore n (fun subGlyphID => Contour fuel glyf subGlyphID (level + 1))
              glyphID contour r with
      | Some (_, r') =>
          match readComponent glyphID r' with
          | Ok (c, _) => Some (subGlyphID c)
          | _ => None
          end
      | None => None
      end
  | None => None
  end.

(** The glyph met when, from [glyphID] resolved at [level], the recursive
    calls of the turns [path] are followed, one turn for each level. *)
Fixpoint descend (fuel : nat) (glyf : t) (glyphID level : Z) (path : list nat) : option Z :=
  match path with
  | [] => Some glyphID
  | n :: path' =>
      match componentAt fuel glyf glyphID level n with
      | Some sub => descend fuel glyf sub (level + 1) path'
      | None => None
      end
  end.

End glyfTable.

(** ** The other decoded tables *)

(** Modelled from the spec: [uint8ToFlags] and [uint16ToFlags], which turn a
    bit field into a Go array of booleans, are declared outside the two
    source files, and the spec only speaks of flag bits; flag [i] is taken
    to be bit [i] of the value.  No property below depends on that order. *)
Definition uint8ToFlags (v : Z) : list bool := map (fun i => Z.testbit v (Z.of_nat i)) (seq 0 8).
Definition uint16ToFlags (v : Z) : list bool := map (fun i => Z.testbit v (Z.of_nat i)) (seq 0 16).

(** [copy(dst, src)] as the new contents of [dst]. *)
Definition copy {A : Type} (dst src : list A) : list A :=
  take (length dst) src ++ drop (length src) dst.

Module headTable.

(** [Created] and [Modified] are kept as the seconds since 1904-01-01 that the
    Go code turns into a [time.Time]. *)
Record t : Type := mk {
  FontRevision : Z;
  Flags : list bool;
  UnitsPerEm : Z;
  Created : Z;
  Modified : Z;
  XMin : Z;
  YMin : Z;
  XMax : Z;
  YMax : Z;
  MacStyle : list bool;
  LowestRecPPEM : Z;
  FontDirectionHint : Z;
  IndexToLocFormat : Z;
  GlyphDataFormat : Z
}.

End headTable.

Module hheaTable.

Record t : Type := mk {
  Ascender : Z;
  Descender : Z;
  LineGap : Z;
  AdvanceWidthMax : Z;
  MinLeftSideBearing : Z;
  MinRightSideBearing : Z;
  XMaxExtent : Z;
  CaretSlopeRise : Z;
  CaretSlopeRun : Z;
  CaretOffset : Z;
  MetricDataFormat : Z;
  NumberOfHMetrics : Z
}.

End hheaTable.

Module maxpTable.

Record t : Type := mk {
  NumGlyphs : Z;
  MaxPoints : Z;
  MaxContours : Z;
  MaxCompositePoints : Z;
  MaxCompositeContours : Z;
  MaxZones : Z;
  MaxTwilightPoints : Z;
  MaxStorage : Z;
  MaxFunctionDefs : Z;
  MaxInstructionDefs : Z;
  MaxStackElements : Z;
  MaxSizeOfInstructions : Z;
  MaxComponentElements : Z;
  MaxComponentDepth : Z
}.

End maxpTable.

Module os2Table.

Record t : Type := mk {
  XAvgCharWidth : Z;
  UsWeightClass : Z;
  UsWidthClass : Z;
  FsType : Z;
  YSubscriptXSize : Z;
  YSubscriptYSize : Z;
  YSubscriptXOffset : Z;
  YSubscriptYOffset : Z;
  YSuperscriptXSize : Z;
  YSuperscriptYSize : Z;
  YSuperscriptXOffset : Z;
  YSuperscriptYOffset : Z;
  YStrikeoutSize : Z;
  YStrikeoutPosition : Z;
  SFamilyClass : Z;
  BFamilyType : Z;
  BSerifStyle : Z;
  BWeight : Z;
  BProportion : Z;
  BContrast : Z;
  BStrokeVariation : Z;
  BArmStyle : Z;
  BLetterform : Z;
  BMidline : Z;
  BXHeight : Z;
  UlUnicodeRange1 : Z;
  UlUnicodeRange2 : Z;
  UlUnicodeRange3 : Z;
  UlUnicodeRange4 : Z;
  AchVendID : list byte;
  FsSelection : Z;
  UsFirstCharIndex : Z;
  UsLastCharIndex : Z;
  STypoAscender : Z;
  STypoDescender : Z;
  STypoLineGap : Z;
  UsWinAscent : Z;
  UsWinDescent : Z;
  UlCodePageRange1 : Z;
  UlCodePageRange2 : Z;
  SxHeight : Z;
  SCapHeight : Z;
  UsDefaultChar : Z;
  UsBreakChar : Z;
  UsMaxContent : Z;
  UsLowerOpticalPointSize : Z;
  UsUpperOpticalPointSize : Z
}.

End os2Table.

Module hmtxTable.

Record hmtxLongHorMetric : Type := mkMetric { AdvanceWidth : Z; Lsb : Z }.

Record t : Type := mk {
  HMetrics : list hmtxLongHorMetric;
  LeftSideBearings : list Z
}.

Definition LeftSideBearing (hmtx : t) (glyphID : Z) : result Z :=
  if uint16 (len (HMetrics hmtx)) <=? glyphID then
    index (LeftSideBearings hmtx) (uint16 (glyphID - uint16 (len (HMetrics hmtx))))
  else (m <- index (HMetrics hmtx) glyphID ;; Ok (Lsb m)).

Definition Advance (hmtx : t) (glyphID : Z) : result Z :=
  let glyphID :=
    if uint16 (len (HMetrics hmtx)) <=? glyphID
    then uint16 (uint16 (len (HMetrics hmtx)) - 1) else glyphID in
  m <- index (HMetrics hmtx) glyphID ;; Ok (AdvanceWidth m).

End hmtxTable.

Module kernFormat0.

Record kernPair : Type := mkPair { Key : Z; Value : Z }.

(** [Coverage] is the Go array [[8]bool]; the index 1 is always in range
    for it. *)
Record t : Type := mk { Coverage : list bool; Pairs : list kernPair }.

(** The binary search [for lo < hi { ... }].  Every turn shrinks [hi - lo],
    so [k] turns, [k] being the number of pairs, always end the loop. *)
Fixpoint search (pairs : list kernPair) (key : Z) (k : nat) (lo hi : Z) : result Z :=
  match k with
  | O => Ok 0
  | S k' =>
      if lo <? hi then
        let mid := (lo + hi) / 2 in (* can be rounded down if odd *)
        pair <- index pairs mid ;;
        if Key pair <? key then search pairs key k' (mid + 1) hi
        else if key <? Key pair then search pairs key k' lo mid
        else Ok (Value pair)
      else Ok 0
  end.

Definition Get (subtable : t) (l r : Z) : result Z :=
  let key := Z.lor (uint32 (Z.shiftl l 16)) r in
  search (Pairs subtable) key (length (Pairs subtable)) 0 (len (Pairs subtable)).

End kernFormat0.

Module kernTable.

Record t : Type := mk { Subtables : list kernFormat0.t }.

(** The body of [for _, subtable := range kern.Subtables], [k] being the
    named result of [Get]. *)
Fixpoint Get_in (subtables : list kernFormat0.t) (l r k : Z) : result Z :=
  match subtables with
  | [] => Ok k
  | subtable :: rest =>
      let c := nth 1 (kernFormat0.Coverage subtable) false in
      v <- kernFormat0.Get subtable l r ;;
      if negb c then Get_in rest l r (int16 (k + v))
      else if k <? v then Get_in rest l r v
      else Get_in rest l r k
  end.

(** [Get] has a pointer receiver and reads [kern.Subtables]: it panics on
    the nil pointer. *)
Definition Get (kern : option t) (l r : Z) : result Z :=
  k <- deref kern ;;
  Get_in (Subtables k) l r 0.

End kernTable.

Module nameTable.

Record nameNameRecord : Type := mkNameRecord {
  PlatformID : Z;
  EncodingID : Z;
  LanguageID : Z;
  NameID : Z;
  Offset : Z;
  Length : Z
}.

Record nameLangTagRecord : Type := mkLangTagRecord { TagOffset : Z; TagLength : Z }.

Record t : Type := mk {
  NameRecord : list nameNameRecord;
  LangTagRecord : list nameLangTagRecord;
  Data : list byte
}.

End nameTable.

Module postTable.

Record t : Type := mk {
  ItalicAngle : Z;
  UnderlinePosition : Z;
  UnderlineThickness : Z;
  IsFixedPitch : Z;
  MinMemType42 : Z;
  MaxMemType42 : Z;
  MinMemType1 : Z;
  MaxMemType1 : Z;
  GlyphName : list string
}.

Definition Get (post : t) (glyphID : Z) : result string :=
  if uint16 (len (GlyphName post)) <=? glyphID then Ok ""
  else index (GlyphName post) glyphID.

End postTable.

(** ** The font *)

Module SFNT.

Import binaryReader.

Record t : Type := mk {
  Data : list byte;
  IsCFF : bool;
  IsTrueType : bool; (* only one can be true *)
  Tables : gmap string (list byte);
  (* required *)
  Cmap : option cmapTable.t;
  Head : option headTable.t;
  Hhea : option hheaTable.t;
  Hmtx : option hmtxTable.t;
  Maxp : option maxpTable.t;
  Name : option nameTable.t;
  OS2 : option os2Table.t;
  Post : option postTable.t;
  (* TrueType *)
  Glyf : option glyfTable.t;
  Loca : option locaTable.t;
  (* optional *)
  Kern : option kernTable.t
}.

(** The assignments [sfnt.Cmap = ...], [sfnt.Head = ...], ... *)
Definition set_Cmap (v : cmapTable.t) (s : t) : t :=
  mk (Data s) (IsCFF s) (IsTrueType s) (Tables s) (Some v) (Head s) (Hhea s) (Hmtx s)
     (Maxp s) (Name s) (OS2 s) (Post s) (Glyf s) (Loca s) (Kern s).
Definition set_Head (v : headTable.t) (s : t) : t :=
  mk (Data s) (IsCFF s) (IsTrueType s) (Tables s) (Cmap s) (Some v) (Hhea s) (Hmtx s)
     (Maxp s) (Name s) (OS2 s) (Post s) (Glyf s) (Loca s) (Kern s).
Definition set_Hhea (v : hheaTable.t) (s : t) : t :=
  mk (Data s) (IsCFF s) (IsTrueType s) (Tables s) (Cmap s) (Head s) (Some v) (Hmtx s)
     (Maxp s) (Name s) (OS2 s) (Post s) (Glyf s) (Loca s) (Kern s).
Definition set_Hmtx (v : hmtxTable.t) (s : t) : t :=
  mk (Data s) (IsCFF s) (IsTrueType s) (Tables s) (Cmap s) (Head s) (Hhea s) (Some v)
     (Maxp s) (Name s) (OS2 s) (Post s) (Glyf s) (Loca s) (Kern s).
Definition set_Maxp (v : maxpTable.t) (s : t) : t :=
  mk (Data s) (IsCFF s) (IsTrueType s) (Tables s) (Cmap s) (Head s) (Hhea s) (Hmtx s)
     (Some v) (Name s) (OS2 s) (Post s) (Glyf s) (Loca s) (Kern s).
Definition set_Name (v : nameTable.t) (s : t) : t :=
  mk (Data s) (IsCFF s) (IsTrueType s) (Tables s) (Cmap s) (Head s) (Hhea s) (Hmtx s)
     (Maxp s) (Some v) (OS2 s) (Post s) (Glyf s) (Loca s) (Kern s).
Definition set_OS2 (v : os2Table.t) (s : t) : t :=
  mk (Data s) (IsCFF s) (IsTrueType s) (Tables s) (Cmap s) (Head s) (Hhea s) (Hmtx s)
     (Maxp s) (Name s) (Some v) (Post s) (Glyf s) (Loca s) (Kern s).
Definition set_Post (v : postTable.t) (s : t) : t :=
  mk (Data s) (IsCFF s) (IsTrueType s) (Tables s) (Cmap s) (Head s) (Hhea s) (Hmtx s)
     (Maxp s) (Name s) (OS2 s) (Some v) (Glyf s) (Loca s) (Kern s).
Definition set_Glyf (v : glyfTable.t) (s : t) : t :=
  mk (Data s) (IsCFF s) (IsTrueType s) (Tables s) (Cmap s) (Head s) (Hhea s) (Hmtx s)
     (Maxp s) (Name s) (OS2 s) (Post s) (Some v) (Loca s) (Kern s).
Definition set_Loca (v : locaTable.t) (s : t) : t :=
  mk (Data s) (IsCFF s) (IsTrueType s) (Tables s) (Cmap s) (Head s) (Hhea s) (Hmtx s)
     (Maxp s) (Name s) (OS2 s) (Post s) (Glyf s) (Some v) (Kern s).
Definition set_Kern (v : kernTable.t) (s : t) : t :=
  mk (Data s) (IsCFF s) (IsTrueType s) (Tables s) (Cmap s) (Head s) (Hhea s) (Hmtx s)
     (Maxp s) (Name s) (OS2 s) (Post s) (Glyf s) (Loca s) (Some v).

(** [sfnt.Maxp.NumGlyphs] and the like: a nil table pointer panics. *)
Definition NumGlyphs (sfnt : t) : result Z :=
  m <- deref (Maxp sfnt) ;; Ok (maxpTable.NumGlyphs m).
Definition NumberOfHMetrics (sfnt : t) : result Z :=
  h <- deref (Hhea sfnt) ;; Ok (hheaTable.NumberOfHMetrics h).
Definition IndexToLocFormat (sfnt : t) : result Z :=
  h <- deref (Head sfnt) ;; Ok (headTable.IndexToLocFormat h).

(** *** The capability surface *)

Definition GlyphIndex (sfnt : t) (r : Z) : result Z :=
  c <- deref (Cmap sfnt) ;; cmapTable.Get c r.

Definition GlyphName (sfnt : t) (glyphID : Z) : result string :=
  p <- deref (Post sfnt) ;; postTable.Get p glyphID.

Definition GlyphContour (fuel : nat) (sfnt : t) (glyphID : Z)
  : option (result (option glyfContour.t)) :=
  if negb (IsTrueType sfnt) then Some (Err (Errorf "CFF not supported" []))
  else match Glyf sfnt with
       | None => Some (Panic NilPointerDereference)
       | Some glyf => glyfTable.Contour fuel glyf glyphID 0
       end.

Definition GlyphAdvance (sfnt : t) (glyphID : Z) : result Z :=
  h <- deref (Hmtx sfnt) ;; hmtxTable.Advance h glyphID.

Definition Kerning (sfnt : t) (left right : Z) : result Z :=
  kernTable.Get (Kern sfnt) left right.

(** *** cmap *)

Definition badSubtable {A : Type} (j : Z) : parser A :=
  fail (Errorf "cmap: bad subtable %d" [ArgInt j]).

(** [for i := 0; i < len(offsets); i++ { if offsets[i] < offset && offset < lengths[i] {...} }] *)
Fixpoint startsInside (offsets lengths : list Z) (offset : Z) (k : nat) (i : Z)
  : result bool :=
  match k with
  | O => Ok false
  | S k' =>
      o <- index offsets i ;;
      if o <? offset then
        l <- index lengths i ;;
        if offset <? l then Ok true
        else startsInside offsets lengths offset k' (i + 1)
      else startsInside offsets lengths offset k' (i + 1)
  end.

(** The second loop over the earlier subtables: the index of the subtable
    with the same offset and length, [-1] when there is none, or the error
    for an earlier subtable that starts inside the new one. *)
Fixpoint findSubtable (offsets lengths : list Z) (offset length j : Z) (k : nat) (i : Z)
  : result Z :=
  match k with
  | O => Ok (-1)
  | S k' =>
      o <- index offsets i ;;
      l <- index lengths i ;;
      if (offset =? o) && (length =? l) then Ok i
      else if (offset <=? o) && (o <? uint32 (offset + length)) then
        Err (Errorf "cmap: bad subtable %d" [ArgInt j])
      else findSubtable offsets lengths offset length j k' (i + 1)
  end.

(** Format and declared length of the subtable under the reader. *)
Definition subtableLength (j : Z) : parser (Z * Z) :=
  (format <- read ReadUint16 ;;
   if (format =? 0) || (format =? 2) || (format =? 4) || (format =? 6) then
     length <- read ReadUint16 ;;
     pret (format, length)
   else if (format =? 8) || (format =? 10) || (format =? 12) || (format =? 13) then
     _ <- read ReadUint16 ;; (* reserved *)
     length <- read ReadUint32 ;;
     pret (format, length)
   else if format =? 14 then
     length <- read ReadUint32 ;;
     pret (format, length)
   else fail (Errorf "cmap: bad format %d for subtable %d" [ArgInt format; ArgInt j]))%parser.

Definition parseCmapFormat0 (sfnt : t) (j : Z) : parser cmapSubtable :=
  (n <- rLen ;;
   if negb (n =? 258) then badSubtable j
   else
     _ <- read ReadUint16 ;; (* languageID *)
     bs <- read (ReadBytes 256) ;;
     let glyphIdArray := copy (make 0 256) (map byteZ bs) in
     numGlyphs <- lift (NumGlyphs sfnt) ;;
     if existsb (fun glyphID => numGlyphs <=? uint16 glyphID) glyphIdArray then
       fail (Errorf "cmap: bad glyphID in subtable %d" [ArgInt j])
     else pret (Format0 (cmapFormat0.mk glyphIdArray)))%parser.

Definition parseCmapFormat4 (sfnt : t) (j : Z) : parser cmapSubtable :=
  (n <- rLen ;;
   if n <? 10 then badSubtable j
   else
     _ <- read ReadUint16 ;; (* languageID *)
     segCount <- read ReadUint16 ;;
     if negb (segCount mod 2 =? 0) then
       fail (Errorf "cmap: bad segCount in subtable %d" [ArgInt j])
     else
       let segCount := segCount / 2 in
       if MaxCmapSegments <? segCount then
         fail (Errorf "cmap: too many segments in subtable %d" [ArgInt j])
       else
         _ <- read ReadUint16 ;; (* searchRange *)
         _ <- read ReadUint16 ;; (* entrySelector *)
         _ <- read ReadUint16 ;; (* rangeShift *)
         n <- rLen ;;
         if n <? uint32 (2 + 8 * segCount) then badSubtable j
         else
           endCodes <- forRange (Z.to_nat segCount) 0
             (fun i endCodes =>
                endCode <- read ReadUint16 ;;
                bad <- lift (if 0 <? i then
                               prev <- index endCodes (i - 1) ;; Ok (endCode <=? prev)
                             else Ok false) ;;
                if (bad : bool) then
                  fail (Errorf "cmap: bad endCode in subtable %d" [ArgInt j])
                else lift (store endCodes i endCode))
             (make 0 segCount) ;;
           _ <- read ReadUint16 ;; (* reservedPad *)
           startCodes <- forRange (Z.to_nat segCount) 0
             (fun i startCodes =>
                startCode <- read ReadUint16 ;;
                endCode <- lift (index endCodes i) ;;
                bad <- lift (if endCode <? startCode then Ok true
                             else if 0 <? i then
                               prev <- index endCodes (i - 1) ;; Ok (startCode <=? prev)
                             else Ok false) ;;
                if (bad : bool) then
                  fail (Errorf "cmap: bad startCode in subtable %d" [ArgInt j])
                else lift (store startCodes i startCode))
             (make 0 segCount) ;;
           idDeltas <- forRange (Z.to_nat segCount) 0
             (fun i idDeltas =>
                idDelta <- read ReadInt16 ;;
                lift (store idDeltas i idDelta))
             (make 0 segCount) ;;
           n <- rLen ;;
           let glyphIdArrayLength := uint32 (n - uint32 (2 * segCount)) in
           if negb (glyphIdArrayLength mod 2 =? 0) then badSubtable j
           else
             let glyphIdArrayLength := glyphIdArrayLength / 2 in
             idRangeOffsets <- forRange (Z.to_nat segCount) 0
               (fun i idRangeOffsets =>
                  idRangeOffset <- read ReadUint16 ;;
                  if negb (idRangeOffset mod 2 =? 0) then
                    fail (Errorf "cmap: bad idRangeOffset in subtable %d" [ArgInt j])
                  else
                    bad <- lift (if negb (idRangeOffset =? 0) then
                                   endCode <- index endCodes i ;;
                                   startCode <- index startCodes i ;;
                                   let index_ := idRangeOffset / 2 + uint16 (endCode - startCode)
                                                 - (segCount - i) in
                                   Ok ((index_ <? 0) || (glyphIdArrayLength <=? uint32 index_))
                                 else Ok false) ;;
                    if (bad : bool) then
                      fail (Errorf "cmap: bad idRangeOffset in subtable %d" [ArgInt j])
                    else lift (store idRangeOffsets i idRangeOffset))
               (make 0 segCount) ;;
             glyphIdArray <- forRange (Z.to_nat glyphIdArrayLength) 0
               (fun i glyphIdArray =>
                  glyphID <- read ReadUint16 ;;
                  numGlyphs <- lift (NumGlyphs sfnt) ;;
                  if numGlyphs <=? glyphID then
                    fail (Errorf "cmap: bad glyphID in subtable %d" [ArgInt j])
                  else lift (store glyphIdArray i glyphID))
               (make 0 glyphIdArrayLength) ;;
             pret (Format4 (cmapFormat4.mk startCodes endCodes idDeltas idRangeOffsets
                              glyphIdArray)))%parser.

Definition parseCmapFormat6 (j : Z) : parser cmapSubtable :=
  (n <- rLen ;;
   if n <? 6 then badSubtable j
   else
     _ <- read ReadUint16 ;; (* language *)
     firstCode <- read ReadUint16 ;;
     entryCount <- read ReadUint16 ;;
     n <- rLen ;;
     if n <? uint32 (2 * entryCount) then badSubtable j
     else
       glyphIdArray <- forRange (Z.to_nat entryCount) 0
         (fun i glyphIdArray =>
            glyphID <- read ReadUint16 ;;
            lift (store glyphIdArray i glyphID))
         (make 0 entryCount) ;;
       pret (Format6 (cmapFormat6.mk firstCode glyphIdArray)))%parser.

Definition parseCmapFormat12 (sfnt : t) (j : Z) : parser cmapSubtable :=
  (n <- rLen ;;
   if n <? 8 then badSubtable j
   else
     _ <- read ReadUint32 ;; (* language *)
     numGroups <- read ReadUint32 ;;
     n <- rLen ;;
     if MaxCmapSegments <? numGroups then
       fail (Errorf "cmap: too many segments in subtable %d" [ArgInt j])
     else if n <? uint32 (12 * numGroups) then badSubtable j
     else
       groups <- forRange (Z.to_nat numGroups) 0
         (fun i (groups : cmapFormat12.t) =>
            startCharCode <- read ReadUint32 ;;
            endCharCode <- read ReadUint32 ;;
            startGlyphID <- read ReadUint32 ;;
            bad <- lift (if endCharCode <? startCharCode then Ok true
                         else if 0 <? i then
                           prev <- index (cmapFormat12.EndCharCode groups) (i - 1) ;;
                           Ok (startCharCode <=? prev)
                         else Ok false) ;;
            if (bad : bool) then
              fail (Errorf "cmap: bad character code range in subtable %d" [ArgInt j])
            else
              numGlyphs <- lift (NumGlyphs sfnt) ;;
              if (numGlyphs <=? uint32 (endCharCode - startCharCode))
                 || (uint32 (numGlyphs - uint32 (endCharCode - startCharCode)) <=? startGlyphID)
              then fail (Errorf "cmap: bad glyphID in subtable %d" [ArgInt j])
              else
                starts <- lift (store (cmapFormat12.StartCharCode groups) i startCharCode) ;;
                ends <- lift (store (cmapFormat12.EndCharCode groups) i endCharCode) ;;
                glyphs <- lift (store (cmapFormat12.StartGlyphID groups) i startGlyphID) ;;
                pret (cmapFormat12.mk starts ends glyphs))
         (cmapFormat12.mk (make 0 numGroups) (make 0 numGroups) (make 0 numGroups)) ;;
       pret (Format12 groups))%parser.

(** The locals of [parseCmap] that live across the encoding records: the
    byte ranges of the subtables seen so far (the header first) and the
    table under construction. *)
Record cmapState : Type := mkCmapState {
  offsets : list Z;
  lengths : list Z;
  cmap : cmapTable.t
}.

(** The [switch format] of [parseCmap]: formats without a case decode
    nothing. *)
Definition parseCmapSubtable (sfnt : t) (j format : Z) : parser (option cmapSubtable) :=
  (if format =? 0 then s <- parseCmapFormat0 sfnt j ;; pret (Some s)
   else if format =? 4 then s <- parseCmapFormat4 sfnt j ;; pret (Some s)
   else if format =? 6 then s <- parseCmapFormat6 j ;; pret (Some s)
   else if format =? 12 then s <- parseCmapFormat12 sfnt j ;; pret (Some s)
   else pret None)%parser.

(** One turn of the loop over the encoding records; the reader threaded
    through is [r], the one over the whole table [b]. *)
Definition parseCmapRecord (sfnt : t) (b : list byte) (j : Z) (st : cmapState)
  : parser cmapState :=
  (platformID <- read ReadUint16 ;;
   encodingID <- read ReadUint16 ;;
   offset <- read ReadUint32 ;;
   if uint32 (len b - 8) <? offset then
     (* subtable must be at least 8 bytes long to extract length *)
     badSubtable j
   else
     inside <- lift (startsInside (offsets st) (lengths st) offset (length (offsets st)) 0) ;;
     if (inside : bool) then badSubtable j
     else
       (* extract subtable length *)
       sub <- lift (slice_from b offset) ;;
       hdr <- lift (subtableLength j (newBinaryReader sub)) ;;
       let '((format, length), rs) := hdr in
       if (length <? 8) || (MaxUint32 - offset <? length) then badSubtable j
       else
         subtableID <- lift (findSubtable (offsets st) (lengths st) offset length j
                               (List.length (offsets st)) 0) ;;
         buf' <- lift (slice (buf rs) 0 length) ;;
         let rs := binaryReader.mk buf' (pos rs) in
         st' <- (if subtableID =? -1 then
                   decoded <- lift (parseCmapSubtable sfnt j format rs) ;;
                   let subtables := cmapTable.Subtables (cmap st) in
                   pret (len subtables,
                         mkCmapState (offsets st ++ [offset]) (lengths st ++ [length])
                           (cmapTable.mk (cmapTable.EncodingRecords (cmap st))
                              (match fst decoded with
                               | Some s => subtables ++ [s]
                               | None => subtables
                               end)))
                 else pret (subtableID, st)) ;;
         let '(subtableID, st') := st' in
         pret (mkCmapState (offsets st') (lengths st')
                 (cmapTable.mk
                    (cmapTable.EncodingRecords (cmap st')
                     ++ [mkEncodingRecord platformID encodingID format (uint16 subtableID)])
                    (cmapTable.Subtables (cmap st')))))%parser.

(** [parseCmap] up to its return, with the locals it ends with. *)
Definition parseCmap_state (sfnt : t) : result cmapState :=
  match Tables sfnt !! "cmap" with
  | None => Err (Errorf "cmap: missing table" [])
  | Some b =>
      if len b <? 4 then Err (Errorf "cmap: bad table" [])
      else
        run (version <- read ReadUint16 ;;
             if negb (version =? 0) then fail (Errorf "cmap: bad version" [])
             else
               numTables <- read ReadUint16 ;;
               if len b <? uint32 (4 + 8 * numTables) then fail (Errorf "cmap: bad table" [])
               else
                 (* find and extract subtables and make sure they don't overlap each other *)
                 forRange (Z.to_nat numTables) 0 (parseCmapRecord sfnt b)
                   (mkCmapState [0] [uint32 (4 + 8 * numTables)] (cmapTable.mk [] [])))%parser
            b
  end.

Definition parseCmap (sfnt : t) : result t :=
  st <- parseCmap_state sfnt ;;
  Ok (set_Cmap (cmap st) sfnt).

(** *** glyf *)

Definition parseGlyf (sfnt : t) : result t :=
  (* requires data from loca *)
  match Tables sfnt !! "glyf" with
  | None => Err (Errorf "glyf: missing table" [])
  | Some b =>
      loca <- deref (Loca sfnt) ;;
      last <- index (locaTable.Offsets loca) (len (locaTable.Offsets loca) - 1) ;;
      if negb (uint32 (len b) =? last) then Err (Errorf "glyf: bad table" [])
      else Ok (set_Glyf (glyfTable.mk b (Loca sfnt)) sfnt)
  end.

(** *** head *)

Definition parseHead (sfnt : t) : result t :=
  match Tables sfnt !! "head" with
  | None => Err (Errorf "head: missing table" [])
  | Some b =>
      if negb (len b =? 54) then Err (Errorf "head: bad table" [])
      else
        head <- run
          (majorVersion <- read ReadUint16 ;;
           minorVersion <- read ReadUint16 ;;
           if negb (majorVersion =? 1) && negb (minorVersion =? 0) then
             fail (Errorf "head: bad version" [])
           else
             fontRevision <- read ReadUint32 ;;
             _ <- read ReadUint32 ;; (* checksumAdjustment *)
             magicNumber <- read ReadUint32 ;;
             if negb (magicNumber =? 0x5F0F3CF5) then
               fail (Errorf "head: bad magic version" [])
             else
               flags <- read ReadUint16 ;;
               unitsPerEm <- read ReadUint16 ;;
               created <- read ReadUint64 ;;
               modified <- read ReadUint64 ;;
               if (MaxInt64 <? created) || (MaxInt64 <? modified) then
                 fail (Errorf "head: created and/or modified dates too large" [])
               else
                 xMin <- read ReadInt16 ;;
                 yMin <- read ReadInt16 ;;
                 xMax <- read ReadInt16 ;;
                 yMax <- read ReadInt16 ;;
                 macStyle <- read ReadUint16 ;;
                 lowestRecPPEM <- read ReadUint16 ;;
                 fontDirectionHint <- read ReadInt16 ;;
                 indexToLocFormat <- read ReadInt16 ;;
                 if negb (indexToLocFormat =? 0) && negb (indexToLocFormat =? 1) then
                   fail (Errorf "head: bad indexToLocFormat" [])
                 else
                   glyphDataFormat <- read ReadInt16 ;;
                   pret (headTable.mk fontRevision (uint16ToFlags flags) unitsPerEm
                           created modified xMin yMin xMax yMax (uint16ToFlags macStyle)
                           lowestRecPPEM fontDirectionHint indexToLocFormat
                           glyphDataFormat))%parser
          b ;;
        Ok (set_Head head sfnt)
  end.

(** *** hhea *)

Definition parseHhea (sfnt : t) : result t :=
  (* requires data from maxp *)
  match Tables sfnt !! "hhea" with
  | None => Err (Errorf "hhea: missing table" [])
  | Some b =>
      if negb (len b =? 36) then Err (Errorf "hhea: bad table" [])
      else
        hhea <- run
          (majorVersion <- read ReadUint16 ;;
           minorVersion <- read ReadUint16 ;;
           if negb (majorVersion =? 1) && negb (minorVersion =? 0) then
             fail (Errorf "hhea: bad version" [])
           else
             ascender <- read ReadInt16 ;;
             descender <- read ReadInt16 ;;
             lineGap <- read ReadInt16 ;;
             advanceWidthMax <- read ReadUint16 ;;
             minLeftSideBearing <- read ReadInt16 ;;
             minRightSideBearing <- read ReadInt16 ;;
             xMaxExtent <- read ReadInt16 ;;
             caretSlopeRise <- read ReadInt16 ;;
             caretSlopeRun <- read ReadInt16 ;;
             caretOffset <- read ReadInt16 ;;
             _ <- read ReadInt16 ;; (* reserved *)
             _ <- read ReadInt16 ;; (* reserved *)
             _ <- read ReadInt16 ;; (* reserved *)
             _ <- read ReadInt16 ;; (* reserved *)
             metricDataFormat <- read ReadInt16 ;;
             numberOfHMetrics <- read ReadUint16 ;;
             numGlyphs <- lift (NumGlyphs sfnt) ;;
             if (numGlyphs <? numberOfHMetrics) || (numberOfHMetrics =? 0) then
               fail (Errorf "hhea: bad numberOfHMetrics" [])
             else
               pret (hheaTable.mk ascender descender lineGap advanceWidthMax
                       minLeftSideBearing minRightSideBearing xMaxExtent caretSlopeRise
                       caretSlopeRun caretOffset metricDataFormat numberOfHMetrics))%parser
          b ;;
        Ok (set_Hhea hhea sfnt)
  end.

(** *** hmtx *)

Definition parseHmtx (sfnt : t) : result t :=
  (* requires data from hhea and maxp *)
  numberOfHMetrics <- NumberOfHMetrics sfnt ;;
  numGlyphs <- NumGlyphs sfnt ;;
  let length := uint32 (4 * numberOfHMetrics + 2 * uint16 (numGlyphs - numberOfHMetrics)) in
  match Tables sfnt !! "hmtx" with
  | None => Err (Errorf "hmtx: missing table" [])
  | Some b =>
      if negb (uint32 (len b) =? length) then Err (Errorf "hmtx: bad table" [])
      else
        (* numberOfHMetrics is smaller than numGlyphs *)
        hmtx <- run
          (hMetrics <- forRange (Z.to_nat numberOfHMetrics) 0
             (fun i hMetrics =>
                advanceWidth <- read ReadUint16 ;;
                lsb <- read ReadInt16 ;;
                lift (store hMetrics i (hmtxTable.mkMetric advanceWidth lsb)))
             (make (hmtxTable.mkMetric 0 0) numberOfHMetrics) ;;
           leftSideBearings <- forRange (Z.to_nat (uint16 (numGlyphs - numberOfHMetrics))) 0
             (fun i leftSideBearings =>
                lsb <- read ReadInt16 ;;
                lift (store leftSideBearings i lsb))
             (make 0 (uint16 (numGlyphs - numberOfHMetrics))) ;;
           pret (hmtxTable.mk hMetrics leftSideBearings))%parser
          b ;;
        Ok (set_Hmtx hmtx sfnt)
  end.

(** *** kern *)

(** One turn of the loop over the kern subtables; a [continue] leaves the
    list of subtables as it is. *)
Definition parseKernSubtable (j : Z) (subtables : list kernFormat0.t)
  : parser (list kernFormat0.t) :=
  (n <- rLen ;;
   if n <? 6 then fail (Errorf "kern: bad subtable %d" [ArgInt j])
   else
     startPos <- rPos ;;
     subtableVersion <- read ReadUint16 ;;
     if negb (subtableVersion =? 0) then
       (* TODO: supported other kern subtable versions *)
       pret subtables
     else
       length <- read ReadUint16 ;;
       format <- read ReadUint8 ;;
       coverage <- read ReadUint8 ;;
       if negb (format =? 0) then
         (* TODO: supported other kern subtable formats *)
         pret subtables
       else
         n <- rLen ;;
         if n <? 8 then fail (Errorf "kern: bad subtable %d" [ArgInt j])
         else
           nPairs <- read ReadUint16 ;;
           _ <- read ReadUint16 ;; (* searchRange *)
           _ <- read ReadUint16 ;; (* entrySelector *)
           _ <- read ReadUint16 ;; (* rangeShift *)
           if length <? uint32 (14 + 6 * nPairs) then
             fail (Errorf "kern: bad length for subtable %d" [ArgInt j])
           else
             pairs <- forRange (Z.to_nat nPairs) 0
               (fun i pairs =>
                  key <- read ReadUint32 ;;
                  value <- read ReadInt16 ;;
                  pairs' <- lift (store pairs i (kernFormat0.mkPair key value)) ;;
                  bad <- lift (if 0 <? i then
                                 prev <- index pairs' (i - 1) ;;
                                 Ok (key <=? kernFormat0.Key prev)
                               else Ok false) ;;
                  if (bad : bool) then
                    fail (Errorf "kern: bad left right pair for subtable %d" [ArgInt j])
                  else pret pairs')
               (make (kernFormat0.mkPair 0 0) nPairs) ;;
             (* read unread bytes if length is bigger *)
             p <- rPos ;;
             _ <- read (ReadBytes (uint32 (length - uint32 (p - startPos)))) ;;
             pret (subtables ++ [kernFormat0.mk (uint8ToFlags coverage) pairs]))%parser.

Definition parseKern (sfnt : t) : result t :=
  match Tables sfnt !! "kern" with
  | None => Err (Errorf "kern: missing table" [])
  | Some b =>
      if len b <? 4 then Err (Errorf "kern: bad table" [])
      else
        subtables <- run
          (version <- read ReadUint16 ;;
           if negb (version =? 0) then
             (* TODO: supported other kern versions *)
             fail (Errorf "kern: bad version" [])
           else
             nTables <- read ReadUint16 ;;
             forRange (Z.to_nat nTables) 0 parseKernSubtable [])%parser
          b ;;
        Ok (set_Kern (kernTable.mk subtables) sfnt)
  end.

(** *** loca *)

(** The loop of [parseLoca] over the offsets, each read by [readOffset]. *)
Definition readOffsets (readOffset : binaryReader.t -> Z * binaryReader.t) (count : Z)
    (offsets : list Z) : parser (list Z) :=
  forRange (Z.to_nat count) 0
    (fun i offsets =>
       v <- read readOffset ;;
       offsets' <- lift (store offsets i (uint32 v)) ;;
       bad <- lift (if 0 <? i then
                      prev <- index offsets' (i - 1) ;; Ok (uint32 v <? prev)
                    else Ok false) ;;
       if (bad : bool) then fail (Errorf "loca: bad offsets" [])
       else pret offsets')%parser
    offsets.

Definition parseLoca (sfnt : t) : result t :=
  match Tables sfnt !! "loca" with
  | None => Err (Errorf "loca: missing table" [])
  | Some b =>
      numGlyphs <- NumGlyphs sfnt ;;
      (* [sfnt.Maxp.NumGlyphs+1] is a sum of 16-bit unsigned integers *)
      let offsets := make 0 (uint16 (numGlyphs + 1)) in
      indexToLocFormat <- IndexToLocFormat sfnt ;;
      offsets' <-
        (if indexToLocFormat =? 0 then
           if negb (uint32 (len b) =? uint32 (2 * uint32 (numGlyphs + 1))) then
             Err (Errorf "loca: bad table" [])
           else run (readOffsets ReadUint16 (uint16 (numGlyphs + 1)) offsets) b
         else if indexToLocFormat =? 1 then
           if negb (uint32 (len b) =? uint32 (4 * uint32 (numGlyphs + 1))) then
             Err (Errorf "loca: bad table" [])
           else run (readOffsets ReadUint32 (uint16 (numGlyphs + 1)) offsets) b
         else Ok offsets) ;;
      Ok (set_Loca (locaTable.mk offsets') sfnt)
  end.

(** *** maxp *)

Definition parseMaxp (sfnt : t) : result t :=
  match Tables sfnt !! "maxp" with
  | None => Err (Errorf "maxp: missing table" [])
  | Some b =>
      maxp <- run
        (version <- read (ReadBytes 4) ;;
         numGlyphs <- read ReadUint16 ;;
         v <- lift (BigEndian_Uint32 version) ;;
         if (v =? 0x00005000) && negb (IsTrueType sfnt) && (len b =? 6) then
           pret (maxpTable.mk numGlyphs 0 0 0 0 0 0 0 0 0 0 0 0 0)
         else if (v =? 0x00010000) && negb (IsCFF sfnt) && (len b =? 32) then
           maxPoints <- read ReadUint16 ;;
           maxContours <- read ReadUint16 ;;
           maxCompositePoints <- read ReadUint16 ;;
           maxCompositeContours <- read ReadUint16 ;;
           maxZones <- read ReadUint16 ;;
           maxTwilightPoints <- read ReadUint16 ;;
           maxStorage <- read ReadUint16 ;;
           maxFunctionDefs <- read ReadUint16 ;;
           maxInstructionDefs <- read ReadUint16 ;;
           maxStackElements <- read ReadUint16 ;;
           maxSizeOfInstructions <- read ReadUint16 ;;
           maxComponentElements <- read ReadUint16 ;;
           maxComponentDepth <- read ReadUint16 ;;
           pret (maxpTable.mk numGlyphs maxPoints maxContours maxCompositePoints
                   maxCompositeContours maxZones maxTwilightPoints maxStorage
                   maxFunctionDefs maxInstructionDefs maxStackElements
                   maxSizeOfInstructions maxComponentElements maxComponentDepth)
         else fail (Errorf "maxp: bad table" []))%parser
        b ;;
      Ok (set_Maxp maxp sfnt)
  end.

(** *** name *)

Definition parseName (sfnt : t) : result t :=
  match Tables sfnt !! "name" with
  | None => Err (Errorf "name: missing table" [])
  | Some b =>
      if len b <? 6 then Err (Errorf "name: bad table" [])
      else
        name <- run
          (version <- read ReadUint16 ;;
           if negb (version =? 0) && negb (version =? 1) then
             fail (Errorf "name: bad version" [])
           else
             count <- read ReadUint16 ;;
             _ <- read ReadUint16 ;; (* storageOffset *)
             if uint32 (len b) <? uint32 (6 + 12 * count) then
               fail (Errorf "name: bad table" [])
             else
               nameRecord <- forRange (Z.to_nat count) 0
                 (fun i nameRecord =>
                    platformID <- read ReadUint16 ;;
                    encodingID <- read ReadUint16 ;;
                    languageID <- read ReadUint16 ;;
                    nameID <- read ReadUint16 ;;
                    length <- read ReadUint16 ;;
                    offset <- read ReadUint16 ;;
                    lift (store nameRecord i
                            (nameTable.mkNameRecord platformID encodingID languageID nameID
                               offset length)))
                 (make (nameTable.mkNameRecord 0 0 0 0 0 0) count) ;;
               langTagRecord <-
                 (if version =? 1 then
                    if uint32 (len b) <? uint32 (6 + 12 * count + 2) then
                      fail (Errorf "name: bad table" [])
                    else
                      langTagCount <- read ReadUint16 ;;
                      if uint32 (len b) <? uint32 (6 + 12 * count + 2 + 4 * langTagCount) then
                        fail (Errorf "name: bad table" [])
                      else
                        (* [LangTagRecord] is still the nil slice here *)
                        forRange (Z.to_nat langTagCount) 0
                          (fun i langTagRecord =>
                             length <- read ReadUint16 ;;
                             _ <- lift (index langTagRecord i) ;;
                             offset <- read ReadUint16 ;;
                             lift (store langTagRecord i
                                     (nameTable.mkLangTagRecord offset length)))
                          []
                  else pret []) ;;
               p <- rPos ;;
               data <- lift (slice_from b p) ;;
               pret (nameTable.mk nameRecord langTagRecord data))%parser
          b ;;
        Ok (set_Name name sfnt)
  end.

(** *** OS/2 *)

Definition parseOS2 (sfnt : t) : result t :=
  match Tables sfnt !! "OS/2" with
  | None => Err (Errorf "OS/2: missing table" [])
  | Some b =>
      if len b <? 68 then Err (Errorf "OS/2: bad table" [])
      else
        os2 <- run
          (version <- read ReadUint16 ;;
           if 5 <? version then fail (Errorf "OS/2: bad version" [])
           else if (version =? 0) && negb (len b =? 68) && negb (len b =? 78)
                   || (version =? 1) && negb (len b =? 86)
                   || (2 <=? version) && (version <=? 4) && negb (len b =? 96)
                   || (version =? 5) && negb (len b =? 100) then
             fail (Errorf "OS/2: bad table" [])
           else
             xAvgCharWidth <- read ReadInt16 ;;
             usWeightClass <- read ReadUint16 ;;
             usWidthClass <- read ReadUint16 ;;
             fsType <- read ReadUint16 ;;
             ySubscriptXSize <- read ReadInt16 ;;
             ySubscriptYSize <- read ReadInt16 ;;
             ySubscriptXOffset <- read ReadInt16 ;;
             ySubscriptYOffset <- read ReadInt16 ;;
             ySuperscriptXSize <- read ReadInt16 ;;
             ySuperscriptYSize <- read ReadInt16 ;;
             ySuperscriptXOffset <- read ReadInt16 ;;
             ySuperscriptYOffset <- read ReadInt16 ;;
             yStrikeoutSize <- read ReadInt16 ;;
             yStrikeoutPosition <- read ReadInt16 ;;
             sFamilyClass <- read ReadInt16 ;;
             bFamilyType <- read ReadUint8 ;;
             bSerifStyle <- read ReadUint8 ;;
             bWeight <- read ReadUint8 ;;
             bProportion <- read ReadUint8 ;;
             bContrast <- read ReadUint8 ;;
             bStrokeVariation <- read ReadUint8 ;;
             bArmStyle <- read ReadUint8 ;;
             bLetterform <- read ReadUint8 ;;
             bMidline <- read ReadUint8 ;;
             bXHeight <- read ReadUint8 ;;
             ulUnicodeRange1 <- read ReadUint32 ;;
             ulUnicodeRange2 <- read ReadUint32 ;;
             ulUnicodeRange3 <- read ReadUint32 ;;
             ulUnicodeRange4 <- read ReadUint32 ;;
             achVendID <- read (ReadBytes 4) ;;
             fsSelection <- read ReadUint16 ;;
             usFirstCharIndex <- read ReadUint16 ;;
             usLastCharIndex <- read ReadUint16 ;;
             (* the fields after an early [return nil] keep their zero value *)
             typo <- (if 78 <=? len b then
                        sTypoAscender <- read ReadInt16 ;;
                        sTypoDescender <- read ReadInt16 ;;
                        sTypoLineGap <- read ReadInt16 ;;
                        usWinAscent <- read ReadUint16 ;;
                        usWinDescent <- read ReadUint16 ;;
                        pret (sTypoAscender, sTypoDescender, sTypoLineGap, usWinAscent,
                              usWinDescent)
                      else pret (0, 0, 0, 0, 0)) ;;
             codePage <- (if version =? 0 then pret (0, 0)
                          else
                            ulCodePageRange1 <- read ReadUint32 ;;
                            ulCodePageRange2 <- read ReadUint32 ;;
                            pret (ulCodePageRange1, ulCodePageRange2)) ;;
             height <- (if (version =? 0) || (version =? 1) then pret (0, 0, 0, 0, 0)
                        else
                          sxHeight <- read ReadInt16 ;;
                          sCapHeight <- read ReadInt16 ;;
                          usDefaultChar <- read ReadUint16 ;;
                          usBreakChar <- read ReadUint16 ;;
                          usMaxContent <- read ReadUint16 ;;
                          pret (sxHeight, sCapHeight, usDefaultChar, usBreakChar,
                                usMaxContent)) ;;
             optical <- (if (version =? 0) || (version =? 1)
                            || (2 <=? version) && (version <=? 4) then pret (0, 0)
                         else
                           usLowerOpticalPointSize <- read ReadUint16 ;;
                           usUpperOpticalPointSize <- read ReadUint16 ;;
                           pret (usLowerOpticalPointSize, usUpperOpticalPointSize)) ;;
             let '(sTypoAscender, sTypoDescender, sTypoLineGap, usWinAscent, usWinDescent) :=
               typo in
             let '(ulCodePageRange1, ulCodePageRange2) := codePage in
             let '(sxHeight, sCapHeight, usDefaultChar, usBreakChar, usMaxContent) := height in
             let '(usLowerOpticalPointSize, usUpperOpticalPointSize) := optical in
             pret (os2Table.mk xAvgCharWidth usWeightClass usWidthClass fsType
                     ySubscriptXSize ySubscriptYSize ySubscriptXOffset ySubscriptYOffset
                     ySuperscriptXSize ySuperscriptYSize ySuperscriptXOffset
                     ySuperscriptYOffset yStrikeoutSize yStrikeoutPosition sFamilyClass
                     bFamilyType bSerifStyle bWeight bProportion bContrast bStrokeVariation
                     bArmStyle bLetterform bMidline bXHeight ulUnicodeRange1 ulUnicodeRange2
                     ulUnicodeRange3 ulUnicodeRange4 (copy (make x00 4) achVendID)
                     fsSelection usFirstCharIndex usLastCharIndex sTypoAscender
                     sTypoDescender sTypoLineGap usWinAscent usWinDescent ulCodePageRange1
                     ulCodePageRange2 sxHeight sCapHeight usDefaultChar usBreakChar
                     usMaxContent usLowerOpticalPointSize usUpperOpticalPointSize))%parser
          b ;;
        Ok (set_OS2 os2 sfnt)
  end.

(** *** post *)

(** The loop [for 2 <= r.Len() { ... }] over the length-prefixed strings
    that follow the name indices.  Every turn consumes at least one byte,
    so [k] turns, [k] being the length of the table, always end it. *)
Fixpoint readStringData (k : nat) (stringData : list string) : parser (list string) :=
  match k with
  | O => pret stringData
  | S k' =>
      (n <- rLen ;;
       if 2 <=? n then
         length <- read ReadUint8 ;;
         n <- rLen ;;
         if n <? length then fail (Errorf "post: bad table" [])
         else
           s <- read (ReadString length) ;;
           readStringData k' (stringData ++ [s])
       else pret stringData)%parser
  end.

(** [macintoshGlyphNames], the standard Macintosh glyph names, is a table
    of 258 strings declared outside the two source files: it is a parameter
    here, and an index below 258 is always in range for it. *)
Definition parsePost (macintoshGlyphNames : list string) (sfnt : t) : result t :=
  (* requires data from maxp *)
  match Tables sfnt !! "post" with
  | None => Err (Errorf "post: missing table" [])
  | Some b =>
      if len b <? 32 then Err (Errorf "post: bad table" [])
      else
        post <- run
          (version <- read (ReadBytes 4) ;;
           italicAngle <- read ReadUint32 ;;
           underlinePosition <- read ReadInt16 ;;
           underlineThickness <- read ReadInt16 ;;
           isFixedPitch <- read ReadUint32 ;;
           minMemType42 <- read ReadUint32 ;;
           maxMemType42 <- read ReadUint32 ;;
           minMemType1 <- read ReadUint32 ;;
           maxMemType1 <- read ReadUint32 ;;
           let post glyphName :=
             postTable.mk italicAngle underlinePosition underlineThickness isFixedPitch
               minMemType42 maxMemType42 minMemType1 maxMemType1 glyphName in
           v <- lift (BigEndian_Uint32 version) ;;
           if (v =? 0x00010000) && negb (IsCFF sfnt) && (len b =? 32) then pret (post [])
           else if (v =? 0x00020000) && negb (IsCFF sfnt) && (34 <=? len b) then
             n <- read ReadUint16 ;;
             numGlyphs <- lift (NumGlyphs sfnt) ;;
             if negb (n =? numGlyphs) then
               fail (Errorf "post: numGlyphs does not match maxp table numGlyphs" [])
             else if uint32 (len b) <? uint32 (34 + 2 * numGlyphs) then
               fail (Errorf "post: bad table" [])
             else
               (* get string data first *)
               _ <- rSeek (uint32 (34 + 2 * numGlyphs)) ;;
               stringData <- readStringData (length b) [] ;;
               n <- rLen ;;
               if negb (n =? 0) then fail (Errorf "post: bad table" [])
               else
                 _ <- rSeek 34 ;;
                 glyphName <- forRange (Z.to_nat numGlyphs) 0
                   (fun i glyphName =>
                      index_ <- read ReadUint16 ;;
                      if index_ <? 258 then
                        lift (store glyphName i
                                (nth (Z.to_nat index_) macintoshGlyphNames ""))
                      else if len stringData <? index_ - 258 then
                        fail (Errorf "post: bad table" [])
                      else
                        s <- lift (index stringData (uint16 (index_ - 258))) ;;
                        lift (store glyphName i s))
                   (make "" numGlyphs) ;;
                 pret (post glyphName)
           else if (v =? 0x00025000) && (len b =? 32) then
             fail (Errorf "post: version 2.5 not supported" [])
           else if (v =? 0x00030000) && (len b =? 32) then pret (post [])
           else fail (Errorf "post: bad table" []))%parser
          b ;;
        Ok (set_Post post sfnt)
  end.

End SFNT.

(** ** The table directory *)

(** Modelled from the spec: [calcChecksum] is declared outside the two
    source files; the spec gives a table's checksum as the sum of the
    big-endian 32-bit words over the padded table range (the range handed to
    it always has a length that is a multiple of four). *)
Fixpoint calcChecksum_words (k : nat) (b : list byte) : Z :=
  match k with
  | O => 0
  | S k' => uint32 (be (take 4 b) + calcChecksum_words k' (drop 4 b))
  end.

Definition calcChecksum (b : list byte) : Z := calcChecksum_words (length b / 4) b.

(** The locals of [ParseSFNT] that live across the table records: the
    buffer [b] itself, which the loop writes to, the position of the reader
    over it, and the map of tables. *)
Record directoryState : Type := mkDirectoryState {
  dirData : list byte;
  dirPos : Z;
  dirTables : gmap string (list byte)
}.

(** One turn of the loop over the table records.  The result comes with
    the contents of the buffer when the turn ends, also when it ends with an
    error. *)
Definition parseTableRecord (st : directoryState) : list byte * result directoryState :=
  let b := dirData st in
  let r := binaryReader.mk b (dirPos st) in
  let '(tag, r) := binaryReader.ReadString 4 r in
  let '(checksum, r) := binaryReader.ReadUint32 r in
  let '(offset, r) := binaryReader.ReadUint32 r in
  let '(length, r) := binaryReader.ReadUint32 r in
  let padding := Z.land (uint32 (4 - Z.land length 3)) 3 in
  if (uint32 (len b) <=? offset) || (uint32 (len b) - offset <? length)
     || (uint32 (len b) - offset - length <? padding) then (b, Err ErrInvalidFontData)
  else if String.eqb tag "head" && (length <? 12) then (b, Err ErrInvalidFontData)
  else
    (* to check checksum for head table, replace the overal checksum with zero
       and reset it at the end *)
    let zeroed :=
      if String.eqb tag "head" then
        rest <- slice_from b (offset + 8) ;;
        checksumAdjustment <- BigEndian_Uint32 rest ;;
        b' <- PutUint32_at b (offset + 8) 0 ;;
        Ok (checksumAdjustment, b')
      else Ok (0, b) in
    match zeroed with
    | Err e => (b, Err e)
    | Panic p => (b, Panic p)
    | Ok (checksumAdjustment, b) =>
        match slice b offset (offset + length + padding) with
        | Err e => (b, Err e)
        | Panic p => (b, Panic p)
        | Ok table =>
            if negb (calcChecksum table =? checksum) then
              (b, Err (Errorf "%s: bad checksum" [ArgStr tag]))
            else
              let restored :=
                if String.eqb tag "head" then PutUint32_at b (offset + 8) checksumAdjustment
                else Ok b in
              match restored with
              | Err e => (b, Err e)
              | Panic p => (b, Panic p)
              | Ok b =>
                  match slice b offset (offset + length) with
                  | Err e => (b, Err e)
                  | Panic p => (b, Panic p)
                  | Ok table =>
                      (b, Ok (mkDirectoryState b (binaryReader.pos r)
                                (<[tag := table]> (dirTables st))))
                  end
              end
        end
    end.

(** [for i := 0; i < int(numTables); i++ { ... }] *)
Fixpoint parseTableRecords (k : nat) (st : directoryState) : list byte * result directoryState :=
  match k with
  | O => (dirData st, Ok st)
  | S k' =>
      match parseTableRecord st with
      | (_, Ok st') => parseTableRecords k' st'
      | (b, Err e) => (b, Err e)
      | (b, Panic p) => (b, Panic p)
      end
  end.

(** The head of [ParseSFNT], up to the end of the loop over the table
    records: the contents of [b] at that point, and the version tag and the
    tables found. *)
Definition parseDirectory (b : list byte)
  : list byte * result (string * gmap string (list byte)) :=
  if (len b <? 12) || (MaxInt32 <? len b) then (b, Err ErrInvalidFontData)
  else
    let r := newBinaryReader b in
    let '(versionBytes, r) := binaryReader.ReadBytes 4 r in
    let sfntVersion := string_of_bytes versionBytes in
    let badVersion :=
      if negb (String.eqb sfntVersion "OTTO") then
        v <- BigEndian_Uint32 versionBytes ;; Ok (negb (v =? 0x00010000))
      else Ok false in
    match badVersion with
    | Err e => (b, Err e)
    | Panic p => (b, Panic p)
    | Ok true => (b, Err (Errorf "bad SFNT version" []))
    | Ok false =>
        let '(numTables, r) := binaryReader.ReadUint16 r in
        let '(_, r) := binaryReader.ReadUint16 r in (* searchRange *)
        let '(_, r) := binaryReader.ReadUint16 r in (* entrySelector *)
        let '(_, r) := binaryReader.ReadUint16 r in (* rangeShift *)
        (* can never exceed uint32 as numTables is uint16 *)
        let frontSize := uint32 (12 + 16 * numTables) in
        if uint32 (len b) <? frontSize then (b, Err ErrInvalidFontData)
        else
          match parseTableRecords (Z.to_nat numTables)
                  (mkDirectoryState b (binaryReader.pos r) ∅) with
          | (b', Ok st) => (b', Ok (sfntVersion, dirTables st))
          | (b', Err e) => (b', Err e)
          | (b', Panic p) => (b', Panic p)
          end
    end.

(** The first of [names] that is not a key of [tables]. *)
Definition missingTable (tables : gmap string (list byte)) (names : list string)
  : option string :=
  List.find (fun name => negb (bool_decide (is_Some (tables !! name)))) names.

(** The loop over the sorted table names.  [sort.Strings] orders the names
    by their bytes and a name without a case in the [switch] decodes
    nothing, so the loop runs the decoders of the tables that are present in
    this order: OS/2, cmap, glyf, hmtx, kern, name, post. *)
Definition parseTables (macintoshGlyphNames : list string) (sfnt : SFNT.t)
  : result SFNT.t :=
  let step (name : string) (parse : SFNT.t -> result SFNT.t) (sfnt : SFNT.t) :=
    if bool_decide (is_Some (SFNT.Tables sfnt !! name)) then parse sfnt else Ok sfnt in
  sfnt <- step "OS/2" SFNT.parseOS2 sfnt ;;
  sfnt <- step "cmap" SFNT.parseCmap sfnt ;;
  sfnt <- step "glyf" SFNT.parseGlyf sfnt ;;
  sfnt <- step "hmtx" SFNT.parseHmtx sfnt ;;
  sfnt <- step "kern" SFNT.parseKern sfnt ;;
  sfnt <- step "name" SFNT.parseName sfnt ;;
  step "post" (SFNT.parsePost macintoshGlyphNames) sfnt.

(** [ParseSFNT], from the end of the loop over the table records on. *)
Definition parseFont (macintoshGlyphNames : list string) (b : list byte)
    (sfntVersion : string) (tables : gmap string (list byte)) : result SFNT.t :=
  isTrueType <- (v <- BigEndian_Uint32 (list_byte_of_string sfntVersion) ;;
                 Ok (v =? 0x00010000)) ;;
  let sfnt :=
    SFNT.mk b (String.eqb sfntVersion "OTTO") isTrueType tables
      None None None None None None None None None None None in
  let requiredTables :=
    ["cmap"; "head"; "hhea"; "hmtx"; "maxp"; "name"; "OS/2"; "post"]
    ++ (if SFNT.IsTrueType sfnt then ["glyf"; "loca"] else []) in
  match missingTable tables requiredTables with
  | Some requiredTable => Err (Errorf "%s: missing table" [ArgStr requiredTable])
  | None =>
      let hasCFF := bool_decide (is_Some (tables !! "CFF ")) in
      let hasCFF2 := bool_decide (is_Some (tables !! "CFF2")) in
      if SFNT.IsCFF sfnt && negb hasCFF && negb hasCFF2 then
        Err (Errorf "CFF: missing table" [])
      else if SFNT.IsCFF sfnt && hasCFF && hasCFF2 then
        Err (Errorf "CFF2: CFF table already exists" [])
      else
        (* maxp and hhea tables are required for other tables to be parse first *)
        sfnt <- SFNT.parseHead sfnt ;;
        sfnt <- SFNT.parseMaxp sfnt ;;
        sfnt <- SFNT.parseHhea sfnt ;;
        sfnt <- (if SFNT.IsTrueType sfnt then SFNT.parseLoca sfnt else Ok sfnt) ;;
        parseTables macintoshGlyphNames sfnt
  end.

(** [ParseSFNT]: the contents of the buffer [b] when the call ends, and
    what the call returns. *)
Definition ParseSFNT (macintoshGlyphNames : list string) (b : list byte)
  : list byte * result SFNT.t :=
  match parseDirectory b with
  | (b', Ok (sfntVersion, tables)) =>
      (b', parseFont macintoshGlyphNames b' sfntVersion tables)
  | (b', Err e) => (b', Err e)
  | (b', Panic p) => (b', Panic p)
  end.

(** ** Predicates of the properties *)

(** A reader whose position lies within its buffer. *)
Definition valid (r : binaryReader.t) : Prop :=
  0 <= binaryReader.pos r <= len (binaryReader.buf r).

(** A decoder step that keeps the buffer and never moves the reader back. *)
Definition forward {A : Type} (m : parser A) : Prop :=
  forall r a r', valid r -> m r = Ok (a, r') ->
    valid r' /\ binaryReader.buf r' = binaryReader.buf r
    /\ binaryReader.pos r <= binaryReader.pos r'.

(** ** Example inputs

    A small TrueType file with five glyphs and no kern table, given table
    by table.  Glyph 0 has no outline, glyph 1 is a triangle, glyph 2 is a
    simple glyph with one point whose flag byte asks to be repeated once
    more, glyph 3 is a composite glyph whose only component is glyph 3
    itself, and glyph 4 is a composite glyph whose only component is
    glyph 0. *)

(** Glyph 1: one contour ending at point 2, no instructions, three on-curve
    flags, then the x and the y deltas as 16-bit words. *)
Definition demoGlyph1 : list byte := [
   x00; x01; x00; x00; x00; x00; x00; x64; x00; x64; x00; x02; x00; x00; x01; x01;
   x01; x00; x00; x00; x64; xff; xce; x00; x00; x00; x00; x00; x64
  ].

(** Glyph 2: one contour ending at point 0, no instructions, the flag byte
    0x09 (on curve, repeat) and the repeat count 1. *)
Definition demoGlyph2 : list byte := [
   x00; x01; x00; x00; x00; x00; x00; x64; x00; x64; x00; x00; x00; x00; x09; x01
  ].

(** Glyph 3: [numberOfContours = -1], then one component with the flags
    0x0002 (arguments are x and y values, bytes), the glyph ID 3 and the
    offsets (0, 0). *)
Definition demoGlyph3 : list byte := [
   xff; xff; x00; x00; x00; x00; x00; x64; x00; x64; x00; x02; x00; x03; x00; x00
  ].

(** Glyph 4: as glyph 3, with the glyph ID 0. *)
Definition demoGlyph4 : list byte := [
   xff; xff; x00; x00; x00; x00; x00; x64; x00; x64; x00; x02; x00; x00; x00; x00
  ].

Definition demoGlyf : list byte := demoGlyph1 ++ demoGlyph2 ++ demoGlyph3 ++ demoGlyph4.

(** Short offsets: 0, 0, 29, 45, 61, 77. *)
Definition demoLoca : list byte := [
   x00; x00; x00; x00; x00; x1d; x00; x2d; x00; x3d; x00; x4d
  ].

(** The glyf table as [parseGlyf] builds it from these two. *)
Definition demoGlyfTable : glyfTable.t :=
  glyfTable.mk demoGlyf (Some (locaTable.mk [0; 0; 29; 45; 61; 77])).

(** A cmap table with one encoding record (platform 3, encoding 1) and one
    format-4 subtable with the segments (0x41, 0x41, idDelta 29,
    idRangeOffset 0) and (0x42, 0x42, idDelta 29, idRangeOffset 0) and no
    glyph index array. *)
Definition cmapTwoSegments : list byte := [
   x00; x00; x00; x01; x00; x03; x00; x01; x00; x00; x00; x0c; x00; x04; x00; x20;
   x00; x00; x00; x04; x00; x00; x00; x00; x00; x00; x00; x41; x00; x42; x00; x00;
   x00; x41; x00; x42; x00; x1d; x00; x1d; x00; x00; x00; x00
  ].

(** head: version 1.0, checksum adjustment 0x12345678, the magic number,
    1000 units per em, short loca offsets. *)
Definition demoHead : list byte := [
   x00; x01; x00; x00; x00; x01; x00; x00; x12; x34; x56; x78; x5f; x0f; x3c; xf5;
   x00; x00; x03; xe8; x00; x00; x00; x00; x00; x00; x00; x00; x00; x00; x00; x00;
   x00; x00; x00; x00; x00; x00; x00; x00; x00; x64; x00; x64; x00; x00; x00; x08;
   x00; x02; x00; x00; x00; x00
  ].

(** maxp: version 1.0, five glyphs. *)
Definition demoMaxp : list byte := [
   x00; x01; x00; x00; x00; x05; x00; x00; x00; x00; x00; x00; x00; x00; x00; x00;
   x00; x00; x00; x00; x00; x00; x00; x00; x00; x00; x00; x00; x00; x00; x00; x00
  ].

(** hhea: version 1.0, five horizontal metrics. *)
Definition demoHhea : list byte := [
   x00; x01; x00; x00; x03; x20; xff; x38; x00; x00; x02; x58; x00; x00; x00; x00;
   x00; x64; x00; x00; x00; x00; x00; x00; x00; x00; x00; x00; x00; x00; x00; x00;
   x00; x00; x00; x05
  ].

Definition demoHmtx : list byte := [
   x02; x58; x00; x00; x02; x58; x00; x00; x02; x58; x00; x00; x02; x58; x00; x00;
   x02; x58; x00; x00
  ].

(** OS/2: version 0, 68 bytes. *)
Definition demoOS2 : list byte := [
   x00; x00; x00; x00; x00; x00; x00; x00; x00; x00; x00; x00; x00; x00; x00; x00;
   x00; x00; x00; x00; x00; x00; x00; x00; x00; x00; x00; x00; x00; x00; x00; x00;
   x00; x00; x00; x00; x00; x00; x00; x00; x00; x00; x00; x00; x00; x00; x00; x00;
   x00; x00; x00; x00; x00; x00; x00; x00; x00; x00; x00; x00; x00; x00; x00; x00;
   x00; x00; x00; x00
  ].

(** name: version 0, no records. *)
Definition demoName : list byte := [
   x00; x00; x00; x00; x00; x06
  ].

(** post: version 3.0. *)
Definition demoPost : list byte := [
   x00; x03; x00; x00; x00; x00; x00; x00; x00; x00; x00; x00; x00; x00; x00; x00;
   x00; x00; x00; x00; x00; x00; x00; x00; x00; x00; x00; x00; x00; x00; x00; x00
  ].

(** The header and the table directory: for each table its tag, checksum,
    offset and length. *)
Definition demoDirectory : list byte := [
   x00; x01; x00; x00; x00; x0a; x00; x00; x00; x00; x00; x00; x4f; x53; x2f; x32;
   x00; x00; x00; x00; x00; x00; x00; xac; x00; x00; x00; x44; x63; x6d; x61; x70;
   x00; xa7; x00; xd2; x00; x00; x00; xf0; x00; x00; x00; x2c; x67; x6c; x79; x66;
   xfd; x65; xfd; x70; x00; x00; x01; x1c; x00; x00; x00; x4d; x68; x65; x61; x64;
   x5f; x77; x41; x49; x00; x00; x01; x6c; x00; x00; x00; x36; x68; x68; x65; x61;
   x03; x86; x01; x95; x00; x00; x01; xa4; x00; x00; x00; x24; x68; x6d; x74; x78;
   x0b; xb8; x00; x00; x00; x00; x01; xc8; x00; x00; x00; x14; x6c; x6f; x63; x61;
   x00; x5a; x00; x7a; x00; x00; x01; xdc; x00; x00; x00; x0c; x6d; x61; x78; x70;
   x00; x06; x00; x00; x00; x00; x01; xe8; x00; x00; x00; x20; x6e; x61; x6d; x65;
   x00; x06; x00; x00; x00; x00; x02; x08; x00; x00; x00; x06; x70; x6f; x73; x74;
   x00; x03; x00; x00; x00; x00; x02; x10; x00; x00; x00; x20
  ].

(** The file: the directory, then the tables in the order of their tags,
    each padded to a multiple of four bytes. *)
Definition demoFont : list byte :=
  demoDirectory ++ demoOS2 ++ cmapTwoSegments ++ demoGlyf ++ [x00; x00; x00] ++ demoHead
  ++ [x00; x00] ++ demoHhea ++ demoHmtx ++ demoLoca ++ demoMaxp ++ demoName
  ++ [x00; x00] ++ demoPost.

(** A cmap table whose format-4 subtable has the segments (0x41, 0x42,
    idDelta 0, idRangeOffset 2) and (0xFFFF, 0xFFFF, idDelta 1,
    idRangeOffset 0) and the glyph index array [1]. *)
Definition cmapRangeOffsetInside : list byte := [
   x00; x00; x00; x01; x00; x03; x00; x01; x00; x00; x00; x0c; x00; x04; x00; x22;
   x00; x00; x00; x04; x00; x00; x00; x00; x00; x00; x00; x42; xff; xff; x00; x00;
   x00; x41; xff; xff; x00; x00; x00; x01; x00; x02; x00; x00; x00; x01
  ].

(** The directory of the example file with this cmap table in place of the
    first. *)
Definition directoryRangeOffsetInside : list byte := [
   x00; x01; x00; x00; x00; x0a; x00; x00; x00; x00; x00; x00; x4f; x53; x2f; x32;
   x00; x00; x00; x00; x00; x00; x00; xac; x00; x00; x00; x44; x63; x6d; x61; x70;
   x00; x4b; x00; x76; x00; x00; x00; xf0; x00; x00; x00; x2e; x67; x6c; x79; x66;
   xfd; x65; xfd; x70; x00; x00; x01; x20; x00; x00; x00; x4d; x68; x65; x61; x64;
   x5f; x77; x41; x49; x00; x00; x01; x70; x00; x00; x00; x36; x68; x68; x65; x61;
   x03; x86; x01; x95; x00; x00; x01; xa8; x00; x00; x00; x24; x68; x6d; x74; x78;
   x0b; xb8; x00; x00; x00; x00; x01; xcc; x00; x00; x00; x14; x6c; x6f; x63; x61;
   x00; x5a; x00; x7a; x00; x00; x01; xe0; x00; x00; x00; x0c; x6d; x61; x78; x70;
   x00; x06; x00; x00; x00; x00; x01; xec; x00; x00; x00; x20; x6e; x61; x6d; x65;
   x00; x06; x00; x00; x00; x00; x02; x0c; x00; x00; x00; x06; x70; x6f; x73; x74;
   x00; x03; x00; x00; x00; x00; x02; x14; x00; x00; x00; x20
  ].

(** The example file with this cmap table. *)
Definition fontRangeOffsetInside : list byte :=
  directoryRangeOffsetInside ++ demoOS2 ++ cmapRangeOffsetInside ++ [x00; x00]
  ++ demoGlyf ++ [x00; x00; x00] ++ demoHead ++ [x00; x00] ++ demoHhea ++ demoHmtx
  ++ demoLoca ++ demoMaxp ++ demoName ++ [x00; x00] ++ demoPost.

(** A cmap table with two encoding records.  The first names the format-6
    subtable at offset 20, of length 22 (first code 0x41, six glyph IDs);
    the second names offset 28, where the bytes of the first subtable and
    the two bytes after it read as a format-6 subtable of length 16 (first
    code 0x61, three glyph IDs). *)
Definition cmapOverlapping : list byte := [
   x00; x00; x00; x02; x00; x03; x00; x01; x00; x00; x00; x14; x00; x03; x00; x0a;
   x00; x00; x00; x1c; x00; x06; x00; x16; x00; x00; x00; x41; x00; x06; x00; x10;
   x00; x00; x00; x61; x00; x03; x00; x07; x00; x08; x00; x09
  ].

(** The directory of the example file with this cmap table. *)
Definition directoryOverlapping : list byte := [
   x00; x01; x00; x00; x00; x0a; x00; x00; x00; x00; x00; x00; x4f; x53; x2f; x32;
   x00; x00; x00; x00; x00; x00; x00; xac; x00; x00; x00; x44; x63; x6d; x61; x70;
   x00; x1d; x01; x15; x00; x00; x00; xf0; x00; x00; x00; x2c; x67; x6c; x79; x66;
   xfd; x65; xfd; x70; x00; x00; x01; x1c; x00; x00; x00; x4d; x68; x65; x61; x64;
   x5f; x77; x41; x49; x00; x00; x01; x6c; x00; x00; x00; x36; x68; x68; x65; x61;
   x03; x86; x01; x95; x00; x00; x01; xa4; x00; x00; x00; x24; x68; x6d; x74; x78;
   x0b; xb8; x00; x00; x00; x00; x01; xc8; x00; x00; x00; x14; x6c; x6f; x63; x61;
   x00; x5a; x00; x7a; x00; x00; x01; xdc; x00; x00; x00; x0c; x6d; x61; x78; x70;
   x00; x06; x00; x00; x00; x00; x01; xe8; x00; x00; x00; x20; x6e; x61; x6d; x65;
   x00; x06; x00; x00; x00; x00; x02; x08; x00; x00; x00; x06; x70; x6f; x73; x74;
   x00; x03; x00; x00; x00; x00; x02; x10; x00; x00; x00; x20
  ].

(** The example file with this cmap table. *)
Definition fontOverlapping : list byte :=
  directoryOverlapping ++ demoOS2 ++ cmapOverlapping ++ demoGlyf ++ [x00; x00; x00]
  ++ demoHead ++ [x00; x00] ++ demoHhea ++ demoHmtx ++ demoLoca ++ demoMaxp ++ demoName
  ++ [x00; x00] ++ demoPost.

(** A post table of version 2.0 for five glyphs: the name indices 0, 0, 0, 0
    and 258, and no string after them. *)
Definition postIndexPastPool : list byte := [
   x00; x02; x00; x00; x00; x00; x00; x00; x00; x00; x00; x00; x00; x00; x00; x00;
   x00; x00; x00; x00; x00; x00; x00; x00; x00; x00; x00; x00; x00; x00; x00; x00;
   x00; x05; x00; x00; x00; x00; x00; x00; x00; x00; x01; x02
  ].

(** The directory of the example file with this post table. *)
Definition directoryIndexPastPool : list byte := [
   x00; x01; x00; x00; x00; x0a; x00; x00; x00; x00; x00; x00; x4f; x53; x2f; x32;
   x00; x00; x00; x00; x00; x00; x00; xac; x00; x00; x00; x44; x63; x6d; x61; x70;
   x00; xa7; x00; xd2; x00; x00; x00; xf0; x00; x00; x00; x2c; x67; x6c; x79; x66;
   xfd; x65; xfd; x70; x00; x00; x01; x1c; x00; x00; x00; x4d; x68; x65; x61; x64;
   x5f; x77; x41; x49; x00; x00; x01; x6c; x00; x00; x00; x36; x68; x68; x65; x61;
   x03; x86; x01; x95; x00; x00; x01; xa4; x00; x00; x00; x24; x68; x6d; x74; x78;
   x0b; xb8; x00; x00; x00; x00; x01; xc8; x00; x00; x00; x14; x6c; x6f; x63; x61;
   x00; x5a; x00; x7a; x00; x00; x01; xdc; x00; x00; x00; x0c; x6d; x61; x78; x70;
   x00; x06; x00; x00; x00; x00; x01; xe8; x00; x00; x00; x20; x6e; x61; x6d; x65;
   x00; x06; x00; x00; x00; x00; x02; x08; x00; x00; x00; x06; x70; x6f; x73; x74;
   x00; x07; x01; x02; x00; x00; x02; x10; x00; x00; x00; x2c
  ].

(** The example file with this post table. *)
Definition fontIndexPastPool : list byte :=
  directoryIndexPastPool ++ demoOS2 ++ cmapTwoSegments ++ demoGlyf ++ [x00; x00; x00]
  ++ demoHead ++ [x00; x00] ++ demoHhea ++ demoHmtx ++ demoLoca ++ demoMaxp ++ demoName
  ++ [x00; x00] ++ postIndexPastPool.

(** A file whose directory has the one record of a head table (the one of
    the example file, at offset 28) and gives it a checksum that is one more
    than the sum of its words. *)
Definition headBadChecksumFile : list byte := [
   x00; x01; x00; x00; x00; x01; x00; x00; x00; x00; x00; x00; x68; x65; x61; x64;
   x5f; x77; x41; x4a; x00; x00; x00; x1c; x00; x00; x00; x36; x00; x01; x00; x00;
   x00; x01; x00; x00; x12; x34; x56; x78; x5f; x0f; x3c; xf5; x00; x00; x03; xe8;
   x00; x00; x00; x00; x00; x00; x00; x00; x00; x00; x00; x00; x00; x00; x00; x00;
   x00; x00; x00; x00; x00; x64; x00; x64; x00; x00; x00; x08; x00; x02; x00; x00;
   x00; x00; x00; x00
  ].

(** The same file with the checksum adjustment of the head table (the four
    bytes at offset 36) zeroed. *)
Definition headBadChecksumFile_zeroed : list byte := [
   x00; x01; x00; x00; x00; x01; x00; x00; x00; x00; x00; x00; x68; x65; x61; x64;
   x5f; x77; x41; x4a; x00; x00; x00; x1c; x00; x00; x00; x36; x00; x01; x00; x00;
   x00; x01; x00; x00; x00; x00; x00; x00; x5f; x0f; x3c; xf5; x00; x00; x03; xe8;
   x00; x00; x00; x00; x00; x00; x00; x00; x00; x00; x00; x00; x00; x00; x00; x00;
   x00; x00; x00; x00; x00; x64; x00; x64; x00; x00; x00; x08; x00; x02; x00; x00;
   x00; x00; x00; x00
  ].

(** maxp: version 1.0, 65535 glyphs. *)
Definition maxpOf65535Glyphs : list byte := [
   x00; x01; x00; x00; xff; xff; x00; x00; x00; x00; x00; x00; x00; x00; x00; x00;
   x00; x00; x00; x00; x00; x00; x00; x00; x00; x00; x00; x00; x00; x00; x00; x00
  ].

(** The loca table of a font with 65535 glyphs and short offsets: 65536
    entries of two bytes, the first 1 and all others 0. *)
Definition locaOf65535Glyphs : list byte :=
  x00 :: x01 :: replicate (Z.to_nat 131070) x00.

(** The directory of the example file with these two tables. *)
Definition directoryOf65535Glyphs : list byte := [
   x00; x01; x00; x00; x00; x0a; x00; x00; x00; x00; x00; x00; x4f; x53; x2f; x32;
   x00; x00; x00; x00; x00; x00; x00; xac; x00; x00; x00; x44; x63; x6d; x61; x70;
   x00; xa7; x00; xd2; x00; x00; x00; xf0; x00; x00; x00; x2c; x67; x6c; x79; x66;
   xfd; x65; xfd; x70; x00; x00; x01; x1c; x00; x00; x00; x4d; x68; x65; x61; x64;
   x5f; x77; x41; x49; x00; x00; x01; x6c; x00; x00; x00; x36; x68; x68; x65; x61;
   x03; x86; x01; x95; x00; x00; x01; xa4; x00; x00; x00; x24; x68; x6d; x74; x78;
   x0b; xb8; x00; x00; x00; x00; x01; xc8; x00; x00; x00; x14; x6c; x6f; x63; x61;
   x00; x01; x00; x00; x00; x00; x01; xdc; x00; x02; x00; x00; x6d; x61; x78; x70;
   x00; x00; x00; x00; x00; x02; x01; xdc; x00; x00; x00; x20; x6e; x61; x6d; x65;
   x00; x06; x00; x00; x00; x02; x01; xfc; x00; x00; x00; x06; x70; x6f; x73; x74;
   x00; x03; x00; x00; x00; x02; x02; x04; x00; x00; x00; x20
  ].

(** The example file with these two tables: a font of 65535 glyphs whose
    loca offsets decrease and do not end at the length of glyf. *)
Definition fontOf65535Glyphs : list byte :=
  directoryOf65535Glyphs ++ demoOS2 ++ cmapTwoSegments ++ demoGlyf ++ [x00; x00; x00]
  ++ demoHead ++ [x00; x00] ++ demoHhea ++ demoHmtx ++ locaOf65535Glyphs
  ++ maxpOf65535Glyphs ++ demoName ++ [x00; x00] ++ demoPost.

(** The font as [ParseSFNT] has it when the tables after head and maxp are
    decoded, reduced to what these decoders read of it: the tables, the
    loca format of head and the glyph count of maxp. *)
Definition decoding (indexToLocFormat numGlyphs : Z) (tables : gmap string (list byte))
  : SFNT.t :=
  SFNT.mk [] false true tables None
    (Some (headTable.mk 0 [] 0 0 0 0 0 0 0 [] 0 0 indexToLocFormat 0))
    None None
    (Some (maxpTable.mk numGlyphs 0 0 0 0 0 0 0 0 0 0 0 0 0))
    None None None None None None.


(** The format-4 subtables that [cmapTwoSegments] and
    [cmapRangeOffsetInside] hold, as [cmapFormat4] values. *)
Definition subtableTwoSegments : cmapFormat4.t :=
  cmapFormat4.mk [0x41; 0x42] [0x41; 0x42] [29; 29] [0; 0] [].

Definition subtableRangeOffsetInside : cmapFormat4.t :=
  cmapFormat4.mk [0x41; 0xFFFF] [0x42; 0xFFFF] [0; 1] [2; 0] [1].

(** The state in which [parseLoca] runs for a font of 65535 glyphs with the
    loca table [locaOf65535Glyphs] and the glyf table of the example file. *)
Definition decodingOf65535Glyphs : SFNT.t :=
  decoding 0 65535 {[ "loca" := locaOf65535Glyphs; "glyf" := demoGlyf ]}.

(** A kern table of version 0 with one format-0 subtable (coverage 1) that
    holds the one pair (left 1, right 2) with the adjustment -50. *)
Definition demoKern : list byte := [
   x00; x00; x00; x01; x00; x00; x00; x14; x00; x01; x00; x01; x00; x00; x00; x00;
   x00; x00; x00; x01; x00; x02; xff; xce
  ].

(** The state in which [parseLoca] runs for the example file, and the
    offsets it decodes. *)
Definition decodingDemo : SFNT.t :=
  decoding 0 5 {[ "loca" := demoLoca; "glyf" := demoGlyf ]}.

Definition demoLocaTable : locaTable.t := locaTable.mk [0; 0; 29; 45; 61; 77].

(** A kern table of version 0 with one format-0 subtable (coverage 1) of
    three pairs: (1, 2) with -50, (1, 3) with 20 and (2, 1) with -10. *)
Definition kernThreePairs : list byte := [
   x00; x00; x00; x01; x00; x00; x00; x20; x00; x01; x00; x03; x00; x0c; x00; x01;
   x00; x06; x00; x01; x00; x02; xff; xce; x00; x01; x00; x03; x00; x14; x00; x02;
   x00; x01; xff; xf6
  ].

Definition decodingKern : SFNT.t := decoding 0 5 {[ "kern" := kernThreePairs ]}.

Definition demoKernTable : kernTable.t :=
  kernTable.mk
    [kernFormat0.mk (uint8ToFlags 1)
       [kernFormat0.mkPair 0x10002 (-50); kernFormat0.mkPair 0x10003 20;
        kernFormat0.mkPair 0x20001 (-10)]].

(** hhea and hmtx of a font of five glyphs of which the last four share
    one advance: two long metrics (500, 10) and (600, 20), then the left
    side bearings 30, -5 and 0. *)
Definition hheaTwoMetrics : list byte := [
   x00; x01; x00; x00; x03; x20; xff; x38; x00; x00; x02; x58; x00; x00; x00; x00;
   x00; x64; x00; x00; x00; x00; x00; x00; x00; x00; x00; x00; x00; x00; x00; x00;
   x00; x00; x00; x02
  ].

Definition hmtxTwoMetrics : list byte := [
   x01; xf4; x00; x0a; x02; x58; x00; x14; x00; x1e; xff; xfb; x00; x00
  ].

(** The state in which the maxp, hhea and hmtx decoders run on these tables,
    and the tables they decode. *)
Definition decodingMetrics : SFNT.t :=
  SFNT.mk [] false true
    {[ "maxp" := demoMaxp; "hhea" := hheaTwoMetrics; "hmtx" := hmtxTwoMetrics ]}
    None None None None None None None None None None None.

Definition maxpFiveGlyphs : maxpTable.t := maxpTable.mk 5 0 0 0 0 0 0 0 0 0 0 0 0 0.

Definition hheaTwoMetricsTable : hheaTable.t :=
  hheaTable.mk 800 (-200) 0 600 0 0 100 0 0 0 0 2.

Definition hmtxTwoMetricsTable : hmtxTable.t :=
  hmtxTable.mk [hmtxTable.mkMetric 500 10; hmtxTable.mkMetric 600 20] [30; -5; 0].

(** ** Properties of decoded tables *)

(** Offsets that do not decrease from each one to the next, up to the
    offset [j]. *)
Definition sortedBelow (j : Z) (offsets : list Z) : Prop :=
  forall (a : nat) (x y : Z), Z.of_nat a + 1 < j ->
    offsets !! a = Some x -> offsets !! S a = Some y -> x <= y.

(** The error that [ParseSFNT] returns from between the zeroing and the
    restoring of the head table's checksum adjustment. *)
Definition headChecksumError : error := Errorf "%s: bad checksum" [ArgStr "head"].

(** Keys that increase strictly along the pairs. *)
Definition keysIncrease (pairs : list kernFormat0.kernPair) : Prop :=
  forall (i j : nat) (p q : kernFormat0.kernPair),
    (i < j)%nat -> pairs !! i = Some p -> pairs !! j = Some q ->
    kernFormat0.Key p < kernFormat0.Key q.

(** Keys that increase from each pair to the next, up to pair [j]. *)
Definition keysIncreaseBelow (j : Z) (pairs : list kernFormat0.kernPair) : Prop :=
  forall (a : nat) (p q : kernFormat0.kernPair), Z.of_nat a + 1 < j ->
    pairs !! a = Some p -> pairs !! S a = Some q ->
    kernFormat0.Key p < kernFormat0.Key q.

(** The groups of a format-12 subtable below group [j], as the decoder
    accepts them: 32-bit values, each group not empty and after the one
    before it, and its last glyph below [numGlyphs]. *)
Definition groupsDecoded (numGlyphs j : Z) (groups : cmapFormat12.t) : Prop :=
  (forall (a : nat) (s e g : Z), Z.of_nat a < j ->
     cmapFormat12.StartCharCode groups !! a = Some s ->
     cmapFormat12.EndCharCode groups !! a = Some e ->
     cmapFormat12.StartGlyphID groups !! a = Some g ->
     0 <= s <= e /\ e < 2 ^ 32 /\ 0 <= g /\ e - s + g < numGlyphs)
  /\ (forall (a : nat) (e s : Z), Z.of_nat a + 1 < j ->
        cmapFormat12.EndCharCode groups !! a = Some e ->
        cmapFormat12.StartCharCode groups !! S a = Some s -> e < s).

(** A format-12 subtable body (after format, reserved and length): language
    0 and the two groups 0x41..0x43 from glyph 1 and 0x1F600 as glyph 4. *)
Definition format12TwoGroups : list byte := [
   x00; x00; x00; x00; x00; x00; x00; x02;
   x00; x00; x00; x41; x00; x00; x00; x43; x00; x00; x00; x01;
   x00; x01; xf6; x00; x00; x01; xf6; x00; x00; x00; x00; x04
  ].

Definition subtableTwoGroups : cmapFormat12.t :=
  cmapFormat12.mk [0x41; 0x1F600] [0x43; 0x1F600] [1; 4].

(** The segments of a format-4 subtable as the decoder accepts them: four
    lists of one length, each segment not empty and after the one before
    it, the glyph array index of a segment's last character inside the
    glyph array, and the glyphs of that array below [numGlyphs]. *)
Definition segmentsDecoded (numGlyphs : Z) (subtable : cmapFormat4.t) : Prop :=
  length (cmapFormat4.EndCode subtable) = length (cmapFormat4.StartCode subtable)
  /\ length (cmapFormat4.IdDelta subtable) = length (cmapFormat4.StartCode subtable)
  /\ length (cmapFormat4.IdRangeOffset subtable) = length (cmapFormat4.StartCode subtable)
  /\ (forall (a : nat) (s e : Z),
        cmapFormat4.StartCode subtable !! a = Some s ->
        cmapFormat4.EndCode subtable !! a = Some e -> 0 <= s <= e /\ e < 65536)
  /\ (forall (a : nat) (e s : Z),
        cmapFormat4.EndCode subtable !! a = Some e ->
        cmapFormat4.StartCode subtable !! S a = Some s -> e < s)
  /\ (forall (a : nat) (s e o : Z),
        cmapFormat4.StartCode subtable !! a = Some s ->
        cmapFormat4.EndCode subtable !! a = Some e ->
        cmapFormat4.IdRangeOffset subtable !! a = Some o -> o <> 0 ->
        0 <= o / 2 + (e - s) - (len (cmapFormat4.StartCode subtable) - Z.of_nat a)
          < len (cmapFormat4.GlyphIdArray subtable))
  /\ (forall (a : nat) (g : Z),
        cmapFormat4.GlyphIdArray subtable !! a = Some g -> 0 <= g < numGlyphs).

(** A format-4 subtable body (after format and length): the segment
    0x41..0x42 through the glyph array [3; 4] and the last segment 0xFFFF
    with the delta 1. *)
Definition format4GlyphArray : list byte := [
   x00; x00; x00; x04; x00; x04; x00; x01; x00; x00;
   x00; x42; xff; xff; x00; x00; x00; x41; xff; xff;
   x00; x00; x00; x01; x00; x04; x00; x00; x00; x03; x00; x04
  ].

Definition subtableGlyphArray : cmapFormat4.t :=
  cmapFormat4.mk [0x41; 0xFFFF] [0x42; 0xFFFF] [0; 1] [4; 0] [3; 4].

(** A contour with one on-curve flag, one x and one y coordinate for each
    point. *)
Definition pointsAligned (contour : glyfContour.t) : Prop :=
  length (glyfContour.OnCurve contour) = length (glyfContour.XCoordinates contour)
  /\ length (glyfContour.YCoordinates contour) = length (glyfContour.XCoordinates contour).

(** A format-0 subtable body (after format and length): language 0 and the
    256 glyph IDs, all 0 but the glyph 1 for 0x41. *)
Definition format0OneGlyph : list byte :=
  [x00; x00] ++ replicate 65 x00 ++ [x01] ++ replicate 190 x00.

Definition subtableOneGlyph : cmapFormat0.t :=
  cmapFormat0.mk (replicate 65 0 ++ [1] ++ replicate 190 0).

(** A format-6 subtable body (after format and length): language 0, first
    code 0x41 and the two glyphs 1 and 2. *)
Definition format6TwoGlyphs : list byte := [
   x00; x00; x00; x41; x00; x02; x00; x01; x00; x02
  ].

Definition subtableTwoGlyphs : cmapFormat6.t := cmapFormat6.mk 0x41 [1; 2].

(** A post table of version 2.0 for two glyphs: the glyph 0 has the
    standard name 0 and the glyph 1 the first name of the table's own
    strings, the one-letter name A. *)
Definition postTwoNames : list byte := [
   x00; x02; x00; x00; x00; x00; x00; x00; x00; x00; x00; x00; x00; x00; x00; x00;
   x00; x00; x00; x00; x00; x00; x00; x00; x00; x00; x00; x00; x00; x00; x00; x00;
   x00; x02; x00; x00; x01; x02; x01; x41
  ].

Definition decodingPost : SFNT.t := decoding 0 2 {[ "post" := postTwoNames ]}.

Definition postTwoNamesTable : postTable.t :=
  postTable.mk 0 0 0 0 0 0 0 0 [".notdef"; "A"].

(** A name table of version 1 without name records that announces one
    language tag record. *)
Definition nameOneLangTag : list byte := [
   x00; x01; x00; x00; x00; x06; x00; x01; x00; x00; x00; x00
  ].

Definition decodingName : SFNT.t := decoding 0 5 {[ "name" := nameOneLangTag ]}.

(** Tables that are pieces of the buffer [b]. *)
Definition tablesInside (b : list byte) (tables : gmap string (list byte)) : Prop :=
  forall (tag : string) (table : list byte), tables !! tag = Some table ->
    exists offset : Z,
      0 <= offset /\ offset + len table <= len b
      /\ table = take (length table) (drop (Z.to_nat offset) b).

(** A cmap subtable as the decoder of its format accepts it, for a font of
    [numGlyphs] glyphs. *)
Definition subtableDecoded (numGlyphs : Z) (subtable : cmapSubtable) : Prop :=
  match subtable with
  | Format0 glyphs =>
      length (cmapFormat0.GlyphIdArray glyphs) = 256%nat
      /\ forall g : Z, In g (cmapFormat0.GlyphIdArray glyphs) -> uint16 g < numGlyphs
  | Format4 segments => segmentsDecoded numGlyphs segments
  | Format6 _ => True
  | Format12 groups =>
      exists n : nat,
        length (cmapFormat12.StartCharCode groups) = n
        /\ length (cmapFormat12.EndCharCode groups) = n
        /\ length (cmapFormat12.StartGlyphID groups) = n
        /\ groupsDecoded numGlyphs (Z.of_nat n) groups
  end.

(** A cmap table whose one subtable is the format-12 subtable of two
    groups, under the encoding record of platform 3 and encoding 10. *)
Definition cmapTwoGroups : list byte :=
  [x00; x00; x00; x01; x00; x03; x00; x0a; x00; x00; x00; x0c;
   x00; x0c; x00; x00; x00; x00; x00; x28] ++ format12TwoGroups.

Definition decodingCmap : SFNT.t := decoding 0 5 {[ "cmap" := cmapTwoGroups ]}.

Definition cmapTwoGroupsTable : cmapTable.t :=
  cmapTable.mk [mkEncodingRecord 3 10 12 0] [Format12 subtableTwoGroups].

(** The formats whose lookup is not the format-4 lookup, and the formats
    whose decoder checks every glyph a lookup can return. *)
Definition notFormat4 (subtable : cmapSubtable) : bool :=
  match subtable with
  | Format4 _ => false
  | _ => true
  end.

Definition glyphsChecked (subtable : cmapSubtable) : bool :=
  match subtable with
  | Format0 _ | Format12 _ => true
  | _ => false
  end.

(** ** Composite glyphs that name themselves

    A second TrueType file of five glyphs; it differs from the example file
    in its glyf and loca tables.  Glyph 0 has no outline and glyph 1 is the
    triangle.  Glyphs 2, 3 and 4 are composite glyphs of two components, the
    second of which is the glyph itself; the first component is the
    triangle for glyph 2, the glyph without outline for glyph 3, and the
    glyph ID 9, which the file does not have, for glyph 4. *)

(** Glyph 2: [numberOfContours = -1], a component with the flags 0x0022
    (arguments are x and y values, bytes; MORE_COMPONENTS), the glyph ID 1
    and the offsets (0, 0), and a component with the flags 0x0002, the
    glyph ID 2 and the offsets (0, 0). *)
Definition cycleGlyph2 : list byte := [
   xff; xff; x00; x00; x00; x00; x00; x64; x00; x64; x00; x22; x00; x01; x00; x00;
   x00; x02; x00; x02; x00; x00
  ].

(** Glyph 3: as glyph 2, with the glyph IDs 0 and 3. *)
Definition cycleGlyph3 : list byte := [
   xff; xff; x00; x00; x00; x00; x00; x64; x00; x64; x00; x22; x00; x00; x00; x00;
   x00; x02; x00; x03; x00; x00
  ].

(** Glyph 4: as glyph 2, with the glyph IDs 9 and 4. *)
Definition cycleGlyph4 : list byte := [
   xff; xff; x00; x00; x00; x00; x00; x64; x00; x64; x00; x22; x00; x09; x00; x00;
   x00; x02; x00; x04; x00; x00
  ].

Definition cycleGlyf : list byte := demoGlyph1 ++ cycleGlyph2 ++ cycleGlyph3 ++ cycleGlyph4.

(** Short offsets: 0, 0, 29, 51, 73, 95. *)
Definition cycleLoca : list byte := [
   x00; x00; x00; x00; x00; x1d; x00; x33; x00; x49; x00; x5f
  ].

(** The glyf table as [parseGlyf] builds it from these two. *)
Definition cycleGlyfTable : glyfTable.t :=
  glyfTable.mk cycleGlyf (Some (locaTable.mk [0; 0; 29; 51; 73; 95])).

(** The directory of the file with these two tables. *)
Definition cycleDirectory : list byte := [
   x00; x01; x00; x00; x00; x0a; x00; x00; x00; x00; x00; x00; x4f; x53; x2f; x32;
   x00; x00; x00; x00; x00; x00; x00; xac; x00; x00; x00; x44; x63; x6d; x61; x70;
   x00; xa7; x00; xd2; x00; x00; x00; xf0; x00; x00; x00; x2c; x67; x6c; x79; x66;
   x43; x66; x2d; x66; x00; x00; x01; x1c; x00; x00; x00; x5f; x68; x65; x61; x64;
   x5f; x77; x41; x49; x00; x00; x01; x7c; x00; x00; x00; x36; x68; x68; x65; x61;
   x03; x86; x01; x95; x00; x00; x01; xb4; x00; x00; x00; x24; x68; x6d; x74; x78;
   x0b; xb8; x00; x00; x00; x00; x01; xd8; x00; x00; x00; x14; x6c; x6f; x63; x61;
   x00; x66; x00; x92; x00; x00; x01; xec; x00; x00; x00; x0c; x6d; x61; x78; x70;
   x00; x06; x00; x00; x00; x00; x01; xf8; x00; x00; x00; x20; x6e; x61; x6d; x65;
   x00; x06; x00; x00; x00; x00; x02; x18; x00; x00; x00; x06; x70; x6f; x73; x74;
   x00; x03; x00; x00; x00; x00; x02; x20; x00; x00; x00; x20
  ].

(** The file: the tables of the example file, with these glyf and loca
    tables. *)
Definition cycleFont : list byte :=
  cycleDirectory ++ demoOS2 ++ cmapTwoSegments ++ cycleGlyf ++ [x00] ++ demoHead
  ++ [x00; x00] ++ demoHhea ++ demoHmtx ++ cycleLoca ++ demoMaxp ++ demoName
  ++ [x00; x00] ++ demoPost.
(** * Properties *)

(** ** The cursor reader and the decoders built on it *)

Section Reader.

Import binaryReader.

Lemma len_nonneg {A : Type} (s : list A) : 0 <= len s.
Proof. unfold len. lia. Qed.

Lemma valid_new (b : list byte) : valid (newBinaryReader b).
Proof. unfold valid, newBinaryReader; simpl. pose proof (len_nonneg b). lia. Qed.

Lemma Len_nonneg (r : binaryReader.t) : valid r -> 0 <= Len r.
Proof. unfold valid, Len. lia. Qed.

(** A read of [n] bytes either finds them and moves on by [n], or moves
    nothing. *)
Lemma ReadBytes_spec (n : Z) (r : binaryReader.t) :
  (n <= Len r /\ snd (ReadBytes n r) = mk (buf r) (pos r + n))
  \/ (Len r < n /\ ReadBytes n r = ([], r)).
Proof.
  unfold ReadBytes. destruct (Z.ltb_spec (Len r) n); [right | left]; auto.
Qed.

Lemma ReadUint_enough (n : Z) (r : binaryReader.t) :
  n <= Len r ->
  ReadUint n r = (be (take (Z.to_nat n) (drop (Z.to_nat (pos r)) (buf r))), mk (buf r) (pos r + n)).
Proof.
  intros H. unfold ReadUint, ReadBytes.
  destruct (Z.ltb_spec (Len r) n); [lia | reflexivity].
Qed.

Lemma forward_pret {A : Type} (a : A) : forward (pret a).
Proof. intros r a' r' Hv H. inversion H; subst. repeat split; solve [apply Hv | lia]. Qed.

Lemma forward_fail {A : Type} (e : error) : forward (@fail A e).
Proof. intros r a r' Hv H. discriminate. Qed.

Lemma forward_lift {A : Type} (m : result A) : forward (lift m).
Proof.
  intros r a r' Hv H. unfold lift in H. destruct m; inversion H; subst.
  repeat split; solve [apply Hv | lia].
Qed.

Lemma forward_rLen : forward rLen.
Proof. intros r a r' Hv H. inversion H; subst. repeat split; solve [apply Hv | lia]. Qed.

Lemma forward_pbind {A B : Type} (m : parser A) (k : A -> parser B) :
  forward m -> (forall a, forward (k a)) -> forward (pbind m k).
Proof.
  intros Hm Hk r b r' Hv H. unfold pbind in H.
  destruct (m r) as [[a r1] | |] eqn:E; try discriminate.
  destruct (Hm _ _ _ Hv E) as (Hv1 & Hb1 & Hp1).
  destruct (Hk a _ _ _ Hv1 H) as (Hv2 & Hb2 & Hp2).
  split; [exact Hv2 | split; [congruence | lia]].
Qed.

Lemma forward_ReadBytes (n : Z) : 0 <= n -> forward (read (ReadBytes n)).
Proof.
  intros Hn r a r' Hv H. unfold read in H. inversion H as [E]; clear H.
  destruct (ReadBytes_spec n r) as [[Hle Hs] | [Hlt Hs]].
  - rewrite E in Hs; simpl in Hs; subst r'. unfold valid, Len in *; simpl.
    repeat split; try reflexivity; lia.
  - rewrite Hs in E; inversion E; subst. repeat split; solve [apply Hv | lia].
Qed.

Lemma forward_ReadUint (n : Z) : 0 <= n -> forward (read (ReadUint n)).
Proof.
  intros Hn r a r' Hv H. unfold read, ReadUint in H.
  destruct (ReadBytes n r) as [bs r1] eqn:E. inversion H; subst.
  apply (forward_ReadBytes n Hn r bs r' Hv). unfold read. now rewrite E.
Qed.

Lemma forward_ReadUint16 : forward (read ReadUint16).
Proof. apply forward_ReadUint. lia. Qed.

Lemma forward_ReadInt16 : forward (read ReadInt16).
Proof.
  intros r a r' Hv H. unfold read, ReadInt16 in H.
  destruct (ReadUint 2 r) as [v r1] eqn:E. inversion H; subst.
  apply (forward_ReadUint 2 ltac:(lia) r v r' Hv). unfold read. now rewrite E.
Qed.

Lemma forward_ReadInt8 : forward (read ReadInt8).
Proof.
  intros r a r' Hv H. unfold read, ReadInt8 in H.
  destruct (ReadUint 1 r) as [v r1] eqn:E. inversion H; subst.
  apply (forward_ReadUint 1 ltac:(lia) r v r' Hv). unfold read. now rewrite E.
Qed.

End Reader.

Create HintDb forward.

#[local] Hint Resolve forward_pret forward_fail forward_lift forward_rLen
  forward_ReadUint16 forward_ReadInt16 forward_ReadInt8 : forward.

(** Splits a decoder into its steps, each of which moves forward. *)
Ltac forward_steps :=
  repeat first
    [ apply forward_pbind; [ | intros ? ]
    | match goal with |- forward (if ?c then _ else _) => destruct c end
    | solve [ auto with forward ] ].

(** ** Composite glyphs: the component loop and the recursion *)

Section Composite.

Import binaryReader glyfTable.

(** A component record that is read takes at least four bytes. *)
Lemma readComponent_forward (glyphID : Z) (r : binaryReader.t) (c : component)
    (r' : binaryReader.t) :
  valid r -> readComponent glyphID r = Ok (c, r') ->
  valid r' /\ buf r' = buf r /\ pos r + 4 <= pos r'.
Proof.
  intros Hv H. unfold readComponent in H.
  unfold pbind at 1 in H. unfold rLen at 1 in H.
  destruct (Z.ltb_spec (Len r) 4) as [Hlt | Hge]; [discriminate |].
  unfold pbind at 1 in H. unfold read at 1, ReadUint16 at 1 in H.
  rewrite (ReadUint_enough 2 r ltac:(lia)) in H.
  unfold pbind at 1 in H. unfold read at 1, ReadUint16 at 1 in H.
  rewrite ReadUint_enough in H by (unfold Len in *; simpl; lia).
  simpl buf in H; simpl pos in H.
  match type of H with ?m ?r2 = _ =>
    assert (Hf : forward m); [ | destruct (Hf r2 c r' ltac:(unfold valid, Len in *; simpl; lia) H) as (Hv' & Hb & Hp) ]
  end.
  - forward_steps; apply forward_fail.
  - simpl in Hb, Hp. split; [exact Hv' | split; [exact Hb | lia]].
Qed.

Lemma ReadInt16_enough (r : binaryReader.t) :
  2 <= Len r ->
  ReadInt16 r
  = (int16 (be (take (Z.to_nat 2) (drop (Z.to_nat (pos r)) (buf r)))), binaryReader.mk (buf r) (pos r + 2)).
Proof. intros H. unfold ReadInt16. now rewrite ReadUint_enough. Qed.

(** After the header of a glyph of at least ten bytes the reader stands at
    byte 10. *)
Lemma readHeader_pos (b : list byte) :
  10 <= len b -> snd (readHeader (newBinaryReader b)) = binaryReader.mk b 10.
Proof.
  intros H. unfold readHeader, newBinaryReader.
  repeat (rewrite ReadInt16_enough by (unfold Len; simpl; lia); simpl buf; simpl pos).
  reflexivity.
Qed.

(** The component loop never uses up its turns. *)
Lemma components_finish (rec : Z -> option (result (option glyfContour.t))) (glyphID : Z) :
  (forall g, exists res, rec g = Some res) ->
  forall (k : nat) (contour : glyfContour.t) (r : binaryReader.t),
    valid r -> Len r < 4 * Z.of_nat k ->
    exists res, components k rec glyphID contour r = Some res.
Proof.
  intros Hrec k. induction k as [| k IH]; intros contour r Hv Hlen.
  - pose proof (Len_nonneg r Hv). lia.
  - cbn [components].
    destruct (readComponent glyphID r) as [[c r'] | e | p] eqn:E; eauto.
    destruct (readComponent_forward _ _ _ _ Hv E) as (Hv' & Hb & Hp).
    destruct (Hrec (subGlyphID c)) as [res Hres]. rewrite Hres.
    destruct res as [subContour | e | p]; eauto.
    destruct (addComponent contour c subContour) as [contour' | e | p]; eauto.
    destruct (Z.land (flags c) 32 =? 0); eauto.
    apply IH; [exact Hv' |]. unfold Len in *. rewrite Hb. lia.
Qed.

(** The component loop gives the same result with a recursive call that
    finishes more often. *)
Lemma components_mono (rec rec' : Z -> option (result (option glyfContour.t))) (glyphID : Z) :
  (forall g x, rec g = Some x -> rec' g = Some x) ->
  forall (k : nat) (contour : glyfContour.t) (r : binaryReader.t) res,
    components k rec glyphID contour r = Some res ->
    components k rec' glyphID contour r = Some res.
Proof.
  intros Hrec k. induction k as [| k IH]; intros contour r res H; [discriminate |].
  cbn [components] in *.
  destruct (readComponent glyphID r) as [[c r'] | e | p]; auto.
  destruct (rec (subGlyphID c)) as [x |] eqn:E; [| discriminate].
  rewrite (Hrec _ _ E).
  destruct x as [subContour | e | p]; auto.
  destruct (addComponent contour c subContour) as [contour' | e | p]; auto.
  destruct (Z.land (flags c) 32 =? 0); auto.
Qed.

(** [Contour] finishes within a budget of [9 - level] nested calls. *)
Lemma Contour_finishes (glyf : glyfTable.t) :
  forall (fuel : nat) (glyphID level : Z),
    (1 <= fuel)%nat -> 9 - level <= Z.of_nat fuel ->
    exists res, Contour fuel glyf glyphID level = Some res.
Proof.
  induction fuel as [| fuel IH]; intros glyphID level H1 H9; [lia |].
  cbn [Contour].
  destruct (Get glyf glyphID) as [[b |] | e | p]; eauto.
  destruct (len b =? 0); eauto.
  destruct (Z.ltb_spec (Len (newBinaryReader b)) 10) as [Hlt | Hge]; eauto.
  assert (Hb : 10 <= len b) by (unfold Len in Hge; simpl in Hge; lia).
  pose proof (readHeader_pos b Hb) as Hr.
  destruct (readHeader (newBinaryReader b)) as [[[[[nc x1] y1] x2] y2] r].
  simpl in Hr; subst r.
  destruct (0 <=? nc).
  - destruct (simpleGlyph glyphID nc x1 y1 x2 y2 (binaryReader.mk b 10)) as [[contour r'] | e | p]; eauto.
  - destruct (Z.ltb_spec 7 level) as [Hl | Hl]; eauto.
    destruct (components_finish (fun sub => Contour fuel glyf sub (level + 1)) glyphID
                ltac:(intros g; apply IH; lia) (List.length b)
                (glyfContour.mk glyphID x1 y1 x2 y2 [] [] [] [] []) (binaryReader.mk b 10)) as [res Hres].
    + unfold valid; simpl. lia.
    + unfold Len, len in *; simpl. lia.
    + rewrite Hres. destruct res; eauto.
Qed.

(** A larger budget does not change a result. *)
Lemma Contour_mono (glyf : glyfTable.t) :
  forall (fuel fuel' : nat) (glyphID level : Z) res,
    (fuel <= fuel')%nat ->
    Contour fuel glyf glyphID level = Some res -> Contour fuel' glyf glyphID level = Some res.
Proof.
  induction fuel as [| fuel IH]; intros fuel' glyphID level res Hle H; [discriminate |].
  destruct fuel' as [| fuel']; [lia |].
  cbn [Contour] in *.
  destruct (Get glyf glyphID) as [[b |] | e | p]; auto.
  destruct (len b =? 0); auto.
  destruct (Len (newBinaryReader b) <? 10); auto.
  destruct (readHeader (newBinaryReader b)) as [[[[[nc x1] y1] x2] y2] r].
  destruct (0 <=? nc); auto.
  destruct (7 <? level); auto.
  destruct (components (List.length b) (fun sub => Contour fuel glyf sub (level + 1)) glyphID
              (glyfContour.mk glyphID x1 y1 x2 y2 [] [] [] [] []) r) as [x |] eqn:E;
    [| discriminate].
  rewrite (components_mono _ (fun sub => Contour fuel' glyf sub (level + 1)) glyphID
             ltac:(intros g y Hy; apply (IH fuel' g (level + 1) y); [lia | exact Hy]) _ _ _ _ E).
  exact H.
Qed.

(** A larger budget does not change a result, and a budget of [9 - level]
    nested calls gives the result of any other. *)
Lemma Contour_stable (glyf : glyfTable.t) (fuel fuel' : nat) (glyphID level : Z) res :
  (1 <= fuel')%nat -> 9 - level <= Z.of_nat fuel' ->
  Contour fuel glyf glyphID level = Some res -> Contour fuel' glyf glyphID level = Some res.
Proof.
  intros H1 H9 H.
  destruct (Nat.le_gt_cases fuel fuel') as [Hle | Hgt].
  - now apply (Contour_mono glyf fuel fuel').
  - destruct (Contour_finishes glyf fuel' glyphID level H1 H9) as [y Hy].
    pose proof (Contour_mono glyf fuel' fuel glyphID level y ltac:(lia) Hy) as Hy'.
    congruence.
Qed.

(** The component loop of a composite glyph starts on a reader inside the
    glyph's data, with more turns than it can use. *)
Lemma compositeStart_reader (glyf : glyfTable.t) (glyphID : Z) (k : nat)
    (contour : glyfContour.t) (r : binaryReader.t) :
  compositeStart glyf glyphID = Some (k, contour, r) ->
  valid r /\ Len r < 4 * Z.of_nat k.
Proof.
  unfold compositeStart.
  destruct (Get glyf glyphID) as [[b |] | e | p]; try discriminate.
  destruct (Z.eqb_spec (len b) 0) as [E0 | E0]; [discriminate |].
  simpl orb.
  destruct (Z.ltb_spec (Len (newBinaryReader b)) 10) as [Hlt | Hge]; [discriminate |].
  assert (Hb : 10 <= len b) by (unfold Len in Hge; simpl in Hge; lia).
  pose proof (readHeader_pos b Hb) as Hr.
  destruct (readHeader (newBinaryReader b)) as [[[[[nc x1] y1] x2] y2] r0].
  simpl in Hr; subst r0.
  destruct (0 <=? nc); [discriminate |].
  intros H; inversion H; subst.
  unfold valid, Len, len in *; simpl. lia.
Qed.

(** [Contour] on a composite glyph. *)
Lemma Contour_composite (glyf : glyfTable.t) (fuel : nat) (glyphID level : Z) (k : nat)
    (contour : glyfContour.t) (r : binaryReader.t) :
  compositeStart glyf glyphID = Some (k, contour, r) ->
  Contour (S fuel) glyf glyphID level
  = if 7 <? level then Some (Err tooDeeplyNested)
    else match components k (fun sub => Contour fuel glyf sub (level + 1))
                 glyphID contour r with
         | None => None
         | Some (Ok c) => Some (Ok (Some c))
         | Some (Err e) => Some (Err e)
         | Some (Panic p) => Some (Panic p)
         end.
Proof.
  intros H. unfold compositeStart in H. cbn [Contour].
  destruct (Get glyf glyphID) as [[b |] | e | p]; try discriminate.
  destruct (len b =? 0); [discriminate |].
  simpl orb in H.
  destruct (Len (newBinaryReader b) <? 10); [discriminate |].
  destruct (readHeader (newBinaryReader b)) as [[[[[nc x1] y1] x2] y2] r0].
  destruct (0 <=? nc); [discriminate |].
  inversion H; subst. reflexivity.
Qed.

(** The turns of the loop that go on to the next one do so with a recursive
    call that finishes more often. *)
Lemma componentsBefore_mono (rec rec' : Z -> option (result (option glyfContour.t)))
    (glyphID : Z) :
  (forall g x, rec g = Some x -> rec' g = Some x) ->
  forall (n : nat) (contour : glyfContour.t) (r : binaryReader.t) p,
    componentsBefore n rec glyphID contour r = Some p ->
    componentsBefore n rec' glyphID contour r = Some p.
Proof.
  intros Hrec n. induction n as [| n IH]; intros contour r p H; [exact H |].
  cbn [componentsBefore] in *.
  destruct (readComponent glyphID r) as [[c r'] | e | q]; try discriminate.
  destruct (rec (subGlyphID c)) as [x |] eqn:E; [| discriminate].
  rewrite (Hrec _ _ E).
  destruct x as [subContour | e | q]; try discriminate.
  destruct (addComponent contour c subContour) as [contour' | e | q]; try discriminate.
  destruct (Z.land (flags c) 32 =? 0); [discriminate |].
  now apply IH.
Qed.

(** The error of the recursive call of turn [n] is the error of the loop. *)
Lemma components_stopped (rec : Z -> option (result (option glyfContour.t)))
    (glyphID : Z) (e : error) :
  forall (n k : nat) (contour : glyfContour.t) (r : binaryReader.t)
         (contour' : glyfContour.t) (r' : binaryReader.t) (c : component)
         (r'' : binaryReader.t),
    valid r -> Len r < 4 * Z.of_nat k ->
    componentsBefore n rec glyphID contour r = Some (contour', r') ->
    readComponent glyphID r' = Ok (c, r'') ->
    rec (subGlyphID c) = Some (Err e) ->
    components k rec glyphID contour r = Some (Err e).
Proof.
  induction n as [| n IH]; intros k contour r contour' r' c r'' Hv Hlen Hb Hc He;
    (destruct k as [| k]; [pose proof (Len_nonneg r Hv); lia |]);
    cbn [componentsBefore] in Hb; cbn [components].
  - inversion Hb; subst. now rewrite Hc, He.
  - destruct (readComponent glyphID r) as [[c1 r1] | e1 | p1] eqn:E1; try discriminate.
    destruct (readComponent_forward _ _ _ _ Hv E1) as (Hv1 & Hb1 & Hp1).
    destruct (rec (subGlyphID c1)) as [[subContour | e1 | p1] |]; try discriminate.
    destruct (addComponent contour c1 subContour) as [contour1 | e1 | p1]; try discriminate.
    destruct (Z.land (flags c1) 32 =? 0); [discriminate |].
    apply (IH k contour1 r1 contour' r' c r''); auto.
    unfold Len in *. rewrite Hb1. lia.
Qed.

(** A chain of recursive calls that reaches a composite glyph at level 8 or
    deeper ends in the error of the depth cap, whatever the turns of the
    calls. *)
Lemma Contour_chain (glyf : glyfTable.t) (fuel0 : nat) :
  forall (path : list nat) (fuel : nat) (glyphID level last : Z),
    (1 <= fuel)%nat -> 9 - level <= Z.of_nat fuel ->
    descend fuel0 glyf glyphID level path = Some last ->
    isComposite glyf last = true ->
    8 <= level + Z.of_nat (List.length path) ->
    Contour fuel glyf glyphID level = Some (Err tooDeeplyNested).
Proof.
  induction path as [| n path IH]; intros fuel glyphID level last H1 H9 Hd Hc H8;
    (destruct fuel as [| fuel]; [lia |]); cbn [descend] in Hd.
  - inversion Hd; subst last. unfold isComposite in Hc.
    destruct (compositeStart glyf glyphID) as [[[k contour] r] |] eqn:E; [| discriminate].
    rewrite (Contour_composite glyf fuel glyphID level k contour r E).
    destruct (Z.ltb_spec 7 level) as [Hl | Hl]; [reflexivity | simpl in H8; lia].
  - destruct (componentAt fuel0 glyf glyphID level n) as [sub |] eqn:Ea; [| discriminate].
    unfold componentAt in Ea.
    destruct (compositeStart glyf glyphID) as [[[k contour] r] |] eqn:E; [| discriminate].
    rewrite (Contour_composite glyf fuel glyphID level k contour r E).
    destruct (Z.ltb_spec 7 level) as [Hl | Hl]; [reflexivity |].
    destruct (compositeStart_reader glyf glyphID k contour r E) as [Hv Hlen].
    destruct (componentsBefore n (fun sub => Contour fuel0 glyf sub (level + 1))
                glyphID contour r) as [[contour' r'] |] eqn:Eb; [| discriminate].
    destruct (readComponent glyphID r') as [[c r''] | e | p] eqn:Er; try discriminate.
    inversion Ea; subst sub.
    apply (componentsBefore_mono _ (fun sub => Contour fuel glyf sub (level + 1))) in Eb.
    + rewrite (components_stopped _ glyphID tooDeeplyNested n k contour r contour' r' c r''
                 Hv Hlen Eb Er); [reflexivity |].
      apply (IH fuel (subGlyphID c) (level + 1) last); auto; [lia | lia |].
      cbn [List.length] in H8. lia.
    + intros g x Hx. apply (Contour_stable glyf fuel0 fuel g (level + 1) x); auto; lia.
Qed.

(** A loop that ends with a contour has resolved every sub-glyph that the
    component records name. *)
Lemma components_resolved (rec : Z -> option (result (option glyfContour.t)))
    (glyphID : Z) :
  forall (k : nat) (contour : glyfContour.t) (r : binaryReader.t)
         (contour' : glyfContour.t),
    components k rec glyphID contour r = Some (Ok contour') ->
    forall sub : Z, In sub (subGlyphIDs k glyphID r) ->
      exists x, rec sub = Some (Ok x).
Proof.
  induction k as [| k IH]; intros contour r contour' H sub Hin; [discriminate |].
  cbn [components] in H. cbn [subGlyphIDs] in Hin.
  destruct (readComponent glyphID r) as [[c r'] | e | p]; try discriminate.
  destruct (rec (subGlyphID c)) as [[subContour | e | p] |] eqn:E; try discriminate.
  destruct (addComponent contour c subContour) as [contour1 | e | p]; try discriminate.
  destruct Hin as [<- | Hin]; [eauto |].
  destruct (Z.land (flags c) 32 =? 0); [destruct Hin |].
  apply (IH contour1 r' contour' H sub Hin).
Qed.

(** An outline of a glyph needs an outline of each glyph that its component
    records name, one level below and with one nested call less. *)
Lemma Contour_component (glyf : glyfTable.t) (fuel : nat) (glyphID level sub : Z) x :
  Contour (S fuel) glyf glyphID level = Some (Ok x) ->
  In sub (componentIDs glyf glyphID) ->
  exists y, Contour fuel glyf sub (level + 1) = Some (Ok y).
Proof.
  intros H Hin. unfold componentIDs in Hin.
  destruct (compositeStart glyf glyphID) as [[[k contour] r] |] eqn:E; [| destruct Hin].
  rewrite (Contour_composite glyf fuel glyphID level k contour r E) in H.
  destruct (7 <? level); [discriminate |].
  destruct (components k (fun sub => Contour fuel glyf sub (level + 1)) glyphID contour r)
    as [[contour' | e | p] |] eqn:Ec; try discriminate.
  apply (components_resolved _ glyphID k contour r contour' Ec sub Hin).
Qed.

Lemma refers_component (glyf : glyfTable.t) (glyphID sub : Z) :
  refers glyf glyphID [sub] = true <-> In sub (componentIDs glyf glyphID).
Proof.
  cbn [refers]. rewrite andb_true_r, existsb_exists. split.
  - intros (x & Hin & Hx). apply Z.eqb_eq in Hx. now subst x.
  - intros Hin. exists sub. split; [exact Hin | apply Z.eqb_refl].
Qed.

Lemma last_default {A : Type} (l : list A) (a d d' : A) :
  List.last (a :: l) d = List.last (a :: l) d'.
Proof.
  revert a. induction l as [| b l IH]; intros a; [reflexivity |].
  change (List.last (b :: l) d = List.last (b :: l) d'). apply IH.
Qed.

(** A chain of references goes on from its last glyph. *)
Lemma refers_app (glyf : glyfTable.t) :
  forall (path path' : list Z) (glyphID : Z),
    refers glyf glyphID (path ++ path')
    = refers glyf glyphID path && refers glyf (List.last path glyphID) path'.
Proof.
  induction path as [| sub path IH]; intros path' glyphID; [reflexivity |].
  cbn [app refers]. rewrite IH, andb_assoc.
  destruct path as [| sub' path]; [reflexivity |].
  now rewrite (last_default path sub' sub glyphID).
Qed.

(** A glyph that references itself never gets an outline: the outline would
    need one more nested call than any budget has. *)
Lemma Contour_cycle (glyf : glyfTable.t) :
  forall (fuel : nat) (glyphID level : Z) (path : list Z),
    refers glyf glyphID (path ++ [glyphID]) = true ->
    forall x, Contour fuel glyf glyphID level <> Some (Ok x).
Proof.
  induction fuel as [| fuel IH]; intros glyphID level path Hp x H; [discriminate |].
  destruct path as [| sub path].
  - apply refers_component in Hp.
    destruct (Contour_component glyf fuel glyphID level glyphID x H Hp) as [y Hy].
    apply (IH glyphID (level + 1) [] ltac:(now apply refers_component) y Hy).
  - cbn [app refers] in Hp. apply andb_true_iff in Hp. destruct Hp as [Hs Hp].
    assert (Hin : In sub (componentIDs glyf glyphID)).
    { apply refers_component. cbn [refers]. now rewrite Hs. }
    destruct (Contour_component glyf fuel glyphID level sub x H Hin) as [y Hy].
    refine (IH sub (level + 1) (path ++ [glyphID]) _ y Hy).
    rewrite refers_app, Hp, List.last_last. cbn [andb refers].
    now rewrite Hs.
Qed.

End Composite.

(** ** Glyph outlines *)

(** C1.  The claim: for every successfully parsed font and every glyph ID,
    resolving the glyph outline returns contour data, no outline or a decode
    error and never panics, in particular while expanding the
    run-length-encoded flags of a simple glyph.  The code does not keep it:
    the example file is parsed successfully, and the outline of its glyph 2,
    whose flag byte is to be repeated past the last point, ends in an
    index-out-of-range panic at [flags[i+j] = flags[i]]; the outline of its
    glyph 4, a composite glyph with a component without outline, ends in a
    nil-pointer panic at [subContour.EndPoints]. *)
Theorem C1_GlyphContour_panics (macintoshGlyphNames : list string) :
  exists sfnt : SFNT.t,
    snd (ParseSFNT macintoshGlyphNames demoFont) = Ok sfnt
    /\ SFNT.Glyf sfnt = Some demoGlyfTable
    /\ (forall fuel : nat,
          SFNT.GlyphContour (S fuel) sfnt 2 = Some (Panic IndexOutOfRange))
    /\ (forall fuel : nat,
          SFNT.GlyphContour (S (S fuel)) sfnt 4 = Some (Panic NilPointerDereference)).
Proof.
  eexists. split; [vm_compute; reflexivity |].
  split; [vm_compute; reflexivity |].
  split; intros fuel; vm_compute; reflexivity.
Qed.




(** ** cmap *)

(** C2.  The claim: for every format-4 subtable that decodes successfully
    and every code point of a segment with a nonzero idRangeOffset, the index
    computed by [cmapFormat4.Get] lies within the glyph index array.  The
    code does not keep it: the decoder checks the index of the end code
    only.  The subtable of [cmapRangeOffsetInside] decodes, the lookup of
    the end code 0x42 reads entry 0, and the lookup of the start code 0x41
    computes the index 1 + 0 - 2 = -1 and panics. *)
Theorem C2_format4_index_below_array (macintoshGlyphNames : list string) :
  exists sfnt : SFNT.t,
    snd (ParseSFNT macintoshGlyphNames fontRangeOffsetInside) = Ok sfnt
    /\ SFNT.Cmap sfnt
       = Some (cmapTable.mk [mkEncodingRecord 3 1 4 0] [Format4 subtableRangeOffsetInside])
    /\ SFNT.parseCmap (decoding 0 5 {[ "cmap" := cmapRangeOffsetInside ]})
       = Ok (SFNT.set_Cmap
               (cmapTable.mk [mkEncodingRecord 3 1 4 0] [Format4 subtableRangeOffsetInside])
               (decoding 0 5 {[ "cmap" := cmapRangeOffsetInside ]}))
    /\ cmapFormat4.Get subtableRangeOffsetInside 0x42 = Ok (1, true)
    /\ cmapFormat4.Get subtableRangeOffsetInside 0x41 = Panic IndexOutOfRange
    /\ SFNT.GlyphIndex sfnt 0x41 = Panic IndexOutOfRange.
Proof.
  eexists. split; [vm_compute; reflexivity |].
  repeat apply conj; vm_compute; reflexivity.
Qed.

(** C3.  The claim: for every format-4 subtable that decodes successfully
    the end codes increase strictly and every lookup of a code point inside
    a segment gives a glyph ID below numGlyphs, also on the path with
    idRangeOffset 0.  The code does not keep the second part: glyph IDs made
    of idDelta are never compared with numGlyphs.  The example file has five
    glyphs and is parsed successfully, and the lookup of 0x41 gives the
    glyph ID 0x41 + 29 = 94. *)
Theorem C3_format4_delta_glyph_unchecked (macintoshGlyphNames : list string) :
  exists sfnt : SFNT.t,
    snd (ParseSFNT macintoshGlyphNames demoFont) = Ok sfnt
    /\ SFNT.NumGlyphs sfnt = Ok 5
    /\ SFNT.Cmap sfnt
       = Some (cmapTable.mk [mkEncodingRecord 3 1 4 0] [Format4 subtableTwoSegments])
    /\ cmapFormat4.Get subtableTwoSegments 0x41 = Ok (94, true)
    /\ SFNT.GlyphIndex sfnt 0x41 = Ok 94.
Proof.
  eexists. split; [vm_compute; reflexivity |].
  repeat apply conj; vm_compute; reflexivity.
Qed.

(** C5.  The claim: when [parseCmap] succeeds, two decoded subtables that
    are not the same (offset, length) pair have disjoint byte ranges.  The
    code does not keep it: the check for a subtable that starts inside an
    earlier one compares its offset with the length of the earlier one, not
    with its end.  [parseCmap] accepts [cmapOverlapping] and ends with the
    header range [0, 20) and the subtable ranges [20, 42) and [28, 44), which
    share the bytes 28 to 41; both subtables are decoded. *)
Theorem C5_parseCmap_accepts_overlap (macintoshGlyphNames : list string) :
  exists (st : SFNT.cmapState) (sfnt : SFNT.t),
    SFNT.parseCmap_state (decoding 0 5 {[ "cmap" := cmapOverlapping ]}) = Ok st
    /\ SFNT.offsets st = [0; 20; 28]
    /\ SFNT.lengths st = [20; 22; 16]
    /\ cmapTable.Subtables (SFNT.cmap st)
       = [Format6 (cmapFormat6.mk 0x41 [16; 0; 0x61; 3; 7; 8]);
          Format6 (cmapFormat6.mk 0x61 [7; 8; 9])]
    /\ snd (ParseSFNT macintoshGlyphNames fontOverlapping) = Ok sfnt
    /\ SFNT.Cmap sfnt = Some (SFNT.cmap st).
Proof.
  eexists. eexists. split; [vm_compute; reflexivity |].
  split; [vm_compute; reflexivity |].
  split; [vm_compute; reflexivity |].
  split; [vm_compute; reflexivity |].
  split; [vm_compute; reflexivity |].
  vm_compute; reflexivity.
Qed.

(** C9, as the code has it.  For the format-4 subtable decoded from
    [cmapTwoSegments], with the segments (0x41, 0x41, idDelta 29, 0) and
    (0x42, 0x42, idDelta 29, 0), whatever the number of glyphs: the lookup
    of 0x41 gives the glyph ID (0x41 + 29) mod 65536 = 94, and the lookup of
    0x43 finds no segment, so that the lookup in the table gives 0. *)
Theorem C9_two_segments_lookup (numGlyphs : Z) :
  exists sfnt : SFNT.t,
    SFNT.parseCmap (decoding 0 numGlyphs {[ "cmap" := cmapTwoSegments ]}) = Ok sfnt
    /\ SFNT.Cmap sfnt
       = Some (cmapTable.mk [mkEncodingRecord 3 1 4 0] [Format4 subtableTwoSegments])
    /\ cmapFormat4.Get subtableTwoSegments 0x41 = Ok (94, true)
    /\ cmapFormat4.Get subtableTwoSegments 0x43 = Ok (0, false)
    /\ SFNT.GlyphIndex sfnt 0x41 = Ok 94
    /\ SFNT.GlyphIndex sfnt 0x43 = Ok 0.
Proof.
  eexists. split; [vm_compute; reflexivity |].
  repeat apply conj; vm_compute; reflexivity.
Qed.

(** C9, as the spec has it, fails: the lookup of 0x41 in the subtable with
    these two segments does not give the glyph ID 30. *)
Lemma C9_counterexample : cmapFormat4.Get subtableTwoSegments 0x41 <> Ok (30, true).
Proof. vm_compute. discriminate. Qed.

(** ** The table directory *)

(** C4.  The claim: after [ParseSFNT] returns, with or without an error,
    the buffer holds its original contents.  The code does not keep it on
    one path: when the checksum of the head table does not match, it returns
    between zeroing the checksum adjustment and restoring it.  For the file
    [headBadChecksumFile] the call returns the checksum error and leaves the
    four bytes at offset 36 zeroed. *)
Theorem C4_ParseSFNT_leaves_head_zeroed (macintoshGlyphNames : list string) :
  ParseSFNT macintoshGlyphNames headBadChecksumFile
  = (headBadChecksumFile_zeroed, Err (Errorf "%s: bad checksum" [ArgStr "head"]))
  /\ headBadChecksumFile_zeroed <> headBadChecksumFile
  /\ take 4 (drop 36 headBadChecksumFile) = [x12; x34; x56; x78]
  /\ take 4 (drop 36 headBadChecksumFile_zeroed) = [x00; x00; x00; x00].
Proof.
  split; [vm_compute; reflexivity |].
  split; [| split; vm_compute; reflexivity].
  intros H. apply (f_equal (fun b => nth 36 b x00)) in H. vm_compute in H. discriminate.
Qed.

(** ** loca and glyf *)

(** C6.  The claim: a font is parsed successfully only with numGlyphs+1
    non-decreasing loca offsets that end at the length of glyf, and an input
    that violates this is rejected by [parseLoca] or [parseGlyf].  The code
    does not keep the second part for a font of 65535 glyphs: numGlyphs+1
    is computed in 16 bits and wraps to 0, so [parseLoca] allocates and
    checks no offset at all and accepts a table whose offsets decrease, and
    [parseGlyf] then indexes the empty sequence at -1 and panics instead of
    returning an error. *)
Theorem C6_parseLoca_65535_glyphs (macintoshGlyphNames : list string) :
  (sfnt <- SFNT.parseLoca decodingOf65535Glyphs ;; Ok (SFNT.Loca sfnt))
  = Ok (Some (locaTable.mk []))
  /\ (sfnt <- SFNT.parseLoca decodingOf65535Glyphs ;; SFNT.parseGlyf sfnt)
     = Panic IndexOutOfRange
  /\ snd (ParseSFNT macintoshGlyphNames fontOf65535Glyphs) = Panic IndexOutOfRange.
Proof. repeat apply conj; vm_compute; reflexivity. Qed.

(** ** kern *)

(** C8.  The claim: for every successfully parsed font the kerning lookup
    never fails or panics, also for a font without kern table.  The code
    does not keep it for such a font: [ParseSFNT] leaves [sfnt.Kern] nil when
    the file has no kern table, as the example file, and [Kerning] then
    reads [kern.Subtables] through the nil pointer. *)
Theorem C8_Kerning_panics_without_kern (macintoshGlyphNames : list string) :
  exists sfnt : SFNT.t,
    snd (ParseSFNT macintoshGlyphNames demoFont) = Ok sfnt
    /\ SFNT.Tables sfnt !! "kern" = None
    /\ SFNT.Kern sfnt = None
    /\ (forall left right : Z, SFNT.Kerning sfnt left right = Panic NilPointerDereference).
Proof.
  eexists. split; [vm_compute; reflexivity |].
  split; [vm_compute; reflexivity |].
  split; [vm_compute; reflexivity |].
  intros left right. vm_compute. reflexivity.
Qed.

(** ** post *)

(** C10.  The claim: [parsePost] on a table of version 2.0 either returns
    an error or names every glyph without an out-of-bounds access; a name
    index equal to 258 plus the number of strings is rejected.  The code
    does not keep it: it rejects an index only when the number of strings is
    less than the index minus 258.  With no string at all the index 258 is
    used as [stringData[0]] and the call panics. *)
Theorem C10_parsePost_index_past_pool (macintoshGlyphNames : list string) :
  SFNT.parsePost macintoshGlyphNames (decoding 0 5 {[ "post" := postIndexPastPool ]})
  = Panic IndexOutOfRange
  /\ snd (ParseSFNT macintoshGlyphNames fontIndexPastPool) = Panic IndexOutOfRange.
Proof. split; vm_compute; reflexivity. Qed.

(** ** Kerning with a kern table *)

Section Kern.

Lemma index_in_range {A : Type} (s : list A) (i : Z) :
  0 <= i < len s -> exists x, index s i = Ok x /\ s !! Z.to_nat i = Some x.
Proof.
  intros H. unfold index, len in *.
  destruct (Z.ltb_spec i 0); [lia |].
  destruct (s !! Z.to_nat i) as [x |] eqn:E; [eauto |].
  apply lookup_ge_None in E. lia.
Qed.

(** The binary search stays inside the pairs and so always returns. *)
Lemma search_total (pairs : list kernFormat0.kernPair) (key : Z) :
  forall (k : nat) (lo hi : Z), 0 <= lo -> hi <= len pairs ->
    exists v, kernFormat0.search pairs key k lo hi = Ok v.
Proof.
  induction k as [| k IH]; intros lo hi Hlo Hhi; cbn [kernFormat0.search]; [eauto |].
  destruct (Z.ltb_spec lo hi) as [Hlt | Hge]; [| eauto].
  assert (Hmid : lo <= (lo + hi) / 2 < hi) by (split; [apply Z.div_le_lower_bound | apply Z.div_lt_upper_bound]; lia).
  destruct (index_in_range pairs ((lo + hi) / 2) ltac:(lia)) as (pair & -> & _).
  cbn [bind].
  destruct (kernFormat0.Key pair <? key); [apply IH; lia |].
  destruct (key <? kernFormat0.Key pair); [apply IH; lia | eauto].
Qed.

(** It returns zero when no pair has the key. *)
Lemma search_absent (pairs : list kernFormat0.kernPair) (key : Z) :
  (forall pair, In pair pairs -> kernFormat0.Key pair <> key) ->
  forall (k : nat) (lo hi : Z), 0 <= lo -> hi <= len pairs ->
    kernFormat0.search pairs key k lo hi = Ok 0.
Proof.
  intros Habs. induction k as [| k IH]; intros lo hi Hlo Hhi; cbn [kernFormat0.search]; [easy |].
  destruct (Z.ltb_spec lo hi) as [Hlt | Hge]; [| easy].
  assert (Hmid : lo <= (lo + hi) / 2 < hi) by (split; [apply Z.div_le_lower_bound | apply Z.div_lt_upper_bound]; lia).
  destruct (index_in_range pairs ((lo + hi) / 2) ltac:(lia)) as (pair & -> & Hin).
  cbn [bind].
  destruct (Z.ltb_spec (kernFormat0.Key pair) key); [apply IH; lia |].
  destruct (Z.ltb_spec key (kernFormat0.Key pair)); [apply IH; lia |].
  exfalso. apply (Habs pair); [| lia].
  apply list_elem_of_In. apply list_elem_of_lookup. eauto.
Qed.

Lemma Get_in_total (l r : Z) :
  forall (subtables : list kernFormat0.t) (k : Z),
    exists v, kernTable.Get_in subtables l r k = Ok v.
Proof.
  induction subtables as [| subtable rest IH]; intros k; cbn [kernTable.Get_in]; [eauto |].
  unfold kernFormat0.Get.
  destruct (search_total (kernFormat0.Pairs subtable) (Z.lor (uint32 (Z.shiftl l 16)) r)
              (length (kernFormat0.Pairs subtable)) 0 (len (kernFormat0.Pairs subtable))
              ltac:(lia) ltac:(lia)) as [v ->].
  cbn [bind].
  destruct (negb (nth 1 (kernFormat0.Coverage subtable) false)); [apply IH |].
  destruct (k <? v); apply IH.
Qed.

Lemma Get_in_absent (l r : Z) :
  forall subtables : list kernFormat0.t,
    (forall subtable pair, In subtable subtables -> In pair (kernFormat0.Pairs subtable) ->
       kernFormat0.Key pair <> Z.lor (uint32 (Z.shiftl l 16)) r) ->
    kernTable.Get_in subtables l r 0 = Ok 0.
Proof.
  induction subtables as [| subtable rest IH]; intros Habs; cbn [kernTable.Get_in]; [easy |].
  unfold kernFormat0.Get.
  rewrite (search_absent (kernFormat0.Pairs subtable) (Z.lor (uint32 (Z.shiftl l 16)) r)
             ltac:(intros pair Hp; apply (Habs subtable pair); [left; reflexivity | exact Hp])
             (length (kernFormat0.Pairs subtable)) 0 (len (kernFormat0.Pairs subtable))
             ltac:(lia) ltac:(lia)).
  cbn [bind].
  assert (Hrest : kernTable.Get_in rest l r 0 = Ok 0)
    by (apply IH; intros s p Hs Hp; apply (Habs s p); [right; exact Hs | exact Hp]).
  destruct (negb (nth 1 (kernFormat0.Coverage subtable) false)); [exact Hrest |].
  destruct (0 <? 0); exact Hrest.
Qed.

End Kern.

(** X1.  For a font that has a kern table, the kerning lookup is total: it
    returns an adjustment for any two glyph IDs, and the adjustment is
    exactly zero when no subtable holds the pair (left, right), whose key is
    [left << 16 | right]. *)
Theorem Kerning_total_with_kern (sfnt : SFNT.t) (kern : kernTable.t) (left right : Z) :
  SFNT.Kern sfnt = Some kern ->
  (exists k : Z, SFNT.Kerning sfnt left right = Ok k)
  /\ ((forall subtable pair,
         In subtable (kernTable.Subtables kern) -> In pair (kernFormat0.Pairs subtable) ->
         kernFormat0.Key pair <> Z.lor (uint32 (Z.shiftl left 16)) right) ->
      SFNT.Kerning sfnt left right = Ok 0).
Proof.
  intros HK. unfold SFNT.Kerning, kernTable.Get. rewrite HK. cbn [deref bind]. split.
  - apply Get_in_total.
  - apply Get_in_absent.
Qed.

(** The table [demoKern] is decoded; the pair (1, 2) has its adjustment, and
    the pair (2, 1), held by no subtable, has the adjustment zero. *)
Lemma Kerning_total_with_kern_witness :
  exists sfnt : SFNT.t,
    SFNT.parseKern (decoding 0 5 {[ "kern" := demoKern ]}) = Ok sfnt
    /\ SFNT.Kerning sfnt 1 2 = Ok (-50)
    /\ SFNT.Kerning sfnt 2 1 = Ok 0.
Proof.
  eexists. split; [vm_compute; reflexivity |].
  split; [vm_compute; reflexivity |].
  eapply (Kerning_total_with_kern _ _ 2 1); [vm_compute; reflexivity |].
  intros subtable pair [<- | []] [<- | []]. vm_compute. discriminate.
Defined.

(** ** The loca offsets of a parsed font *)

Section Loca.

(** An invariant of the loop body holds when the loop ends. *)
Lemma forRange_invariant {St : Type} (I : Z -> St -> Prop) (body : Z -> St -> parser St) :
  forall (n : nat) (i : Z) (s : St) (r : binaryReader.t) (s' : St) (r' : binaryReader.t),
    I i s ->
    (forall j t rj t' rj', i <= j < i + Z.of_nat n -> I j t ->
       body j t rj = Ok (t', rj') -> I (j + 1) t') ->
    forRange n i body s r = Ok (s', r') ->
    I (i + Z.of_nat n) s'.
Proof.
  induction n as [| n IH]; intros i s r s' r' Hi Hstep H.
  - cbn in H. inversion H; subst. now replace (i + Z.of_nat 0) with i by lia.
  - cbn [forRange] in H. unfold pbind in H.
    destruct (body i s r) as [[t rt] | |] eqn:E; try discriminate.
    replace (i + Z.of_nat (S n)) with ((i + 1) + Z.of_nat n) by lia.
    apply (IH (i + 1) t rt s' r').
    + apply (Hstep i s r t rt); [lia | exact Hi | exact E].
    + intros j u rj u' rj' Hj. apply Hstep. lia.
    + exact H.
Qed.

Lemma store_ok {A : Type} (s : list A) (i : Z) (v : A) (s' : list A) :
  store s i v = Ok s' -> 0 <= i < len s /\ s' = <[Z.to_nat i := v]> s.
Proof.
  unfold store. destruct (Z.ltb_spec i 0) as [Hn | Hn]; [discriminate |].
  destruct (Z.leb_spec (len s) i) as [Hl | Hl]; [discriminate |].
  simpl. intros E; inversion E. split; [lia | reflexivity].
Qed.

Lemma index_ok {A : Type} (s : list A) (i : Z) (x : A) :
  index s i = Ok x -> 0 <= i /\ s !! Z.to_nat i = Some x.
Proof.
  unfold index. destruct (Z.ltb_spec i 0) as [Hn | Hn]; [discriminate |].
  destruct (s !! Z.to_nat i); [| discriminate].
  intros E; inversion E. split; [lia | reflexivity].
Qed.

(** The loop of [parseLoca] ends with as many offsets as it started with,
    none of them less than the one before. *)
Lemma readOffsets_sorted (readOffset : binaryReader.t -> Z * binaryReader.t)
    (count : Z) (offsets : list Z) (r : binaryReader.t) (offsets' : list Z)
    (r' : binaryReader.t) :
  0 <= count ->
  SFNT.readOffsets readOffset count offsets r = Ok (offsets', r') ->
  length offsets' = length offsets /\ sortedBelow count offsets'.
Proof.
  intros Hc H. unfold SFNT.readOffsets in H.
  apply (forRange_invariant
           (fun j t => length t = length offsets /\ sortedBelow j t)) in H.
  - now replace (0 + Z.of_nat (Z.to_nat count)) with count in H by lia.
  - split; [reflexivity |]. intros a x y Ha. lia.
  - clear H. intros j t rj t' rj' Hj [Hlen Hs] H.
    unfold pbind, read in H.
    destruct (readOffset rj) as [v r1].
    unfold lift at 1 in H.
    destruct (store t j (uint32 v)) as [t1 | |] eqn:Est; try discriminate.
    destruct (store_ok _ _ _ _ Est) as [Hj1 ->].
    destruct (Z.ltb_spec 0 j) as [Hpos | Hzero].
    + unfold lift at 1 in H. cbn [bind] in H.
      destruct (index (<[Z.to_nat j:=uint32 v]> t) (j - 1)) as [prev | |] eqn:Ei;
        try discriminate.
      cbn [bind] in H.
      destruct (Z.ltb_spec (uint32 v) prev) as [Hbad | Hgood]; [discriminate |].
      inversion H; subst t' rj'. clear H.
      split; [now rewrite length_insert |].
      destruct (index_ok _ _ _ Ei) as [_ Hprev].
      intros a x y Ha Hx Hy.
      destruct (Z.eq_dec (Z.of_nat a + 1) j) as [Heq | Hne].
      * assert (Z.to_nat (j - 1) = a) by lia.
        assert (Z.to_nat j = S a) by lia.
        rewrite H in Hprev. rewrite Hx in Hprev. inversion Hprev; subst prev.
        rewrite H0 in Hy. rewrite list_lookup_insert_eq in Hy
          by (unfold len in Hj1; lia).
        inversion Hy; subst y. lia.
      * rewrite list_lookup_insert_ne in Hx by lia.
        rewrite list_lookup_insert_ne in Hy by lia.
        apply (Hs a x y); [lia | exact Hx | exact Hy].
    + unfold lift at 1 in H. cbn [bind] in H.
      inversion H; subst t' rj'. clear H.
      split; [now rewrite length_insert |].
      intros a x y Ha. lia.
Qed.

Lemma run_ok {A : Type} (m : parser A) (b : list byte) (a : A) :
  run m b = Ok a -> exists r', m (newBinaryReader b) = Ok (a, r').
Proof.
  unfold run. destruct (m (newBinaryReader b)) as [[a' r'] | |]; try discriminate.
  intros E; inversion E; subst. eauto.
Qed.

(** What a successful [parseLoca] leaves in the font. *)
Lemma parseLoca_ok (sfnt sfnt1 : SFNT.t) :
  SFNT.parseLoca sfnt = Ok sfnt1 ->
  exists (numGlyphs : Z) (offsets : list Z),
    SFNT.NumGlyphs sfnt = Ok numGlyphs
    /\ sfnt1 = SFNT.set_Loca (locaTable.mk offsets) sfnt
    /\ length offsets = Z.to_nat (uint16 (numGlyphs + 1))
    /\ sortedBelow (uint16 (numGlyphs + 1)) offsets.
Proof.
  unfold SFNT.parseLoca. intros H.
  destruct (SFNT.Tables sfnt !! "loca") as [b |]; [| discriminate].
  destruct (SFNT.NumGlyphs sfnt) as [numGlyphs | |]; try discriminate.
  cbn [bind] in H.
  destruct (SFNT.IndexToLocFormat sfnt) as [fmt | |]; try discriminate.
  cbn [bind] in H.
  assert (Hc : 0 <= uint16 (numGlyphs + 1)) by (unfold uint16; apply Z.mod_pos_bound; lia).
  match type of H with bind ?m _ = _ => destruct m as [offsets | |] eqn:E end;
    try discriminate.
  cbn [bind] in H. inversion H; subst sfnt1. clear H.
  exists numGlyphs, offsets. split; [reflexivity |]. split; [reflexivity |].
  assert (Hmake : length (make 0 (uint16 (numGlyphs + 1))) = Z.to_nat (uint16 (numGlyphs + 1)))
    by (unfold make; apply length_replicate).
  destruct (fmt =? 0).
  - destruct (negb _); [discriminate |].
    destruct (run_ok _ _ _ E) as [r' E'].
    destruct (readOffsets_sorted _ _ _ _ _ _ Hc E') as [Hl Hs].
    split; [congruence | exact Hs].
  - destruct (fmt =? 1).
    + destruct (negb _); [discriminate |].
      destruct (run_ok _ _ _ E) as [r' E'].
      destruct (readOffsets_sorted _ _ _ _ _ _ Hc E') as [Hl Hs].
      split; [congruence | exact Hs].
    + inversion E; subst offsets. split; [exact Hmake |].
      intros a x y _ Hx Hy. unfold make in *.
      apply lookup_replicate in Hx, Hy. lia.
Qed.

End Loca.

(** X2.  After [parseLoca] and [parseGlyf] have both succeeded, the loca
    offsets do not decrease from one glyph to the next and the last of them
    is the length of the glyf table; there are numGlyphs+1 of them for a
    glyph count that fits 16 bits, as every count read from maxp does. *)
Theorem loca_offsets_invariant (sfnt sfnt1 sfnt2 : SFNT.t) :
  SFNT.parseLoca sfnt = Ok sfnt1 ->
  SFNT.parseGlyf sfnt1 = Ok sfnt2 ->
  exists (numGlyphs : Z) (offsets : list Z) (glyf : list byte),
    SFNT.NumGlyphs sfnt = Ok numGlyphs
    /\ SFNT.Loca sfnt2 = Some (locaTable.mk offsets)
    /\ SFNT.Tables sfnt !! "glyf" = Some glyf
    /\ (0 <= numGlyphs < 65536 -> len offsets = numGlyphs + 1)
    /\ (forall (i : nat) (x y : Z),
          offsets !! i = Some x -> offsets !! S i = Some y -> x <= y)
    /\ last offsets = Some (uint32 (len glyf)).
Proof.
  intros H1 H2.
  destruct (parseLoca_ok _ _ H1) as (numGlyphs & offsets & HN & -> & Hlen & Hs).
  unfold SFNT.parseGlyf in H2. cbn [SFNT.set_Loca SFNT.Tables SFNT.Loca] in H2.
  destruct (SFNT.Tables sfnt !! "glyf") as [glyf |]; [| discriminate].
  cbn [deref bind locaTable.Offsets] in H2.
  destruct (index offsets (len offsets - 1)) as [lastOffset | |] eqn:Ei; try discriminate.
  cbn [bind] in H2.
  destruct (Z.eqb_spec (uint32 (len glyf)) lastOffset) as [He | He]; [| discriminate].
  cbn [negb] in H2. inversion H2; subst sfnt2. clear H2.
  destruct (index_ok _ _ _ Ei) as [Hpos Hlast].
  exists numGlyphs, offsets, glyf.
  split; [exact HN |]. split; [reflexivity |]. split; [reflexivity |].
  assert (Hcount : 1 <= uint16 (numGlyphs + 1)) by (unfold len in Hpos; lia).
  split; [| split].
  - intros Hr. unfold len. rewrite Hlen. unfold uint16 in *.
    destruct (Z.eq_dec numGlyphs 65535) as [-> | Hne].
    + change ((65535 + 1) mod 2 ^ 16) with 0 in Hcount. lia.
    + rewrite Z.mod_small by lia. lia.
  - intros i x y Hx Hy. apply (Hs i x y); [| exact Hx | exact Hy].
    apply lookup_lt_Some in Hy. lia.
  - rewrite last_lookup. rewrite He.
    replace (Init.Nat.pred (length offsets)) with (Z.to_nat (len offsets - 1))
      by (unfold len; lia).
    exact Hlast.
Qed.

(** The example file: the state after head and maxp with its loca and glyf
    tables satisfies the two hypotheses, and so has six offsets for its five
    glyphs. *)
Lemma loca_offsets_invariant_witness :
  SFNT.parseLoca decodingDemo = Ok (SFNT.set_Loca demoLocaTable decodingDemo)
  /\ SFNT.parseGlyf (SFNT.set_Loca demoLocaTable decodingDemo)
     = Ok (SFNT.set_Glyf demoGlyfTable (SFNT.set_Loca demoLocaTable decodingDemo))
  /\ exists (numGlyphs : Z) (offsets : list Z) (glyf : list byte),
       SFNT.NumGlyphs decodingDemo = Ok numGlyphs
       /\ SFNT.Loca (SFNT.set_Glyf demoGlyfTable (SFNT.set_Loca demoLocaTable decodingDemo))
          = Some (locaTable.mk offsets)
       /\ SFNT.Tables decodingDemo !! "glyf" = Some glyf
       /\ (0 <= numGlyphs < 65536 -> len offsets = numGlyphs + 1)
       /\ (forall (i : nat) (x y : Z),
             offsets !! i = Some x -> offsets !! S i = Some y -> x <= y)
       /\ last offsets = Some (uint32 (len glyf)).
Proof.
  assert (H1 : SFNT.parseLoca decodingDemo = Ok (SFNT.set_Loca demoLocaTable decodingDemo))
    by (vm_compute; reflexivity).
  assert (H2 : SFNT.parseGlyf (SFNT.set_Loca demoLocaTable decodingDemo)
               = Ok (SFNT.set_Glyf demoGlyfTable (SFNT.set_Loca demoLocaTable decodingDemo)))
    by (vm_compute; reflexivity).
  exact (conj H1 (conj H2 (loca_offsets_invariant _ _ _ H1 H2))).
Defined.

(** ** The buffer after [ParseSFNT] *)

Section Frame.

Lemma be_from_nonneg (bs : list byte) :
  forall acc : Z, 0 <= acc -> 0 <= fold_left (fun acc b => acc * 256 + byteZ b) bs acc.
Proof.
  induction bs as [| b bs IH]; intros acc Hacc; simpl; [exact Hacc |].
  apply IH. unfold byteZ. lia.
Qed.

Lemma be_nonneg (bs : list byte) : 0 <= be bs.
Proof. apply be_from_nonneg. lia. Qed.

Lemma byteZ_range (x : byte) : 0 <= byteZ x < 256.
Proof. unfold byteZ. pose proof (Byte.to_N_bounded x). lia. Qed.

Lemma byte_of_Z_add (q : Z) (x : byte) : byte_of_Z (q * 256 + byteZ x) = x.
Proof.
  unfold byte_of_Z. rewrite Z.add_comm, Z.mod_add by lia.
  rewrite Z.mod_small by apply byteZ_range.
  unfold byteZ. rewrite N2Z.id, Byte.of_to_N. reflexivity.
Qed.

(** Writing back the 32-bit value of four bytes gives the four bytes. *)
Lemma bytes_of_uint32_be (a b c d : byte) : bytes_of_uint32 (be [a; b; c; d]) = [a; b; c; d].
Proof.
  pose proof (byteZ_range a). pose proof (byteZ_range b).
  pose proof (byteZ_range c). pose proof (byteZ_range d).
  unfold bytes_of_uint32, be. cbn [fold_left].
  set (v := (((0 * 256 + byteZ a) * 256 + byteZ b) * 256 + byteZ c) * 256 + byteZ d).
  assert (E24 : v / 2 ^ 24 = 0 * 256 + byteZ a)
    by (symmetry; apply Z.div_unique with (r := (byteZ b * 256 + byteZ c) * 256 + byteZ d);
        subst v; lia).
  assert (E16 : v / 2 ^ 16 = byteZ a * 256 + byteZ b)
    by (symmetry; apply Z.div_unique with (r := byteZ c * 256 + byteZ d); subst v; lia).
  assert (E8 : v / 2 ^ 8 = (byteZ a * 256 + byteZ b) * 256 + byteZ c)
    by (symmetry; apply Z.div_unique with (r := byteZ d); subst v; lia).
  rewrite E24, E16, E8. subst v.
  now rewrite !byte_of_Z_add.
Qed.

Lemma len_app {A : Type} (s t : list A) : len (s ++ t) = len s + len t.
Proof. unfold len. rewrite length_app. lia. Qed.

(** [PutUint32_at] on a buffer split around the four bytes it writes. *)
Lemma PutUint32_at_app (p x q : list byte) (v : Z) :
  length x = 4%nat ->
  PutUint32_at (p ++ x ++ q) (len p) v = Ok (p ++ bytes_of_uint32 v ++ q).
Proof.
  intros Hx.
  destruct x as [| x0 [| x1 [| x2 [| x3 [| x4 x]]]]]; try discriminate Hx.
  pose proof (len_nonneg p). pose proof (len_nonneg q).
  unfold PutUint32_at.
  assert (E1 : (len p <? 0) = false) by (apply Z.ltb_ge; lia).
  assert (E2 : (len (p ++ [x0; x1; x2; x3] ++ q) <? len p) = false)
    by (apply Z.ltb_ge; rewrite len_app; pose proof (len_nonneg ([x0; x1; x2; x3] ++ q)); lia).
  assert (E3 : (len (p ++ [x0; x1; x2; x3] ++ q) - len p <? 4) = false)
    by (apply Z.ltb_ge; rewrite !len_app; unfold len at 2; simpl length; lia).
  rewrite E1, E2, E3. cbn [orb]. f_equal.
  unfold len. rewrite Nat2Z.id, take_app_length.
  replace (Z.to_nat (Z.of_nat (length p) + 4)) with (length p + 4)%nat by lia.
  rewrite drop_app_add' by reflexivity.
  reflexivity.
Qed.

(** A buffer with four bytes at [off], split around them. *)
Lemma split_at_uint32 (b : list byte) (off : Z) :
  0 <= off -> off + 4 <= len b ->
  exists (p : list byte) (a0 a1 a2 a3 : byte) (q : list byte),
    b = p ++ [a0; a1; a2; a3] ++ q /\ len p = off
    /\ drop (Z.to_nat off) b = [a0; a1; a2; a3] ++ q.
Proof.
  intros H0 H4. unfold len in *.
  pose proof (take_drop (Z.to_nat off) b) as Hb.
  assert (Hl : length (drop (Z.to_nat off) b) = (length b - Z.to_nat off)%nat)
    by apply length_drop.
  destruct (drop (Z.to_nat off) b) as [| a0 [| a1 [| a2 [| a3 q]]]] eqn:E;
    simpl in Hl; try lia.
  exists (take (Z.to_nat off) b), a0, a1, a2, a3, q.
  split; [now rewrite <- Hb at 1 |]. split; [| reflexivity].
  rewrite length_take. lia.
Qed.

(** Zeroing the four bytes at [off] and then writing back the value read
    from them before gives the buffer back. *)
Lemma PutUint32_at_restore (b rest b1 : list byte) (off v : Z) :
  slice_from b off = Ok rest -> BigEndian_Uint32 rest = Ok v ->
  PutUint32_at b off 0 = Ok b1 ->
  len b1 = len b /\ PutUint32_at b1 off v = Ok b.
Proof.
  intros Hs Hv Hz.
  unfold slice_from, slice in Hs.
  destruct (Z.ltb_spec off 0) as [? | H0]; [discriminate |].
  destruct (Z.ltb_spec (len b) off) as [? | H1]; [discriminate |].
  destruct (Z.ltb_spec (len b) (len b)) as [? | _]; [lia |].
  cbn [orb] in Hs. injection Hs as Hrest.
  assert (Hrest' : rest = drop (Z.to_nat off) b).
  { rewrite <- Hrest. apply take_ge. rewrite length_drop. unfold len. lia. }
  clear Hrest. unfold BigEndian_Uint32 in Hv.
  destruct (Z.ltb_spec (len rest) 4) as [? | H4]; [discriminate |].
  injection Hv as Hv.
  assert (Hlen : off + 4 <= len b).
  { rewrite Hrest' in H4. unfold len in *. rewrite length_drop in H4. lia. }
  destruct (split_at_uint32 b off H0 Hlen) as (p & a0 & a1 & a2 & a3 & q & Hb & Hp & Hd).
  rewrite Hrest', Hd in Hv. cbn [take app] in Hv.
  subst b off v.
  rewrite (PutUint32_at_app p [a0; a1; a2; a3] q 0 eq_refl) in Hz.
  injection Hz as <-. split.
  - unfold len. rewrite !length_app. reflexivity.
  - rewrite (PutUint32_at_app p (bytes_of_uint32 0) q _ eq_refl).
    now rewrite bytes_of_uint32_be.
Qed.

End Frame.

Section Directory.

Lemma ReadUint_nonneg (n : Z) (r : binaryReader.t) : 0 <= fst (binaryReader.ReadUint n r).
Proof.
  unfold binaryReader.ReadUint. destruct (binaryReader.ReadBytes n r) as [bs r'].
  apply be_nonneg.
Qed.

(** One table record leaves the buffer as it was, unless it ends with the
    checksum error of the head table. *)
Lemma parseTableRecord_frame (st : directoryState) (b' : list byte)
    (res : result directoryState) :
  len (dirData st) <= MaxInt32 ->
  parseTableRecord st = (b', res) ->
  (b' = dirData st /\ forall st', res = Ok st' -> dirData st' = dirData st)
  \/ res = Err headChecksumError.
Proof.
  intros Hmax. unfold parseTableRecord.
  pose proof (len_nonneg (dirData st)) as Hnn.
  destruct (binaryReader.ReadString 4 _) as [tag r1].
  destruct (binaryReader.ReadUint32 r1) as [checksum r2].
  pose proof (ReadUint_nonneg 4 r2) as Hoff. fold binaryReader.ReadUint32 in Hoff.
  destruct (binaryReader.ReadUint32 r2) as [offset r3].
  pose proof (ReadUint_nonneg 4 r3) as Hlen. fold binaryReader.ReadUint32 in Hlen.
  destruct (binaryReader.ReadUint32 r3) as [length r4].
  cbn [fst] in Hoff, Hlen.
  set (padding := Z.land (uint32 (4 - Z.land length 3)) 3).
  assert (Hpad : 0 <= padding) by (apply Z.land_nonneg; right; lia).
  assert (Hu : uint32 (len (dirData st)) = len (dirData st))
    by (unfold uint32, MaxInt32 in *; apply Z.mod_small; lia).
  rewrite Hu.
  destruct (Z.leb_spec (len (dirData st)) offset) as [G1 | G1];
    [intros E; injection E as <- <-; left; split; [reflexivity | discriminate] |].
  destruct (Z.ltb_spec (len (dirData st) - offset) length) as [G2 | G2];
    [intros E; injection E as <- <-; left; split; [reflexivity | discriminate] |].
  destruct (Z.ltb_spec (len (dirData st) - offset - length) padding) as [G3 | G3];
    [intros E; injection E as <- <-; left; split; [reflexivity | discriminate] |].
  cbn [orb].
  destruct (String.eqb_spec tag "head") as [Htag | Htag].
  - (* the head table *)
    subst tag. cbn [andb].
    destruct (length <? 12);
      [intros E; injection E as <- <-; left; split; [reflexivity | discriminate] |].
    destruct (slice_from (dirData st) (offset + 8)) as [rest | e | p] eqn:Es; cbn [bind];
      try (intros E; injection E as <- <-; left; split; [reflexivity | discriminate]).
    destruct (BigEndian_Uint32 rest) as [adj | e | p] eqn:Ea; cbn [bind];
      try (intros E; injection E as <- <-; left; split; [reflexivity | discriminate]).
    destruct (PutUint32_at (dirData st) (offset + 8) 0) as [b1 | e | p] eqn:Ez; cbn [bind];
      try (intros E; injection E as <- <-; left; split; [reflexivity | discriminate]).
    destruct (PutUint32_at_restore _ _ _ _ _ Es Ea Ez) as [Hl1 Hr].
    assert (Hs1 : exists table, slice b1 offset (offset + length + padding) = Ok table).
    { unfold slice. rewrite Hl1.
      destruct (Z.ltb_spec offset 0); [lia |].
      destruct (Z.ltb_spec (offset + length + padding) offset); [lia |].
      destruct (Z.ltb_spec (len (dirData st)) (offset + length + padding)); [lia |].
      cbn [orb]. eauto. }
    destruct Hs1 as [table ->].
    destruct (negb (calcChecksum table =? checksum));
      [intros E; injection E as <- <-; right; reflexivity |].
    rewrite Hr.
    destruct (slice (dirData st) offset (offset + length)) as [table' | e | p];
      intros E; injection E as <- <-; left; split; try reflexivity; try discriminate.
    intros st' E'. injection E' as <-. reflexivity.
  - (* any other table *)
    cbn [andb].
    destruct (slice (dirData st) offset (offset + length + padding)) as [table | e | p];
      try (intros E; injection E as <- <-; left; split; [reflexivity | discriminate]).
    destruct (negb (calcChecksum table =? checksum));
      [intros E; injection E as <- <-; left; split; [reflexivity | discriminate] |].
    destruct (slice (dirData st) offset (offset + length)) as [table' | e | p];
      intros E; injection E as <- <-; left; split; try reflexivity; try discriminate.
    intros st' E'. injection E' as <-. reflexivity.
Qed.

Lemma parseTableRecords_frame (k : nat) :
  forall (st : directoryState) (b' : list byte) (res : result directoryState),
    len (dirData st) <= MaxInt32 ->
    parseTableRecords k st = (b', res) ->
    b' = dirData st \/ res = Err headChecksumError.
Proof.
  induction k as [| k IH]; intros st b' res Hmax H; cbn [parseTableRecords] in H.
  - injection H as <- <-. left; reflexivity.
  - destruct (parseTableRecord st) as [b1 res1] eqn:E.
    destruct (parseTableRecord_frame st b1 res1 Hmax E) as [[Hb Hst] | Hres].
    + destruct res1 as [st1 | e | p].
      * specialize (Hst st1 eq_refl).
        destruct (IH st1 b' res ltac:(rewrite Hst; exact Hmax) H) as [-> | ->];
          [left; exact Hst | right; reflexivity].
      * injection H as <- <-. left; exact Hb.
      * injection H as <- <-. left; exact Hb.
    + subst res1. injection H as <- <-. right; reflexivity.
Qed.

Lemma parseDirectory_frame (b b' : list byte)
    (res : result (string * gmap string (list byte))) :
  parseDirectory b = (b', res) ->
  b' = b \/ res = Err headChecksumError.
Proof.
  unfold parseDirectory.
  destruct (Z.ltb_spec (len b) 12) as [? | H12]; [intros E; injection E as <- <-; now left |].
  destruct (Z.ltb_spec MaxInt32 (len b)) as [? | Hmax]; [intros E; injection E as <- <-; now left |].
  cbn [orb].
  destruct (binaryReader.ReadBytes 4 (newBinaryReader b)) as [versionBytes r].
  destruct (if negb _ then _ else Ok false) as [[|] | e | p];
    try (intros E; injection E as <- <-; now left).
  destruct (binaryReader.ReadUint16 r) as [numTables r1].
  destruct (binaryReader.ReadUint16 r1) as [x2 r2].
  destruct (binaryReader.ReadUint16 r2) as [x3 r3].
  destruct (binaryReader.ReadUint16 r3) as [x4 r4].
  destruct (uint32 (len b) <? uint32 (12 + 16 * numTables));
    [intros E; injection E as <- <-; now left |].
  destruct (parseTableRecords (Z.to_nat numTables)
              (mkDirectoryState b (binaryReader.pos r4) ∅)) as [b1 res1] eqn:E1.
  destruct (parseTableRecords_frame (Z.to_nat numTables)
              (mkDirectoryState b (binaryReader.pos r4) ∅) b1 res1 Hmax E1) as [Hb | Hres];
    cbn [dirData] in *.
  - destruct res1 as [st | e | p]; intros E; injection E as <- <-; now left.
  - subst res1. intros E; injection E as <- <-. now right.
Qed.

End Directory.

(** X3.  [ParseSFNT] leaves the caller's buffer with the contents it had,
    whatever it returns, with one exception: the call that returns the
    checksum error of the head table. *)
Theorem ParseSFNT_buffer_unchanged (macintoshGlyphNames : list string) (b : list byte) :
  fst (ParseSFNT macintoshGlyphNames b) = b
  \/ snd (ParseSFNT macintoshGlyphNames b) = Err (Errorf "%s: bad checksum" [ArgStr "head"]).
Proof.
  unfold ParseSFNT.
  destruct (parseDirectory b) as [b' res] eqn:E.
  destruct (parseDirectory_frame b b' res E) as [-> | ->].
  - left. destruct res as [[sfntVersion tables] | e | p]; reflexivity.
  - right. reflexivity.
Qed.

(** ** Taking a successful decoder apart *)

Section Inversion.

Lemma bind_ok {A B : Type} (m : result A) (k : A -> result B) (b : B) :
  bind m k = Ok b -> exists a, m = Ok a /\ k a = Ok b.
Proof. destruct m as [a | e | p]; try discriminate. intros H. eauto. Qed.

Lemma pbind_ok {A B : Type} (m : parser A) (k : A -> parser B) (r : binaryReader.t)
    (b : B) (r' : binaryReader.t) :
  pbind m k r = Ok (b, r') -> exists a r1, m r = Ok (a, r1) /\ k a r1 = Ok (b, r').
Proof.
  unfold pbind. destruct (m r) as [[a r1] | e | p]; try discriminate. intros H. eauto.
Qed.

Lemma read_ok {A : Type} (f : binaryReader.t -> A * binaryReader.t) (r : binaryReader.t)
    (a : A) (r' : binaryReader.t) :
  read f r = Ok (a, r') -> f r = (a, r').
Proof. unfold read. intros H. now injection H. Qed.

Lemma pret_ok {A : Type} (x a : A) (r r' : binaryReader.t) :
  pret x r = Ok (a, r') -> a = x /\ r' = r.
Proof. unfold pret. intros H. injection H as <- <-. now split. Qed.

Lemma lift_ok {A : Type} (m : result A) (r : binaryReader.t) (a : A) (r' : binaryReader.t) :
  lift m r = Ok (a, r') -> m = Ok a /\ r' = r.
Proof. unfold lift. destruct m; try discriminate. intros H. injection H as <- <-. now split. Qed.

Lemma rLen_ok (r : binaryReader.t) (n : Z) (r' : binaryReader.t) :
  rLen r = Ok (n, r') -> n = binaryReader.Len r /\ r' = r.
Proof. unfold rLen. intros H. injection H as <- <-. now split. Qed.

Lemma rPos_ok (r : binaryReader.t) (n : Z) (r' : binaryReader.t) :
  rPos r = Ok (n, r') -> n = binaryReader.Pos r /\ r' = r.
Proof. unfold rPos. intros H. injection H as <- <-. now split. Qed.

Lemma run_ok' {A : Type} (m : parser A) (b : list byte) (a : A) :
  run m b = Ok a -> exists r', m (newBinaryReader b) = Ok (a, r').
Proof.
  unfold run. destruct (m (newBinaryReader b)) as [[a' r'] | |]; try discriminate.
  intros E; injection E as <-. eauto.
Qed.

End Inversion.

(** Takes the successful decoder of a hypothesis apart, step by step. *)
Ltac pinv :=
  repeat match goal with
    | H : fail _ _ = Ok _ |- _ => discriminate H
    | H : SFNT.badSubtable _ _ = Ok _ |- _ => discriminate H
    | H : true = false |- _ => discriminate H
    | H : (let _ := _ in _) _ = Ok _ |- _ => cbv zeta in H
    | H : (let _ := _ in _) = Ok _ |- _ => cbv zeta in H
    | H : false = true |- _ => discriminate H
    | H : Err _ = Ok _ |- _ => discriminate H
    | H : Panic _ = Ok _ |- _ => discriminate H
    | H : pbind _ _ _ = Ok _ |- _ =>
        let a := fresh "v" in let r := fresh "r" in let E := fresh "E" in
        apply pbind_ok in H; destruct H as (a & r & E & H)
    | H : pret _ _ = Ok _ |- _ => apply pret_ok in H; destruct H as [? ?]; subst
    | H : rLen _ = Ok _ |- _ => apply rLen_ok in H; destruct H as [? ?]; subst
    | H : rPos _ = Ok _ |- _ => apply rPos_ok in H; destruct H as [? ?]; subst
    | H : lift _ _ = Ok _ |- _ => apply lift_ok in H; destruct H as [H ?]; subst
    | H : (if ?c then _ else _) _ = Ok _ |- _ => destruct c eqn:?
    | H : (if ?c then _ else _) = Ok _ |- _ => destruct c eqn:?
    | H : bind _ _ = Ok _ |- _ =>
        let a := fresh "v" in let E := fresh "E" in
        apply bind_ok in H; destruct H as (a & E & H)
    | H : Ok _ = Ok _ |- _ => injection H as H; try subst
    end.

(** ** Kerning pairs: decoded in order, found by the search *)

Section KernSearch.

Import kernFormat0.

(** The search finds a pair that lies between [lo] and [hi]. *)
Lemma search_finds (pairs : list kernPair) (i : nat) (p : kernPair) :
  keysIncrease pairs -> pairs !! i = Some p ->
  forall (k : nat) (lo hi : Z),
    0 <= lo <= Z.of_nat i -> Z.of_nat i < hi <= len pairs -> hi - lo <= Z.of_nat k ->
    search pairs (Key p) k lo hi = Ok (Value p).
Proof.
  intros Hs Hp. induction k as [| k IH]; intros lo hi Hlo Hhi Hk; [lia |].
  cbn [search].
  destruct (Z.ltb_spec lo hi) as [_ | ?]; [| lia].
  assert (Hmid : lo <= (lo + hi) / 2 < hi)
    by (split; [apply Z.div_le_lower_bound | apply Z.div_lt_upper_bound]; lia).
  destruct (index_in_range pairs ((lo + hi) / 2) ltac:(lia)) as (q & -> & Hq).
  cbn [bind].
  destruct (Z.lt_trichotomy (Z.of_nat i) ((lo + hi) / 2)) as [Hlt | [Heq | Hgt]].
  - (* the pair lies below the middle *)
    pose proof (Hs i (Z.to_nat ((lo + hi) / 2)) p q ltac:(lia) Hp Hq).
    destruct (Z.ltb_spec (Key q) (Key p)); [lia |].
    destruct (Z.ltb_spec (Key p) (Key q)); [| lia].
    apply IH; lia.
  - (* the pair is the middle *)
    replace (Z.to_nat ((lo + hi) / 2)) with i in Hq by lia.
    rewrite Hp in Hq. injection Hq as <-.
    rewrite Z.ltb_irrefl. reflexivity.
  - (* the pair lies above the middle *)
    pose proof (Hs (Z.to_nat ((lo + hi) / 2)) i q p ltac:(lia) Hq Hp).
    destruct (Z.ltb_spec (Key q) (Key p)); [| lia].
    apply IH; lia.
Qed.

(** Keys that increase from each pair to the next increase along the
    pairs. *)
Lemma keysIncrease_adjacent (pairs : list kernPair) :
  (forall (i : nat) (p q : kernPair),
     pairs !! i = Some p -> pairs !! S i = Some q -> Key p < Key q) ->
  keysIncrease pairs.
Proof.
  intros Hadj i j. revert i. induction j as [| j IH]; intros i p q Hij Hp Hq; [lia |].
  destruct (Nat.eq_dec i j) as [-> | Hne].
  - apply (Hadj j p q Hp Hq).
  - destruct (lookup_lt_is_Some_2 pairs j) as [m Hm];
      [apply lookup_lt_Some in Hq; lia |].
    pose proof (IH i p m ltac:(lia) Hp Hm). pose proof (Hadj j m q Hm Hq). lia.
Qed.

End KernSearch.

Section KernDecode.

Import kernFormat0.

(** A kern subtable is decoded with keys that increase strictly. *)
Lemma parseKernSubtable_sorted (j : Z) (subtables : list kernFormat0.t)
    (r : binaryReader.t) (subtables' : list kernFormat0.t) (r' : binaryReader.t) :
  Forall (fun s => keysIncrease (Pairs s)) subtables ->
  SFNT.parseKernSubtable j subtables r = Ok (subtables', r') ->
  Forall (fun s => keysIncrease (Pairs s)) subtables'.
Proof.
  intros Hall H. unfold SFNT.parseKernSubtable in H.
  pinv; try exact Hall.
  apply Forall_app. split; [exact Hall |]. constructor; [| constructor].
  cbn [Pairs].
  match goal with
  | E : forRange _ _ _ ?init _ = Ok (?pairs, _) |- keysIncrease ?pairs =>
      rename E into Hloop;
      apply (forRange_invariant
               (fun j t => length t = length init /\ keysIncreaseBelow j t)) in Hloop
  end.
  - cbv beta in Hloop. destruct Hloop as [Hlen Hs].
    apply keysIncrease_adjacent. intros i p q Hp Hq.
    apply (Hs i p q); [| exact Hp | exact Hq].
    apply lookup_lt_Some in Hq. rewrite Hlen in Hq. unfold make in Hq.
    rewrite length_replicate in Hq. lia.
  - split; [reflexivity |]. intros a p q Ha. lia.
  - intros i t ri t' ri' Hi HI Hb. cbv beta in Hb, HI. destruct HI as [Hlen Hs].
    cbv beta. pinv.
    + match goal with E : store _ _ _ = Ok _ |- _ => destruct (store_ok _ _ _ _ E) as [Hr ->] end.
      split; [now rewrite length_insert |].
      match goal with E : index _ _ = Ok _ |- _ => destruct (index_ok _ _ _ E) as [_ Hprev] end.
      match goal with E : (_ <=? _) = false |- _ => apply Z.leb_gt in E; rename E into Hkey end.
      intros a p q Ha Hp Hq.
      destruct (Z.eq_dec (Z.of_nat a + 1) i) as [Heq | Hne].
      * replace (Z.to_nat (i - 1)) with a in Hprev by lia.
        replace (S a) with (Z.to_nat i) in Hq by lia.
        rewrite list_lookup_insert_eq in Hq by (unfold len in Hr; lia).
        rewrite Hp in Hprev. injection Hprev as <-. injection Hq as <-.
        cbn [Key]. exact Hkey.
      * rewrite list_lookup_insert_ne in Hp by lia.
        rewrite list_lookup_insert_ne in Hq by lia.
        apply (Hs a p q); [lia | exact Hp | exact Hq].
    + match goal with E : store _ _ _ = Ok _ |- _ => destruct (store_ok _ _ _ _ E) as [Hr ->] end.
      split; [now rewrite length_insert |].
      match goal with E : (0 <? _) = false |- _ => apply Z.ltb_ge in E end.
      intros a p q Ha. lia.
Qed.

(** X4. After [parseKern] has decoded a kern table, the keys of every
    subtable's pairs increase strictly, and [kernFormat0.Get] returns the
    value of every decoded pair when it is asked for that pair's glyphs. *)
Theorem parseKern_pairs_found (sfnt sfnt' : SFNT.t) :
  SFNT.parseKern sfnt = Ok sfnt' ->
  exists kern : kernTable.t,
    SFNT.Kern sfnt' = Some kern
    /\ forall subtable : kernFormat0.t, In subtable (kernTable.Subtables kern) ->
         keysIncrease (Pairs subtable)
         /\ forall (pair : kernPair) (left right : Z),
              In pair (Pairs subtable) ->
              Key pair = Z.lor (uint32 (Z.shiftl left 16)) right ->
              kernFormat0.Get subtable left right = Ok (Value pair).
Proof.
  unfold SFNT.parseKern. intros H.
  destruct (SFNT.Tables sfnt !! "kern") as [b |]; [| discriminate].
  destruct (len b <? 4); [discriminate |].
  apply bind_ok in H. destruct H as (subtables & Hrun & H).
  injection H as <-. exists (kernTable.mk subtables).
  split; [reflexivity |]. cbn [kernTable.Subtables].
  assert (Hall : Forall (fun s => keysIncrease (Pairs s)) subtables).
  { apply run_ok' in Hrun. destruct Hrun as [r' Hrun]. pinv.
    match goal with
    | E : forRange _ _ _ _ _ = Ok _ |- _ =>
        apply (forRange_invariant
                 (fun _ t => Forall (fun s => keysIncrease (Pairs s)) t)) in E;
        [exact E | constructor |]
    end.
    intros j t rj t' rj' _ Ht Hb. exact (parseKernSubtable_sorted j t rj t' rj' Ht Hb). }
  intros subtable Hin.
  assert (Hs : keysIncrease (Pairs subtable)).
  { rewrite Forall_forall in Hall. apply Hall. now apply list_elem_of_In. }
  split; [exact Hs |].
  intros pair left right Hp Hkey.
  apply list_elem_of_In, list_elem_of_lookup_1 in Hp. destruct Hp as [i Hi].
  unfold kernFormat0.Get. rewrite <- Hkey.
  pose proof (lookup_lt_Some _ _ _ Hi) as Hlt.
  apply (search_finds (Pairs subtable) i pair Hs Hi); unfold len; lia.
Qed.

(** The kern table of the demonstration font: its one pair is found. *)
Lemma parseKern_pairs_found_witness :
  SFNT.parseKern decodingKern = Ok (SFNT.set_Kern demoKernTable decodingKern)
  /\ exists kern : kernTable.t,
       SFNT.Kern (SFNT.set_Kern demoKernTable decodingKern) = Some kern
       /\ forall subtable : kernFormat0.t, In subtable (kernTable.Subtables kern) ->
            keysIncrease (Pairs subtable)
            /\ forall (pair : kernPair) (left right : Z),
                 In pair (Pairs subtable) ->
                 Key pair = Z.lor (uint32 (Z.shiftl left 16)) right ->
                 kernFormat0.Get subtable left right = Ok (Value pair).
Proof.
  assert (H : SFNT.parseKern decodingKern = Ok (SFNT.set_Kern demoKernTable decodingKern))
    by (vm_compute; reflexivity).
  exact (conj H (parseKern_pairs_found _ _ H)).
Defined.

End KernDecode.

(** ** Horizontal metrics: every glyph has an advance *)

Section Hmtx.

Lemma be_from_lt (bs : list byte) :
  forall acc m : Z, 0 <= acc < m ->
    fold_left (fun acc b => acc * 256 + byteZ b) bs acc < m * 256 ^ Z.of_nat (length bs).
Proof.
  induction bs as [| b bs IH]; intros acc m Hacc.
  - cbn. lia.
  - cbn [fold_left length]. rewrite Nat2Z.inj_succ, Z.pow_succ_r by lia.
    pose proof (byteZ_range b) as Hb.
    specialize (IH (acc * 256 + byteZ b) (m * 256)).
    rewrite <- Z.mul_assoc in IH. apply IH. lia.
Qed.

Lemma be_lt (bs : list byte) : be bs < 256 ^ Z.of_nat (length bs).
Proof.
  unfold be. pose proof (be_from_lt bs 0 1) as H.
  rewrite Z.mul_1_l in H. apply H. lia.
Qed.

(** A 16-bit read yields a 16-bit value, also when the reader is short. *)
Lemma ReadUint16_range (r : binaryReader.t) :
  0 <= fst (binaryReader.ReadUint16 r) < 65536.
Proof.
  split; [apply ReadUint_nonneg |].
  unfold binaryReader.ReadUint16, binaryReader.ReadUint, binaryReader.ReadBytes.
  destruct (binaryReader.Len r <? 2); cbn [fst].
  - reflexivity.
  - match goal with |- be ?bs < _ => pose proof (be_lt bs) as H; assert (Hl : (length bs <= 2)%nat) end.
    { rewrite length_take. change (Z.to_nat 2) with 2%nat. lia. }
    apply Z.lt_le_trans with (1 := H).
    change 65536 with (256 ^ 2). apply Z.pow_le_mono_r; lia.
Qed.

Lemma read_ReadUint16_range (r : binaryReader.t) (v : Z) (r' : binaryReader.t) :
  read binaryReader.ReadUint16 r = Ok (v, r') -> 0 <= v < 65536.
Proof.
  intros H. apply read_ok in H. pose proof (ReadUint16_range r) as Hr.
  rewrite H in Hr. exact Hr.
Qed.

(** A loop that only stores into a list keeps the length of the list. *)
Lemma forRange_length {A : Type} (body : Z -> list A -> parser (list A)) :
  (forall j t rj t' rj', body j t rj = Ok (t', rj') -> length t' = length t) ->
  forall (n : nat) (i : Z) (s : list A) (r : binaryReader.t) (s' : list A)
    (r' : binaryReader.t),
    forRange n i body s r = Ok (s', r') -> length s' = length s.
Proof.
  intros Hbody n i s r s' r' H.
  apply (forRange_invariant (fun _ t => length t = length s)) in H.
  - exact H.
  - reflexivity.
  - intros j t rj t' rj' _ Ht Hb. rewrite <- Ht. exact (Hbody j t rj t' rj' Hb).
Qed.

Lemma parseMaxp_ok (sfnt s0 : SFNT.t) :
  SFNT.parseMaxp sfnt = Ok s0 ->
  exists maxp : maxpTable.t,
    s0 = SFNT.set_Maxp maxp sfnt /\ 0 <= maxpTable.NumGlyphs maxp < 65536.
Proof.
  unfold SFNT.parseMaxp. intros H.
  destruct (SFNT.Tables sfnt !! "maxp") as [b |]; [| discriminate].
  apply bind_ok in H. destruct H as (maxp & Hrun & H). injection H as <-.
  exists maxp. split; [reflexivity |].
  apply run_ok' in Hrun. destruct Hrun as [r' Hrun].
  apply pbind_ok in Hrun. destruct Hrun as (version & r1 & _ & Hrun).
  apply pbind_ok in Hrun. destruct Hrun as (numGlyphs & r2 & Hn & Hrun).
  apply read_ReadUint16_range in Hn.
  pinv; cbn [maxpTable.NumGlyphs]; exact Hn.
Qed.

Lemma parseHhea_ok (s0 s1 : SFNT.t) :
  SFNT.parseHhea s0 = Ok s1 ->
  exists (hhea : hheaTable.t) (numGlyphs : Z),
    s1 = SFNT.set_Hhea hhea s0 /\ SFNT.NumGlyphs s0 = Ok numGlyphs
    /\ 0 < hheaTable.NumberOfHMetrics hhea <= numGlyphs.
Proof.
  unfold SFNT.parseHhea. intros H.
  destruct (SFNT.Tables s0 !! "hhea") as [b |]; [| discriminate].
  destruct (negb (len b =? 36)); [discriminate |].
  apply bind_ok in H. destruct H as (hhea & Hrun & H). injection H as <-.
  apply run_ok' in Hrun. destruct Hrun as [r' Hrun].
  pinv.
  match goal with
  | Hc : (?n <? ?x) || (?x =? 0) = false, Hr : read binaryReader.ReadUint16 _ = Ok (?x, _),
    Hn : SFNT.NumGlyphs s0 = Ok ?n |- _ =>
      eexists; exists n; split; [reflexivity |]; split; [exact Hn |];
      cbn [hheaTable.NumberOfHMetrics];
      apply read_ReadUint16_range in Hr; apply orb_false_iff in Hc;
      destruct Hc as [Hc1 Hc2]; apply Z.ltb_ge in Hc1; apply Z.eqb_neq in Hc2; lia
  end.
Qed.

Lemma parseHmtx_ok (s1 s2 : SFNT.t) :
  SFNT.parseHmtx s1 = Ok s2 ->
  exists (numberOfHMetrics numGlyphs : Z) (hmtx : hmtxTable.t),
    SFNT.NumberOfHMetrics s1 = Ok numberOfHMetrics /\ SFNT.NumGlyphs s1 = Ok numGlyphs
    /\ s2 = SFNT.set_Hmtx hmtx s1
    /\ length (hmtxTable.HMetrics hmtx) = Z.to_nat numberOfHMetrics
    /\ length (hmtxTable.LeftSideBearings hmtx)
       = Z.to_nat (uint16 (numGlyphs - numberOfHMetrics)).
Proof.
  unfold SFNT.parseHmtx. intros H.
  apply bind_ok in H. destruct H as (numberOfHMetrics & Hh & H).
  apply bind_ok in H. destruct H as (numGlyphs & Hn & H).
  cbv zeta in H.
  destruct (SFNT.Tables s1 !! "hmtx") as [b |]; [| discriminate].
  match type of H with (if ?c then _ else _) = _ => destruct c; [discriminate |] end.
  apply bind_ok in H. destruct H as (hmtx & Hrun & H). injection H as <-.
  exists numberOfHMetrics, numGlyphs, hmtx.
  split; [exact Hh |]. split; [exact Hn |]. split; [reflexivity |].
  apply run_ok' in Hrun. destruct Hrun as [r' Hrun].
  apply pbind_ok in Hrun. destruct Hrun as (hMetrics & r1 & H1 & Hrun).
  apply pbind_ok in Hrun. destruct Hrun as (leftSideBearings & r2 & H2 & Hrun).
  apply pret_ok in Hrun. destruct Hrun as [-> _].
  cbn [hmtxTable.HMetrics hmtxTable.LeftSideBearings].
  apply forRange_length in H1; [apply forRange_length in H2 |].
  - unfold make in H1, H2. rewrite length_replicate in H1. rewrite length_replicate in H2.
    now split.
  - intros j t rj t' rj' Hb. pinv.
    match goal with E : store _ _ _ = Ok _ |- _ => destruct (store_ok _ _ _ _ E) as [_ ->] end.
    apply length_insert.
  - intros j t rj t' rj' Hb. pinv.
    match goal with E : store _ _ _ = Ok _ |- _ => destruct (store_ok _ _ _ _ E) as [_ ->] end.
    apply length_insert.
Qed.

(** X5. Once maxp, hhea and hmtx are decoded, the font has between one and
    as many long metrics as glyphs, one left side bearing for each further
    glyph, [GlyphAdvance] answers every 16-bit glyph ID with the advance of
    that glyph or, past the long metrics, of the last long metric, and
    [LeftSideBearing] answers every glyph of the font. *)
Theorem hmtx_metrics_total (sfnt s0 s1 s2 : SFNT.t) :
  SFNT.parseMaxp sfnt = Ok s0 -> SFNT.parseHhea s0 = Ok s1 -> SFNT.parseHmtx s1 = Ok s2 ->
  exists (numGlyphs numberOfHMetrics : Z) (hmtx : hmtxTable.t),
    SFNT.NumGlyphs s2 = Ok numGlyphs
    /\ SFNT.NumberOfHMetrics s2 = Ok numberOfHMetrics
    /\ SFNT.Hmtx s2 = Some hmtx
    /\ 0 < numberOfHMetrics <= numGlyphs /\ numGlyphs < 65536
    /\ len (hmtxTable.HMetrics hmtx) = numberOfHMetrics
    /\ len (hmtxTable.LeftSideBearings hmtx) = numGlyphs - numberOfHMetrics
    /\ (forall glyphID : Z, 0 <= glyphID < 65536 ->
          exists metric : hmtxTable.hmtxLongHorMetric,
            hmtxTable.HMetrics hmtx !! Z.to_nat (Z.min glyphID (numberOfHMetrics - 1))
              = Some metric
            /\ SFNT.GlyphAdvance s2 glyphID = Ok (hmtxTable.AdvanceWidth metric))
    /\ (forall glyphID : Z, 0 <= glyphID < numGlyphs ->
          exists lsb : Z, hmtxTable.LeftSideBearing hmtx glyphID = Ok lsb).
Proof.
  intros H0 H1 H2.
  destruct (parseMaxp_ok _ _ H0) as (maxp & -> & Hg).
  destruct (parseHhea_ok _ _ H1) as (hhea & numGlyphs & -> & Hn & Hh).
  destruct (parseHmtx_ok _ _ H2) as (nHM & n' & hmtx & Hh' & Hn' & -> & Hl1 & Hl2).
  cbn in Hn. injection Hn as <-.
  cbn in Hh'. injection Hh' as <-.
  cbn in Hn'. injection Hn' as <-.
  set (nHM := hheaTable.NumberOfHMetrics hhea) in *.
  set (numGlyphs := maxpTable.NumGlyphs maxp) in *.
  assert (Hu : uint16 (numGlyphs - nHM) = numGlyphs - nHM)
    by (unfold uint16; apply Z.mod_small; lia).
  rewrite Hu in Hl2.
  assert (Hlen : len (hmtxTable.HMetrics hmtx) = nHM) by (unfold len; lia).
  assert (Hu' : uint16 (len (hmtxTable.HMetrics hmtx)) = nHM)
    by (rewrite Hlen; unfold uint16; apply Z.mod_small; lia).
  exists numGlyphs, nHM, hmtx.
  split; [reflexivity |]. split; [reflexivity |]. split; [reflexivity |].
  split; [exact Hh |]. split; [lia |]. split; [exact Hlen |].
  split; [unfold len; lia |]. split.
  - intros glyphID Hid.
    destruct (lookup_lt_is_Some_2 (hmtxTable.HMetrics hmtx)
                (Z.to_nat (Z.min glyphID (nHM - 1)))) as [metric Hm]; [lia |].
    exists metric. split; [exact Hm |].
    unfold SFNT.GlyphAdvance. cbn [SFNT.Hmtx SFNT.set_Hmtx deref bind].
    unfold hmtxTable.Advance. rewrite Hu'.
    destruct (Z.leb_spec nHM glyphID) as [Hge | Hlt].
    + replace (uint16 (nHM - 1)) with (Z.min glyphID (nHM - 1))
        by (unfold uint16; rewrite Z.mod_small by lia; lia).
      unfold index. destruct (Z.ltb_spec (Z.min glyphID (nHM - 1)) 0); [lia |].
      rewrite Hm. reflexivity.
    + replace (Z.min glyphID (nHM - 1)) with glyphID in Hm by lia.
      unfold index. destruct (Z.ltb_spec glyphID 0); [lia |].
      rewrite Hm. reflexivity.
  - intros glyphID Hid. unfold hmtxTable.LeftSideBearing. rewrite Hu'.
    destruct (Z.leb_spec nHM glyphID) as [Hge | Hlt].
    + assert (Hu2 : uint16 (glyphID - nHM) = glyphID - nHM)
        by (unfold uint16; apply Z.mod_small; lia).
      rewrite Hu2. unfold index. destruct (Z.ltb_spec (glyphID - nHM) 0); [lia |].
      destruct (lookup_lt_is_Some_2 (hmtxTable.LeftSideBearings hmtx)
                  (Z.to_nat (glyphID - nHM))) as [lsb Hlsb]; [lia |].
      rewrite Hlsb. eauto.
    + unfold index. destruct (Z.ltb_spec glyphID 0); [lia |].
      destruct (lookup_lt_is_Some_2 (hmtxTable.HMetrics hmtx) (Z.to_nat glyphID))
        as [metric Hm]; [lia |].
      rewrite Hm. cbn [bind]. eauto.
Qed.

(** The font of five glyphs and two long metrics: the glyphs 1 to 4 share
    the advance 600. *)
Lemma hmtx_metrics_total_witness :
  SFNT.parseMaxp decodingMetrics = Ok (SFNT.set_Maxp maxpFiveGlyphs decodingMetrics)
  /\ SFNT.GlyphAdvance
       (SFNT.set_Hmtx hmtxTwoMetricsTable
          (SFNT.set_Hhea hheaTwoMetricsTable
             (SFNT.set_Maxp maxpFiveGlyphs decodingMetrics))) 4 = Ok 600
  /\ exists (numGlyphs numberOfHMetrics : Z) (hmtx : hmtxTable.t),
       SFNT.NumGlyphs
         (SFNT.set_Hmtx hmtxTwoMetricsTable
            (SFNT.set_Hhea hheaTwoMetricsTable
               (SFNT.set_Maxp maxpFiveGlyphs decodingMetrics))) = Ok numGlyphs
       /\ SFNT.NumberOfHMetrics
            (SFNT.set_Hmtx hmtxTwoMetricsTable
               (SFNT.set_Hhea hheaTwoMetricsTable
                  (SFNT.set_Maxp maxpFiveGlyphs decodingMetrics))) = Ok numberOfHMetrics
       /\ SFNT.Hmtx
            (SFNT.set_Hmtx hmtxTwoMetricsTable
               (SFNT.set_Hhea hheaTwoMetricsTable
                  (SFNT.set_Maxp maxpFiveGlyphs decodingMetrics))) = Some hmtx
       /\ 0 < numberOfHMetrics <= numGlyphs /\ numGlyphs < 65536
       /\ len (hmtxTable.HMetrics hmtx) = numberOfHMetrics
       /\ len (hmtxTable.LeftSideBearings hmtx) = numGlyphs - numberOfHMetrics
       /\ (forall glyphID : Z, 0 <= glyphID < 65536 ->
             exists metric : hmtxTable.hmtxLongHorMetric,
               hmtxTable.HMetrics hmtx !! Z.to_nat (Z.min glyphID (numberOfHMetrics - 1))
                 = Some metric
               /\ SFNT.GlyphAdvance
                    (SFNT.set_Hmtx hmtxTwoMetricsTable
                       (SFNT.set_Hhea hheaTwoMetricsTable
                          (SFNT.set_Maxp maxpFiveGlyphs decodingMetrics))) glyphID
                  = Ok (hmtxTable.AdvanceWidth metric))
       /\ (forall glyphID : Z, 0 <= glyphID < numGlyphs ->
             exists lsb : Z, hmtxTable.LeftSideBearing hmtx glyphID = Ok lsb).
Proof.
  assert (H0 : SFNT.parseMaxp decodingMetrics
               = Ok (SFNT.set_Maxp maxpFiveGlyphs decodingMetrics))
    by (vm_compute; reflexivity).
  assert (H1 : SFNT.parseHhea (SFNT.set_Maxp maxpFiveGlyphs decodingMetrics)
               = Ok (SFNT.set_Hhea hheaTwoMetricsTable
                       (SFNT.set_Maxp maxpFiveGlyphs decodingMetrics)))
    by (vm_compute; reflexivity).
  assert (H2 : SFNT.parseHmtx
                 (SFNT.set_Hhea hheaTwoMetricsTable
                    (SFNT.set_Maxp maxpFiveGlyphs decodingMetrics))
               = Ok (SFNT.set_Hmtx hmtxTwoMetricsTable
                       (SFNT.set_Hhea hheaTwoMetricsTable
                          (SFNT.set_Maxp maxpFiveGlyphs decodingMetrics))))
    by (vm_compute; reflexivity).
  split; [exact H0 |]. split; [vm_compute; reflexivity |].
  exact (hmtx_metrics_total _ _ _ _ H0 H1 H2).
Defined.

End Hmtx.

(** ** cmap format 12: lookups stay inside the font *)

Section Format12.

Import cmapFormat12.

Lemma ReadUint_range (n : Z) (r : binaryReader.t) :
  0 <= n -> 0 <= fst (binaryReader.ReadUint n r) < 256 ^ n.
Proof.
  intros Hn. split; [apply ReadUint_nonneg |].
  unfold binaryReader.ReadUint, binaryReader.ReadBytes.
  destruct (binaryReader.Len r <? n); cbn [fst].
  - change (be []) with 0. apply Z.pow_pos_nonneg; lia.
  - match goal with
    | |- be ?bs < _ =>
        pose proof (be_lt bs) as H; assert (Hl : (length bs <= Z.to_nat n)%nat)
    end.
    { rewrite length_take. lia. }
    apply Z.lt_le_trans with (1 := H). apply Z.pow_le_mono_r; lia.
Qed.

Lemma read_ReadUint32_range (r : binaryReader.t) (v : Z) (r' : binaryReader.t) :
  read binaryReader.ReadUint32 r = Ok (v, r') -> 0 <= v < 2 ^ 32.
Proof.
  intros H. apply read_ok in H.
  pose proof (ReadUint_range 4 r ltac:(lia)) as Hr.
  unfold binaryReader.ReadUint32 in H. rewrite H in Hr. exact Hr.
Qed.

(** What the format-12 decoder has checked of the groups it returns. *)
Lemma parseCmapFormat12_decoded (sfnt : SFNT.t) (j : Z) (r : binaryReader.t)
    (subtable : cmapSubtable) (r' : binaryReader.t) (numGlyphs : Z) :
  SFNT.NumGlyphs sfnt = Ok numGlyphs -> 0 <= numGlyphs < 65536 ->
  SFNT.parseCmapFormat12 sfnt j r = Ok (subtable, r') ->
  exists (groups : cmapFormat12.t) (n : nat),
    subtable = Format12 groups
    /\ length (StartCharCode groups) = n /\ length (EndCharCode groups) = n
    /\ length (StartGlyphID groups) = n
    /\ groupsDecoded numGlyphs (Z.of_nat n) groups.
Proof.
  intros Hn Hnr H. symmetry in Hn. unfold SFNT.parseCmapFormat12 in H. pinv.
  match goal with
  | E : forRange (Z.to_nat ?numGroups) _ _ _ _ = Ok (?groups, _) |- _ =>
      rename E into Hloop; exists groups, (Z.to_nat numGroups);
      apply (forRange_invariant
               (fun i g => (length (StartCharCode g) = Z.to_nat numGroups
                            /\ length (EndCharCode g) = Z.to_nat numGroups
                            /\ length (StartGlyphID g) = Z.to_nat numGroups)
                           /\ groupsDecoded numGlyphs i g)) in Hloop
  end.
  - cbv beta in Hloop. rewrite Z.add_0_l in Hloop.
    destruct Hloop as [(L1 & L2 & L3) Hg]. auto.
  - cbn [StartCharCode EndCharCode StartGlyphID]. unfold make.
    rewrite !length_replicate. split; [auto |].
    split; intros; lia.
  - intros i g ri g' ri' Hi HI Hb. cbv beta in Hb, HI.
    destruct HI as [(L1 & L2 & L3) [Hg1 Hg2]].
    cbv beta.
    assert (Hstep : forall (s e gl : Z),
      0 <= s <= e -> e < 2 ^ 32 -> 0 <= gl -> e - s + gl < numGlyphs ->
      (0 < i -> forall prev, EndCharCode g !! Z.to_nat (i - 1) = Some prev -> prev < s) ->
      0 <= i < Z.of_nat (length (StartCharCode g)) ->
      groupsDecoded numGlyphs (i + 1)
        (cmapFormat12.mk (<[Z.to_nat i := s]> (StartCharCode g))
           (<[Z.to_nat i := e]> (EndCharCode g))
           (<[Z.to_nat i := gl]> (StartGlyphID g)))).
    { intros s e gl Hse He Hgl Hlast Hprev Hr.
      split; cbn [StartCharCode EndCharCode StartGlyphID].
      - intros a s0 e0 g0 Ha Hs0 He0 Hg0.
        destruct (Nat.eq_dec a (Z.to_nat i)) as [-> | Hne].
        + rewrite list_lookup_insert_eq in Hs0 by lia.
          rewrite list_lookup_insert_eq in He0 by lia.
          rewrite list_lookup_insert_eq in Hg0 by lia.
          injection Hs0 as <-. injection He0 as <-. injection Hg0 as <-. auto.
        + rewrite list_lookup_insert_ne in Hs0 by lia.
          rewrite list_lookup_insert_ne in He0 by lia.
          rewrite list_lookup_insert_ne in Hg0 by lia.
          apply (Hg1 a s0 e0 g0); [lia | assumption ..].
      - intros a e0 s0 Ha He0 Hs0.
        destruct (Nat.eq_dec (S a) (Z.to_nat i)) as [Heq | Hne].
        + rewrite Heq in Hs0. rewrite list_lookup_insert_eq in Hs0 by lia.
          injection Hs0 as <-.
          rewrite list_lookup_insert_ne in He0 by lia.
          apply Hprev; [lia |]. replace (Z.to_nat (i - 1)) with a by lia. exact He0.
        + rewrite list_lookup_insert_ne in Hs0 by lia.
          rewrite list_lookup_insert_ne in He0 by lia.
          apply (Hg2 a e0 s0); [lia | assumption ..]. }
    pinv;
      repeat match goal with
        | E : read binaryReader.ReadUint32 _ = Ok _ |- _ => apply read_ReadUint32_range in E
        | E : store _ _ _ = Ok _ |- _ =>
            let Hr := fresh "Hr" in destruct (store_ok _ _ _ _ E) as [Hr ->]; clear E
        | E : index _ _ = Ok _ |- _ => apply index_ok in E; destruct E as [_ E]
        | E : (_ <? _) = false |- _ => apply Z.ltb_ge in E
        | E : (_ <? _) = true |- _ => apply Z.ltb_lt in E
        | E : (_ <=? _) = false |- _ => apply Z.leb_gt in E
        | E : _ || _ = false |- _ => apply orb_false_iff in E; destruct E as [? ?]
        | E : SFNT.NumGlyphs sfnt = Ok _ |- _ => rewrite <- Hn in E; injection E as <-
        end;
      unfold uint32 in *;
      repeat match goal with
        | H : context [(?x - ?y) mod 2 ^ 32] |- _ =>
            rewrite (Z.mod_small (x - y) (2 ^ 32)) in H by lia
        end.
    + cbn [StartCharCode EndCharCode StartGlyphID].
      split; [rewrite !length_insert; auto |].
      apply Hstep; unfold len in *; try lia.
      intros _ prev Hp.
      match goal with
      | E : _ !! Z.to_nat (i - 1) = Some _ |- _ => rewrite Hp in E; injection E as ->
      end.
      lia.
    + cbn [StartCharCode EndCharCode StartGlyphID].
      split; [rewrite !length_insert; auto |].
      apply Hstep; unfold len in *; lia.
Qed.

Section Lookup.

Variables (groups : cmapFormat12.t) (numGlyphs : Z) (n : nat).
Hypothesis L1 : length (StartCharCode groups) = n.
Hypothesis L2 : length (EndCharCode groups) = n.
Hypothesis L3 : length (StartGlyphID groups) = n.
Hypothesis Hdecoded : groupsDecoded numGlyphs (Z.of_nat n) groups.
Hypothesis HnumGlyphs : 0 <= numGlyphs < 65536.

(** A group ends before every later group starts. *)
Lemma groups_ordered (a b : nat) (e s : Z) :
  (a < b)%nat -> EndCharCode groups !! a = Some e -> StartCharCode groups !! b = Some s ->
  e < s.
Proof.
  destruct Hdecoded as [Hg1 Hg2].
  revert s. induction b as [| b IH]; intros s Hab He Hs; [lia |].
  pose proof (lookup_lt_Some _ _ _ Hs) as Hb.
  destruct (Nat.eq_dec a b) as [<- | Hne].
  - apply (Hg2 a e s); [lia | exact He | exact Hs].
  - destruct (lookup_lt_is_Some_2 (StartCharCode groups) b) as [sb Hsb]; [lia |].
    destruct (lookup_lt_is_Some_2 (EndCharCode groups) b) as [eb Heb]; [lia |].
    destruct (lookup_lt_is_Some_2 (StartGlyphID groups) b) as [gb Hgb]; [lia |].
    pose proof (IH sb ltac:(lia) He Hsb) as H1.
    pose proof (Hg1 b sb eb gb ltac:(lia) Hsb Heb Hgb) as H2.
    pose proof (Hg2 b eb s ltac:(lia) Heb Hs) as H3.
    lia.
Qed.

(** The scan never leaves the lists, and a hit is a glyph of the font. *)
Lemma Get_from_safe (c : Z) :
  0 <= c < 2 ^ 31 ->
  forall (k : nat) (i : Z), 0 <= i -> (Z.to_nat i + k <= n)%nat ->
    exists (g : Z) (hit : bool),
      Get_from groups c k i = Ok (g, hit)
      /\ if hit then 0 <= g < numGlyphs else g = 0.
Proof.
  intros Hc. destruct Hdecoded as [Hg1 _].
  assert (Hu : uint32 c = c) by (unfold uint32; apply Z.mod_small; lia).
  induction k as [| k IH]; intros i Hi Hk.
  - exists 0, false. split; [reflexivity | reflexivity].
  - cbn [Get_from]. rewrite Hu.
    destruct (lookup_lt_is_Some_2 (StartCharCode groups) (Z.to_nat i)) as [s Hs]; [lia |].
    destruct (lookup_lt_is_Some_2 (EndCharCode groups) (Z.to_nat i)) as [e He]; [lia |].
    destruct (lookup_lt_is_Some_2 (StartGlyphID groups) (Z.to_nat i)) as [g Hg]; [lia |].
    pose proof (Hg1 (Z.to_nat i) s e g ltac:(lia) Hs He Hg) as Hgroup.
    unfold index. destruct (Z.ltb_spec i 0) as [? | _]; [lia |].
    rewrite He, Hs, Hg. cbn [bind].
    destruct (Z.leb_spec c e) as [Hle | Hgt]; [| apply IH; lia].
    destruct (Z.leb_spec s c) as [Hge | Hlt]; [| apply IH; lia].
    exists (uint16 (uint32 (uint32 (c - s) + g))), true. split; [reflexivity |].
    unfold uint16, uint32.
    rewrite (Z.mod_small (c - s)) by lia.
    rewrite (Z.mod_small (c - s + g) (2 ^ 32)) by lia.
    rewrite Z.mod_small by lia. lia.
Qed.

(** A character of group [a] is found in group [a]. *)
Lemma Get_from_hit (a : nat) (s e g c : Z) :
  StartCharCode groups !! a = Some s -> EndCharCode groups !! a = Some e ->
  StartGlyphID groups !! a = Some g -> s <= c <= e -> c < 2 ^ 31 ->
  forall (k : nat) (i : Z), 0 <= i <= Z.of_nat a -> (a < Z.to_nat i + k)%nat ->
    Get_from groups c k i = Ok (c - s + g, true).
Proof.
  intros Hs He Hg Hc Hc31.
  pose proof (lookup_lt_Some _ _ _ Hs) as Ha.
  destruct Hdecoded as [Hg1 _].
  pose proof (Hg1 a s e g ltac:(lia) Hs He Hg) as Hgroup.
  assert (Hu : uint32 c = c) by (unfold uint32; apply Z.mod_small; lia).
  induction k as [| k IH]; intros i Hi Hk; [lia |].
  cbn [Get_from]. rewrite Hu.
  destruct (lookup_lt_is_Some_2 (StartCharCode groups) (Z.to_nat i)) as [si Hsi]; [lia |].
  destruct (lookup_lt_is_Some_2 (EndCharCode groups) (Z.to_nat i)) as [ei Hei]; [lia |].
  unfold index. destruct (Z.ltb_spec i 0) as [? | _]; [lia |].
  rewrite Hei, Hsi. cbn [bind].
  destruct (Nat.eq_dec (Z.to_nat i) a) as [Heq | Hne].
  - rewrite Heq in *. rewrite Hs in Hsi. rewrite He in Hei.
    injection Hsi as <-. injection Hei as <-. rewrite Hg. cbn [bind].
    destruct (Z.leb_spec c e) as [_ | ?]; [| lia].
    destruct (Z.leb_spec s c) as [_ | ?]; [| lia].
    unfold uint16, uint32.
    rewrite (Z.mod_small (c - s)) by lia.
    rewrite (Z.mod_small (c - s + g) (2 ^ 32)) by lia.
    rewrite Z.mod_small by lia. reflexivity.
  - pose proof (groups_ordered (Z.to_nat i) a ei s ltac:(lia) Hei Hs) as Hord.
    destruct (Z.leb_spec c ei) as [? | _]; [lia |].
    apply IH; lia.
Qed.

End Lookup.

(** X6. A format-12 subtable that the decoder accepts answers every lookup
    without a panic, a hit is a glyph of the font, and every character of a
    decoded group maps to that group's glyph for it. *)
Theorem format12_lookups_in_font (sfnt : SFNT.t) (j : Z) (r : binaryReader.t)
    (subtable : cmapSubtable) (r' : binaryReader.t) (numGlyphs : Z) :
  SFNT.NumGlyphs sfnt = Ok numGlyphs -> 0 <= numGlyphs < 65536 ->
  SFNT.parseCmapFormat12 sfnt j r = Ok (subtable, r') ->
  exists groups : cmapFormat12.t,
    subtable = Format12 groups
    /\ (forall c : Z, - 2 ^ 31 <= c < 2 ^ 31 ->
          exists (g : Z) (hit : bool),
            cmapFormat12.Get groups c = Ok (g, hit)
            /\ if hit then 0 <= g < numGlyphs else g = 0)
    /\ (forall (a : nat) (s e g c : Z),
          StartCharCode groups !! a = Some s -> EndCharCode groups !! a = Some e ->
          StartGlyphID groups !! a = Some g -> s <= c <= e -> c < 2 ^ 31 ->
          cmapFormat12.Get groups c = Ok (c - s + g, true)).
Proof.
  intros Hn Hnr H.
  destruct (parseCmapFormat12_decoded _ _ _ _ _ _ Hn Hnr H)
    as (groups & n & -> & L1 & L2 & L3 & Hg).
  exists groups. split; [reflexivity |]. split.
  - intros c Hc. unfold cmapFormat12.Get.
    destruct (Z.ltb_spec c 0) as [Hneg | Hpos].
    + exists 0, false. split; reflexivity.
    + apply (Get_from_safe groups numGlyphs n L1 L2 L3 Hg Hnr c); [lia | lia |].
      rewrite L1. cbn. lia.
  - intros a s e g c Hs He Hgl Hc Hc31. unfold cmapFormat12.Get.
    pose proof (lookup_lt_Some _ _ _ Hs) as Ha.
    pose proof (proj1 Hg a s e g ltac:(lia) Hs He Hgl) as Hgroup.
    destruct (Z.ltb_spec c 0) as [Hneg | Hpos]; [lia |].
    apply (Get_from_hit groups numGlyphs n L1 L2 L3 Hg Hnr a s e g c Hs He Hgl Hc Hc31);
      [lia |]. rewrite L1. cbn. lia.
Qed.

(** The subtable of two groups in a font of five glyphs. *)
Lemma format12_lookups_in_font_witness :
  cmapFormat12.Get subtableTwoGroups 0x43 = Ok (3, true)
  /\ exists groups : cmapFormat12.t,
       Format12 subtableTwoGroups = Format12 groups
       /\ (forall c : Z, - 2 ^ 31 <= c < 2 ^ 31 ->
             exists (g : Z) (hit : bool),
               cmapFormat12.Get groups c = Ok (g, hit)
               /\ if hit then 0 <= g < 5 else g = 0)
       /\ (forall (a : nat) (s e g c : Z),
             StartCharCode groups !! a = Some s -> EndCharCode groups !! a = Some e ->
             StartGlyphID groups !! a = Some g -> s <= c <= e -> c < 2 ^ 31 ->
             cmapFormat12.Get groups c = Ok (c - s + g, true)).
Proof.
  split; [vm_compute; reflexivity |].
  apply (format12_lookups_in_font (decoding 0 5 ∅) 0 (newBinaryReader format12TwoGroups)
           (Format12 subtableTwoGroups)
           (binaryReader.mk format12TwoGroups 32) 5).
  - vm_compute. reflexivity.
  - lia.
  - vm_compute. reflexivity.
Defined.

End Format12.

Tactic Notation "name_of" constr(x) "is" ident(n) :=
  match goal with y : _ |- _ => constr_eq y x; rename y into n end.

(** Names the loop whose body mentions [c], and the list it returns. *)
Tactic Notation "loop_named" constr(c) ident(H) ident(n) :=
  match goal with
  | E : forRange _ _ ?b _ _ = Ok (?x, _) |- _ =>
      lazymatch b with context [c] => rename E into H; name_of x is n end
  end.

(** Turns the tests a successful decoder has passed into facts. *)
Ltac pclean :=
  repeat match goal with
    | E : read binaryReader.ReadUint32 _ = Ok _ |- _ => apply read_ReadUint32_range in E
    | E : read binaryReader.ReadUint16 _ = Ok _ |- _ => apply read_ReadUint16_range in E
    | E : store _ _ _ = Ok _ |- _ =>
        let Hr := fresh "Hr" in destruct (store_ok _ _ _ _ E) as [Hr ->]; clear E
    | E : index _ _ = Ok _ |- _ => apply index_ok in E; destruct E as [_ E]
    | E : negb _ = false |- _ => apply negb_false_iff in E
    | E : negb _ = true |- _ => apply negb_true_iff in E
    | E : (_ <? _) = false |- _ => apply Z.ltb_ge in E
    | E : (_ <? _) = true |- _ => apply Z.ltb_lt in E
    | E : (_ <=? _) = false |- _ => apply Z.leb_gt in E
    | E : (_ <=? _) = true |- _ => apply Z.leb_le in E
    | E : (_ =? _) = false |- _ => apply Z.eqb_neq in E
    | E : (_ =? _) = true |- _ => apply Z.eqb_eq in E
    | E : _ || _ = false |- _ => apply orb_false_iff in E; destruct E as [? ?]
    end.

(** ** cmap format 4: what a lookup in a decoded subtable returns *)

Section Format4.

Import cmapFormat4.

(** A loop that stores one checked value for each index. *)
Lemma forRange_stores {A : Type} (Q : nat -> A -> Prop)
    (body : Z -> list A -> parser (list A)) (n : nat) :
  (forall j t rj t' rj', 0 <= j < Z.of_nat n -> body j t rj = Ok (t', rj') ->
     exists v : A, t' = <[Z.to_nat j := v]> t /\ j < len t /\ Q (Z.to_nat j) v) ->
  forall (init : list A) (r : binaryReader.t) (s' : list A) (r' : binaryReader.t),
    forRange n 0 body init r = Ok (s', r') ->
    length s' = length init
    /\ forall (a : nat) (x : A), (a < n)%nat -> s' !! a = Some x -> Q a x.
Proof.
  intros Hbody init r s' r' H.
  apply (forRange_invariant
           (fun j t => length t = length init
                       /\ forall (a : nat) (x : A),
                            Z.of_nat a < j -> t !! a = Some x -> Q a x)) in H.
  - destruct H as [Hl Hq]. split; [exact Hl |].
    intros a x Ha. apply Hq. lia.
  - split; [reflexivity |]. intros a x Ha. lia.
  - intros j t rj t' rj' Hj [Hl Hq] Hb.
    destruct (Hbody j t rj t' rj' ltac:(lia) Hb) as (v & -> & Hlt & Hv).
    split; [now rewrite length_insert |].
    intros a x Ha Hx.
    destruct (Nat.eq_dec a (Z.to_nat j)) as [-> | Hne].
    + rewrite list_lookup_insert_eq in Hx by (unfold len in Hlt; lia).
      injection Hx as <-. exact Hv.
    + rewrite list_lookup_insert_ne in Hx by lia.
      apply (Hq a x); [lia | exact Hx].
Qed.

(** What the format-4 decoder has checked of the subtable it returns. *)
Lemma parseCmapFormat4_decoded (sfnt : SFNT.t) (j : Z) (r : binaryReader.t)
    (subtable : cmapSubtable) (r' : binaryReader.t) (numGlyphs : Z) :
  SFNT.NumGlyphs sfnt = Ok numGlyphs ->
  SFNT.parseCmapFormat4 sfnt j r = Ok (subtable, r') ->
  exists segments : cmapFormat4.t,
    subtable = Format4 segments /\ segmentsDecoded numGlyphs segments.
Proof.
  intros Hn H. symmetry in Hn. unfold SFNT.parseCmapFormat4 in H. pinv.
  loop_named "cmap: bad endCode in subtable %d" HendCodes endCodes.
  loop_named "cmap: bad startCode in subtable %d" HstartCodes startCodes.
  loop_named binaryReader.ReadInt16 HidDeltas idDeltas.
  loop_named "cmap: bad idRangeOffset in subtable %d" HidRangeOffsets idRangeOffsets.
  loop_named "cmap: bad glyphID in subtable %d" HglyphIdArray glyphIdArray.
  match type of HendCodes with forRange (Z.to_nat ?c) _ _ _ _ = _ => set (segCount := c) in * end.
  match type of HglyphIdArray with
  | forRange (Z.to_nat ?c) _ _ _ _ = _ => set (glyphIdArrayLength := c) in *
  end.
  apply (forRange_stores (fun _ x => 0 <= x < 65536)) in HendCodes.
  2:{ intros i t ri t' ri' Hi Hb. pinv; pclean; eexists;
        (split; [reflexivity |]); (split; [lia |]); assumption. }
  apply (forRange_stores
           (fun a s => 0 <= s
                       /\ (forall e, endCodes !! a = Some e -> s <= e)
                       /\ (forall a' p, a = S a' -> endCodes !! a' = Some p -> p < s)))
    in HstartCodes.
  2:{ intros i t ri t' ri' Hi Hb. pinv; pclean; eexists;
        (split; [reflexivity |]); (split; [lia |]);
        (split; [lia |]); split.
      - intros e He. congruence || (rewrite He in *; lia).
      - intros a' p Ha' Hp. replace (Z.to_nat (i - 1)) with a' in * by lia.
        rewrite Hp in *. match goal with E : Some _ = Some _ |- _ => injection E as <- end. lia.
      - intros e He. rewrite He in *.
        match goal with E : Some _ = Some _ |- _ => injection E as <- end. lia.
      - intros a' p Ha'. lia. }
  apply (forRange_stores (fun _ _ => True)) in HidDeltas.
  2:{ intros i t ri t' ri' Hi Hb. pinv; pclean; eexists;
        (split; [reflexivity |]); (split; [lia |]); exact I. }
  apply (forRange_stores
           (fun a o => o <> 0 -> forall e s,
                         endCodes !! a = Some e -> startCodes !! a = Some s ->
                         0 <= o / 2 + uint16 (e - s) - (segCount - Z.of_nat a)
                           < glyphIdArrayLength))
    in HidRangeOffsets.
  2:{ intros i t ri t' ri' Hi Hb. pinv; pclean; eexists;
        (split; [reflexivity |]); (split; [lia |]).
      - intros Ho e s He Hs.
        repeat match goal with
          | E1 : ?l !! ?k = Some _, E2 : ?l !! ?k = Some _ |- _ =>
              rewrite E1 in E2; injection E2 as <-
          end.
        rewrite Z2Nat.id by lia.
        match goal with
        | E : _ <= ?x < 65536 |- 0 <= ?x `div` 2 + ?u - ?d < _ =>
            assert (0 <= x / 2 < 32768)
              by (split; [apply Z.div_pos; lia | apply Z.div_lt_upper_bound; lia]);
            assert (0 <= u < 65536) by (unfold uint16; apply Z.mod_pos_bound; lia);
            assert (Hu : uint32 (x / 2 + u - d) = x / 2 + u - d)
              by (unfold uint32; apply Z.mod_small; lia)
        end.
        rewrite Hu in *. lia.
      - intros Ho. congruence. }
  apply (forRange_stores (fun _ g => 0 <= g < numGlyphs)) in HglyphIdArray.
  2:{ intros i t ri t' ri' Hi Hb. pinv; pclean.
      match goal with E : SFNT.NumGlyphs sfnt = Ok _ |- _ => rewrite <- Hn in E; injection E as <- end.
      eexists; (split; [reflexivity |]); (split; [lia |]). lia. }
  assert (Hseg : 0 <= segCount).
  { subst segCount. pclean. apply Z.div_pos; lia. }
  assert (Hgl : 0 <= glyphIdArrayLength).
  { subst glyphIdArrayLength. apply Z.div_pos; [| lia].
    unfold uint32. apply Z.mod_pos_bound. lia. }
  destruct HendCodes as [Le He]. destruct HstartCodes as [Ls Hs].
  destruct HidDeltas as [Ld _]. destruct HidRangeOffsets as [Lo Ho].
  destruct HglyphIdArray as [Lg Hg].
  unfold make in Le, Ls, Ld, Lo, Lg.
  rewrite length_replicate in Le. rewrite length_replicate in Ls.
  rewrite length_replicate in Ld. rewrite length_replicate in Lo.
  rewrite length_replicate in Lg.
  eexists. split; [reflexivity |].
  unfold segmentsDecoded. cbn [StartCode EndCode IdDelta IdRangeOffset GlyphIdArray].
  assert (Hstart : forall (a : nat) (s e : Z),
            startCodes !! a = Some s -> endCodes !! a = Some e -> 0 <= s <= e /\ e < 65536).
  { intros a s e Hs' He'.
    pose proof (lookup_lt_Some _ _ _ Hs') as Ha.
    destruct (Hs a s ltac:(lia) Hs') as (H1 & H2 & _).
    pose proof (He a e ltac:(lia) He') as H3.
    pose proof (H2 e He'). lia. }
  split; [lia |]. split; [lia |]. split; [lia |].
  split; [exact Hstart |]. split; [| split].
  - intros a e s He' Hs'.
    pose proof (lookup_lt_Some _ _ _ Hs') as Ha.
    destruct (Hs (S a) s ltac:(lia) Hs') as (_ & _ & H3).
    exact (H3 a e eq_refl He').
  - intros a s e o Hs' He' Ho' Hne.
    pose proof (lookup_lt_Some _ _ _ Hs') as Ha.
    pose proof (Ho a o ltac:(lia) Ho' Hne e s He' Hs') as H1.
    pose proof (Hstart a s e Hs' He') as H2.
    assert (Hu : uint16 (e - s) = e - s) by (unfold uint16; apply Z.mod_small; lia).
    rewrite Hu in H1. unfold len. rewrite Ls, Lg. lia.
  - intros a g Hg'.
    pose proof (lookup_lt_Some _ _ _ Hg') as Ha.
    apply (Hg a g); [lia | exact Hg'].
Qed.

Section Segments.

Variables (segments : cmapFormat4.t) (numGlyphs : Z).
Hypothesis Hdecoded : segmentsDecoded numGlyphs segments.

(** A segment ends before every later segment starts. *)
Lemma segments_ordered (a b : nat) (e s : Z) :
  (a < b)%nat -> EndCode segments !! a = Some e -> StartCode segments !! b = Some s ->
  e < s.
Proof.
  destruct Hdecoded as (L1 & _ & _ & Hse & Hadj & _).
  revert s. induction b as [| b IH]; intros s Hab He Hs; [lia |].
  pose proof (lookup_lt_Some _ _ _ Hs) as Hb.
  destruct (Nat.eq_dec a b) as [<- | Hne].
  - exact (Hadj a e s He Hs).
  - destruct (lookup_lt_is_Some_2 (StartCode segments) b) as [sb Hsb]; [lia |].
    destruct (lookup_lt_is_Some_2 (EndCode segments) b) as [eb Heb]; [lia |].
    pose proof (IH sb ltac:(lia) He Hsb) as H1.
    pose proof (Hse b sb eb Hsb Heb) as H2.
    pose proof (Hadj b eb s Heb Hs) as H3.
    lia.
Qed.

(** The scan passes the segments before the one that holds [c]. *)
Lemma Get_from_skip (a : nat) (s c n : Z) :
  StartCode segments !! a = Some s -> s <= c < 65536 ->
  forall (d : nat) (i : Z) (k : nat), 0 <= i -> (Z.to_nat i + d = a)%nat ->
    Get_from segments c n (d + k) i = Get_from segments c n k (Z.of_nat a).
Proof.
  intros Hs Hc.
  pose proof (lookup_lt_Some _ _ _ Hs) as Ha.
  destruct Hdecoded as (L1 & _ & _ & Hse & _).
  induction d as [| d IH]; intros i k Hi Hd.
  - cbn [Nat.add]. f_equal. lia.
  - cbn [Nat.add Get_from].
    destruct (lookup_lt_is_Some_2 (EndCode segments) (Z.to_nat i)) as [ei Hei]; [lia |].
    destruct (lookup_lt_is_Some_2 (StartCode segments) (Z.to_nat i)) as [si Hsi]; [lia |].
    pose proof (segments_ordered (Z.to_nat i) a ei s ltac:(lia) Hei Hs) as Hord.
    pose proof (Hse _ si ei Hsi Hei) as Hr.
    unfold index. destruct (Z.ltb_spec i 0) as [? | _]; [lia |].
    rewrite Hei. cbn [bind].
    assert (Hu : uint16 c = c) by (unfold uint16; apply Z.mod_small; lia).
    rewrite Hu.
    destruct (Z.leb_spec c ei) as [? | _]; [lia |].
    apply IH; lia.
Qed.

(** A character outside every segment is not mapped. *)
Lemma Get_from_miss (c n : Z) :
  0 <= c < 65536 ->
  (forall (a : nat) (s e : Z),
     StartCode segments !! a = Some s -> EndCode segments !! a = Some e -> c < s \/ e < c) ->
  forall (k : nat) (i : Z), 0 <= i ->
    (Z.to_nat i + k <= length (StartCode segments))%nat ->
    Get_from segments c n k i = Ok (0, false).
Proof.
  intros Hc Hout.
  destruct Hdecoded as (L1 & _).
  assert (Hu : uint16 c = c) by (unfold uint16; apply Z.mod_small; lia).
  induction k as [| k IH]; intros i Hi Hk; [reflexivity |].
  cbn [Get_from]. rewrite Hu.
  destruct (lookup_lt_is_Some_2 (EndCode segments) (Z.to_nat i)) as [ei Hei]; [lia |].
  destruct (lookup_lt_is_Some_2 (StartCode segments) (Z.to_nat i)) as [si Hsi]; [lia |].
  unfold index. destruct (Z.ltb_spec i 0) as [? | _]; [lia |].
  rewrite Hei, Hsi. cbn [bind].
  destruct (Z.leb_spec c ei) as [Hle | Hgt]; [| apply IH; lia].
  destruct (Z.leb_spec si c) as [Hge | Hlt]; [| apply IH; lia].
  destruct (Hout _ si ei Hsi Hei); lia.
Qed.

End Segments.

(** X7. What a lookup in a format-4 subtable that the decoder accepts
    returns: nothing for a character outside every segment; for a character
    of a segment with no range offset, the character plus the delta modulo
    65536; for a character of a segment with a range offset, the entry of
    the glyph array at an index that is never past the array and that is a
    glyph of the font, or an index-out-of-range panic when that index is
    negative. *)
Theorem format4_lookup_decoded (sfnt : SFNT.t) (j : Z) (r : binaryReader.t)
    (subtable : cmapSubtable) (r' : binaryReader.t) (numGlyphs : Z) :
  SFNT.NumGlyphs sfnt = Ok numGlyphs ->
  SFNT.parseCmapFormat4 sfnt j r = Ok (subtable, r') ->
  exists segments : cmapFormat4.t,
    subtable = Format4 segments
    /\ (forall c : Z,
          (forall (a : nat) (s e : Z),
             StartCode segments !! a = Some s -> EndCode segments !! a = Some e ->
             c < s \/ e < c) ->
          cmapFormat4.Get segments c = Ok (0, false))
    /\ (forall (a : nat) (s e d o c : Z),
          StartCode segments !! a = Some s -> EndCode segments !! a = Some e ->
          IdDelta segments !! a = Some d -> IdRangeOffset segments !! a = Some o ->
          s <= c <= e ->
          if o =? 0 then cmapFormat4.Get segments c = Ok (uint16 (uint16 d + c), true)
          else
            let idx := o / 2 + (c - s) - (len (StartCode segments) - Z.of_nat a) in
            idx < len (GlyphIdArray segments)
            /\ if idx <? 0 then cmapFormat4.Get segments c = Panic IndexOutOfRange
               else exists g : Z,
                      GlyphIdArray segments !! Z.to_nat idx = Some g
                      /\ 0 <= g < numGlyphs
                      /\ cmapFormat4.Get segments c = Ok (g, true)).
Proof.
  intros Hn H.
  destruct (parseCmapFormat4_decoded _ _ _ _ _ _ Hn H) as (segments & -> & Hd).
  exists segments. split; [reflexivity |]. split.
  - intros c Hout. unfold cmapFormat4.Get.
    destruct ((c <? 0) || (65536 <=? c)) eqn:Hc; [reflexivity |].
    apply orb_false_iff in Hc. destruct Hc as [Hc1 Hc2].
    apply Z.ltb_ge in Hc1. apply Z.leb_gt in Hc2.
    apply (Get_from_miss segments numGlyphs Hd c _ ltac:(lia) Hout); [lia |].
    unfold len. cbn. lia.
  - intros a s e d o c Hs He Hdl Ho Hc.
    pose proof Hd as (L1 & L2 & L3 & Hse & _ & Hidx & Hglyph).
    pose proof (Hse a s e Hs He) as Hr.
    pose proof (lookup_lt_Some _ _ _ Hs) as Ha.
    assert (Hget : cmapFormat4.Get segments c
                   = Get_from segments c (len (StartCode segments))
                       (S (length (StartCode segments) - S a)) (Z.of_nat a)).
    { unfold cmapFormat4.Get.
      destruct (Z.ltb_spec c 0) as [? | _]; [lia |].
      destruct (Z.leb_spec 65536 c) as [? | _]; [lia |]. cbn [orb].
      replace (Z.to_nat (len (StartCode segments)))
        with (a + S (length (StartCode segments) - S a))%nat by (unfold len; lia).
      apply (Get_from_skip segments numGlyphs Hd a s c _ Hs ltac:(lia)); [lia |].
      cbn. lia. }
    assert (Hu : uint16 c = c) by (unfold uint16; apply Z.mod_small; lia).
    assert (Hu' : uint16 (c - s) = c - s) by (unfold uint16; apply Z.mod_small; lia).
    cbn [Get_from] in Hget. unfold index in Hget.
    destruct (Z.ltb_spec (Z.of_nat a) 0) as [? | _]; [lia |].
    rewrite Nat2Z.id, He, Hs, Ho, Hu in Hget. cbn [bind] in Hget.
    destruct (Z.leb_spec c e) as [_ | ?]; [| lia].
    destruct (Z.leb_spec s c) as [_ | ?]; [| lia].
    destruct (Z.eqb_spec o 0) as [Hz | Hnz].
    + rewrite Hdl in Hget. exact Hget.
    + cbv zeta. rewrite Hu' in Hget.
      pose proof (Hidx a s e o Hs He Ho Hnz) as Hlast.
      split; [lia |].
      destruct (Z.ltb_spec (o / 2 + (c - s) - (len (StartCode segments) - Z.of_nat a)) 0)
        as [Hneg | Hpos].
      * exact Hget.
      * destruct (lookup_lt_is_Some_2 (GlyphIdArray segments)
                    (Z.to_nat (o / 2 + (c - s) - (len (StartCode segments) - Z.of_nat a))))
          as [g Hg]; [unfold len in *; lia |].
        exists g. split; [exact Hg |]. split; [exact (Hglyph _ g Hg) |].
        rewrite Hg in Hget. exact Hget.
Qed.

(** The subtable with a glyph array in a font of five glyphs: 0x42 is the
    glyph 4 of the array. *)
Lemma format4_lookup_decoded_witness :
  cmapFormat4.Get subtableGlyphArray 0x42 = Ok (4, true)
  /\ exists segments : cmapFormat4.t,
       Format4 subtableGlyphArray = Format4 segments
       /\ (forall c : Z,
             (forall (a : nat) (s e : Z),
                StartCode segments !! a = Some s -> EndCode segments !! a = Some e ->
                c < s \/ e < c) ->
             cmapFormat4.Get segments c = Ok (0, false))
       /\ (forall (a : nat) (s e d o c : Z),
             StartCode segments !! a = Some s -> EndCode segments !! a = Some e ->
             IdDelta segments !! a = Some d -> IdRangeOffset segments !! a = Some o ->
             s <= c <= e ->
             if o =? 0 then cmapFormat4.Get segments c = Ok (uint16 (uint16 d + c), true)
             else
               let idx := o / 2 + (c - s) - (len (StartCode segments) - Z.of_nat a) in
               idx < len (GlyphIdArray segments)
               /\ if idx <? 0 then cmapFormat4.Get segments c = Panic IndexOutOfRange
                  else exists g : Z,
                         GlyphIdArray segments !! Z.to_nat idx = Some g
                         /\ 0 <= g < 5
                         /\ cmapFormat4.Get segments c = Ok (g, true)).
Proof.
  split; [vm_compute; reflexivity |].
  apply (format4_lookup_decoded (decoding 0 5 ∅) 0 (newBinaryReader format4GlyphArray)
           (Format4 subtableGlyphArray)
           (binaryReader.mk format4GlyphArray 32) 5).
  - vm_compute. reflexivity.
  - vm_compute. reflexivity.
Defined.

End Format4.

(** ** glyf: the data of a glyph is cut out inside the table *)

Section GlyfGet.

Lemma readOffsets_nonneg (readOffset : binaryReader.t -> Z * binaryReader.t)
    (count : Z) (offsets : list Z) (r : binaryReader.t) (offsets' : list Z)
    (r' : binaryReader.t) :
  length offsets = Z.to_nat count ->
  SFNT.readOffsets readOffset count offsets r = Ok (offsets', r') ->
  forall (a : nat) (x : Z), offsets' !! a = Some x -> 0 <= x.
Proof.
  intros Hl H. unfold SFNT.readOffsets in H.
  apply (forRange_stores (fun _ x => 0 <= x)) in H.
  - destruct H as [Hl' Hq]. intros a x Hx.
    apply (Hq a x); [| exact Hx]. apply lookup_lt_Some in Hx. lia.
  - intros i t ri t' ri' Hi Hb. pinv; pclean; eexists;
      (split; [reflexivity |]); (split; [lia |]);
      unfold uint32; apply Z.mod_pos_bound; lia.
Qed.

Lemma parseLoca_nonneg (sfnt sfnt1 : SFNT.t) (offsets : list Z) :
  SFNT.parseLoca sfnt = Ok sfnt1 -> SFNT.Loca sfnt1 = Some (locaTable.mk offsets) ->
  forall (a : nat) (x : Z), offsets !! a = Some x -> 0 <= x.
Proof.
  unfold SFNT.parseLoca. intros H HL.
  destruct (SFNT.Tables sfnt !! "loca") as [b |]; [| discriminate].
  apply bind_ok in H. destruct H as (numGlyphs & _ & H). cbv zeta in H.
  apply bind_ok in H. destruct H as (fmt & _ & H).
  apply bind_ok in H. destruct H as (offsets' & E & H).
  injection H as <-. cbn in HL. injection HL as ->.
  assert (Hmake : length (make 0 (uint16 (numGlyphs + 1))) = Z.to_nat (uint16 (numGlyphs + 1)))
    by (unfold make; apply length_replicate).
  destruct (fmt =? 0).
  - destruct (negb _); [discriminate |].
    destruct (run_ok' _ _ _ E) as [r' E'].
    exact (readOffsets_nonneg _ _ _ _ _ _ Hmake E').
  - destruct (fmt =? 1).
    + destruct (negb _); [discriminate |].
      destruct (run_ok' _ _ _ E) as [r' E'].
      exact (readOffsets_nonneg _ _ _ _ _ _ Hmake E').
    + injection E as <-. intros a x Hx. unfold make in Hx.
      apply lookup_replicate in Hx. lia.
Qed.

(** Offsets that do not decrease from each one to the next do not decrease
    at all. *)
Lemma offsets_monotone (offsets : list Z) :
  (forall (i : nat) (x y : Z), offsets !! i = Some x -> offsets !! S i = Some y -> x <= y) ->
  forall (i j : nat) (x y : Z),
    (i <= j)%nat -> offsets !! i = Some x -> offsets !! j = Some y -> x <= y.
Proof.
  intros Hadj i j. induction j as [| j IH]; intros x y Hij Hx Hy.
  - replace i with 0%nat in Hx by lia. rewrite Hx in Hy. injection Hy as <-. lia.
  - destruct (Nat.eq_dec i (S j)) as [-> | Hne].
    + rewrite Hx in Hy. injection Hy as <-. lia.
    + destruct (lookup_lt_is_Some_2 offsets j) as [m Hm];
        [apply lookup_lt_Some in Hy; lia |].
      pose proof (IH x m ltac:(lia) Hx Hm). pose proof (Hadj j m y Hm Hy). lia.
Qed.

Lemma parseGlyf_ok (sfnt1 sfnt2 : SFNT.t) :
  SFNT.parseGlyf sfnt1 = Ok sfnt2 ->
  exists (glyf : list byte) (loca : locaTable.t),
    SFNT.Tables sfnt1 !! "glyf" = Some glyf
    /\ SFNT.Loca sfnt1 = Some loca
    /\ sfnt2 = SFNT.set_Glyf (glyfTable.mk glyf (Some loca)) sfnt1
    /\ 0 < len (locaTable.Offsets loca)
    /\ locaTable.Offsets loca !! Z.to_nat (len (locaTable.Offsets loca) - 1)
       = Some (uint32 (len glyf)).
Proof.
  unfold SFNT.parseGlyf. intros H.
  destruct (SFNT.Tables sfnt1 !! "glyf") as [glyf |]; [| discriminate].
  destruct (SFNT.Loca sfnt1) as [loca |]; [| discriminate].
  cbn [deref bind] in H.
  destruct (index (locaTable.Offsets loca) (len (locaTable.Offsets loca) - 1))
    as [lastOffset | |] eqn:Ei; try discriminate.
  cbn [bind] in H.
  destruct (Z.eqb_spec (uint32 (len glyf)) lastOffset) as [He | He]; [| discriminate].
  cbn [negb] in H. injection H as <-.
  destruct (index_ok _ _ _ Ei) as [Hpos Hlast].
  exists glyf, loca. do 3 (split; [reflexivity |]).
  split; [lia |]. rewrite He. exact Hlast.
Qed.

(** X8. After [parseLoca] and [parseGlyf], [glyfTable.Get] never panics:
    a glyph ID past the loca offsets has no data, and [Contour] reports
    it as a bad glyph ID; every other glyph ID gets the bytes of the glyf
    table between its two offsets, which lie in order inside the table,
    and [Contour] gives no outline when the two offsets are equal. *)
Theorem glyf_Get_inside_table (sfnt sfnt1 sfnt2 : SFNT.t) :
  SFNT.parseLoca sfnt = Ok sfnt1 ->
  SFNT.parseGlyf sfnt1 = Ok sfnt2 ->
  exists (glyf : glyfTable.t) (offsets : list Z),
    SFNT.Glyf sfnt2 = Some glyf
    /\ glyfTable.loca glyf = Some (locaTable.mk offsets)
    /\ forall glyphID : Z, 0 <= glyphID < 65536 ->
         if len offsets <=? glyphID + 1 then
           glyfTable.Get glyf glyphID = Ok None
           /\ forall (fuel : nat) (level : Z),
                glyfTable.Contour (S fuel) glyf glyphID level
                = Some (Err (Errorf "glyf: bad glyphID %v" [ArgInt glyphID]))
         else
           exists start end_ : Z,
             offsets !! Z.to_nat glyphID = Some start
             /\ offsets !! Z.to_nat (glyphID + 1) = Some end_
             /\ 0 <= start <= end_ /\ end_ <= len (glyfTable.data glyf)
             /\ glyfTable.Get glyf glyphID
                = Ok (Some (take (Z.to_nat (end_ - start))
                              (drop (Z.to_nat start) (glyfTable.data glyf))))
             /\ (start = end_ ->
                 forall (fuel : nat) (level : Z),
                   glyfTable.Contour (S fuel) glyf glyphID level = Some (Ok None)).
Proof.
  intros H1 H2.
  destruct (parseGlyf_ok _ _ H2) as (glyf & loca & HT & HL & -> & Hpos & Hlast).
  destruct loca as [offsets]. cbn [locaTable.Offsets] in Hpos, Hlast.
  pose proof (parseLoca_nonneg _ _ offsets H1 HL) as Hnn.
  destruct (parseLoca_ok _ _ H1) as (numGlyphs & offsets' & HN & -> & Hlen & Hs).
  cbn in HL. injection HL as ->.
  assert (Hcount : 0 <= uint16 (numGlyphs + 1) < 65536)
    by (unfold uint16; apply Z.mod_pos_bound; lia).
  assert (Hadj : forall (i : nat) (x y : Z),
            offsets !! i = Some x -> offsets !! S i = Some y -> x <= y).
  { intros i x y Hx Hy. apply (Hs i x y); [| exact Hx | exact Hy].
    apply lookup_lt_Some in Hy. lia. }
  assert (Hdata : uint32 (len glyf) <= len glyf).
  { unfold uint32. apply Z.mod_le; unfold len; lia. }
  exists (glyfTable.mk glyf (Some (locaTable.mk offsets))), offsets.
  split; [reflexivity |]. split; [reflexivity |].
  intros glyphID Hid.
  assert (HGet : glyfTable.Get (glyfTable.mk glyf (Some (locaTable.mk offsets))) glyphID
                 = if len offsets <=? glyphID + 1 then Ok None
                   else (start <- index offsets glyphID ;;
                         end_ <- index offsets (uint16 (glyphID + 1)) ;;
                         b <- slice glyf start end_ ;; Ok (Some b))) by reflexivity.
  destruct (Z.leb_spec (len offsets) (glyphID + 1)) as [Hout | Hin].
  - split; [exact HGet |]. intros fuel level. cbn [glyfTable.Contour].
    rewrite HGet. reflexivity.
  - assert (Hu : uint16 (glyphID + 1) = glyphID + 1).
    { unfold uint16. apply Z.mod_small. unfold len in *. lia. }
    destruct (lookup_lt_is_Some_2 offsets (Z.to_nat glyphID)) as [start Hstart];
      [unfold len in Hin; lia |].
    destruct (lookup_lt_is_Some_2 offsets (Z.to_nat (glyphID + 1))) as [end_ Hend];
      [unfold len in Hin; lia |].
    pose proof (Hnn _ _ Hstart) as Hs0.
    assert (Hse : start <= end_).
    { apply (Hadj (Z.to_nat glyphID) start end_ Hstart).
      replace (S (Z.to_nat glyphID)) with (Z.to_nat (glyphID + 1)) by lia. exact Hend. }
    assert (Hel : end_ <= uint32 (len glyf)).
    { apply (offsets_monotone offsets Hadj (Z.to_nat (glyphID + 1))
               (Z.to_nat (len offsets - 1)) end_ (uint32 (len glyf)));
        [unfold len in *; lia | exact Hend | exact Hlast]. }
    assert (HGet' : glyfTable.Get (glyfTable.mk glyf (Some (locaTable.mk offsets))) glyphID
                    = Ok (Some (take (Z.to_nat (end_ - start)) (drop (Z.to_nat start) glyf)))).
    { rewrite HGet, Hu. unfold index.
      destruct (Z.ltb_spec glyphID 0) as [? | _]; [lia |].
      destruct (Z.ltb_spec (glyphID + 1) 0) as [? | _]; [lia |].
      rewrite Hstart, Hend. cbn [bind]. unfold slice.
      destruct (Z.ltb_spec start 0) as [? | _]; [lia |].
      destruct (Z.ltb_spec end_ start) as [? | _]; [lia |].
      destruct (Z.ltb_spec (len glyf) end_) as [? | _]; [lia |].
      reflexivity. }
    exists start, end_. split; [exact Hstart |]. split; [exact Hend |].
    split; [lia |]. split; [cbn [glyfTable.data]; lia |].
    split; [exact HGet' |].
    intros <- fuel level. cbn [glyfTable.Contour]. rewrite HGet'.
    rewrite Z.sub_diag. cbn [Z.to_nat take]. reflexivity.
Qed.

(** The example file: the glyph 0 is empty, the glyph 1 has 29 bytes, and
    there is no glyph 5. *)
Lemma glyf_Get_inside_table_witness :
  SFNT.parseLoca decodingDemo = Ok (SFNT.set_Loca demoLocaTable decodingDemo)
  /\ SFNT.parseGlyf (SFNT.set_Loca demoLocaTable decodingDemo)
     = Ok (SFNT.set_Glyf demoGlyfTable (SFNT.set_Loca demoLocaTable decodingDemo))
  /\ exists (glyf : glyfTable.t) (offsets : list Z),
       SFNT.Glyf (SFNT.set_Glyf demoGlyfTable (SFNT.set_Loca demoLocaTable decodingDemo))
       = Some glyf
       /\ glyfTable.loca glyf = Some (locaTable.mk offsets)
       /\ forall glyphID : Z, 0 <= glyphID < 65536 ->
            if len offsets <=? glyphID + 1 then
              glyfTable.Get glyf glyphID = Ok None
              /\ forall (fuel : nat) (level : Z),
                   glyfTable.Contour (S fuel) glyf glyphID level
                   = Some (Err (Errorf "glyf: bad glyphID %v" [ArgInt glyphID]))
            else
              exists start end_ : Z,
                offsets !! Z.to_nat glyphID = Some start
                /\ offsets !! Z.to_nat (glyphID + 1) = Some end_
                /\ 0 <= start <= end_ /\ end_ <= len (glyfTable.data glyf)
                /\ glyfTable.Get glyf glyphID
                   = Ok (Some (take (Z.to_nat (end_ - start))
                                 (drop (Z.to_nat start) (glyfTable.data glyf))))
                /\ (start = end_ ->
                    forall (fuel : nat) (level : Z),
                      glyfTable.Contour (S fuel) glyf glyphID level = Some (Ok None)).
Proof.
  assert (H1 : SFNT.parseLoca decodingDemo = Ok (SFNT.set_Loca demoLocaTable decodingDemo))
    by (vm_compute; reflexivity).
  assert (H2 : SFNT.parseGlyf (SFNT.set_Loca demoLocaTable decodingDemo)
               = Ok (SFNT.set_Glyf demoGlyfTable
                       (SFNT.set_Loca demoLocaTable decodingDemo)))
    by (vm_compute; reflexivity).
  exact (conj H1 (conj H2 (glyf_Get_inside_table _ _ _ H1 H2))).
Defined.

End GlyfGet.

(** ** A parsed font has its tables decoded *)

Section Decoded.

(** A decoder of one table sets the field of that table and no other. *)
Ltac sets :=
  let H := fresh "H" in
  intros H;
  match type of H with
  | match SFNT.Tables ?s !! ?n with _ => _ end = _ =>
      destruct (SFNT.Tables s !! n); [| discriminate H]
  | _ => idtac
  end;
  repeat match type of H with
    | (if ?c then _ else _) = _ => destruct c; [discriminate H |]
    end;
  apply bind_ok in H;
  let v := fresh "v" in
  destruct H as (v & _ & H); injection H as <-; eexists; reflexivity.

Lemma parseHead_sets (s s' : SFNT.t) :
  SFNT.parseHead s = Ok s' -> exists v, s' = SFNT.set_Head v s.
Proof. unfold SFNT.parseHead. sets. Qed.

Lemma parseOS2_sets (s s' : SFNT.t) :
  SFNT.parseOS2 s = Ok s' -> exists v, s' = SFNT.set_OS2 v s.
Proof. unfold SFNT.parseOS2. sets. Qed.

Lemma parseCmap_sets (s s' : SFNT.t) :
  SFNT.parseCmap s = Ok s' -> exists v, s' = SFNT.set_Cmap v s.
Proof. unfold SFNT.parseCmap. sets. Qed.

Lemma parseKern_sets (s s' : SFNT.t) :
  SFNT.parseKern s = Ok s' -> exists v, s' = SFNT.set_Kern v s.
Proof. unfold SFNT.parseKern. sets. Qed.

Lemma parseName_sets (s s' : SFNT.t) :
  SFNT.parseName s = Ok s' -> exists v, s' = SFNT.set_Name v s.
Proof. unfold SFNT.parseName. sets. Qed.

Lemma parsePost_sets (names : list string) (s s' : SFNT.t) :
  SFNT.parsePost names s = Ok s' -> exists v, s' = SFNT.set_Post v s.
Proof. unfold SFNT.parsePost. sets. Qed.

Lemma parseMaxp_sets (s s' : SFNT.t) :
  SFNT.parseMaxp s = Ok s' -> exists v, s' = SFNT.set_Maxp v s.
Proof. unfold SFNT.parseMaxp. sets. Qed.

Lemma parseHhea_sets (s s' : SFNT.t) :
  SFNT.parseHhea s = Ok s' -> exists v, s' = SFNT.set_Hhea v s.
Proof. unfold SFNT.parseHhea. sets. Qed.

Lemma parseHmtx_sets (s s' : SFNT.t) :
  SFNT.parseHmtx s = Ok s' -> exists v, s' = SFNT.set_Hmtx v s.
Proof.
  intros H. destruct (parseHmtx_ok _ _ H) as (? & ? & v & _ & _ & -> & _). eauto.
Qed.

Lemma parseLoca_sets (s s' : SFNT.t) :
  SFNT.parseLoca s = Ok s' -> exists v, s' = SFNT.set_Loca v s.
Proof.
  intros H. destruct (parseLoca_ok _ _ H) as (? & v & _ & -> & _). eauto.
Qed.

Lemma parseGlyf_sets (s s' : SFNT.t) :
  SFNT.parseGlyf s = Ok s' -> exists v, s' = SFNT.set_Glyf v s.
Proof.
  intros H. destruct (parseGlyf_ok _ _ H) as (? & ? & _ & _ & -> & _). eauto.
Qed.

Tactic Notation "fields" hyp(H) :=
  cbn [SFNT.Tables SFNT.IsTrueType SFNT.IsCFF SFNT.set_Cmap SFNT.set_OS2 SFNT.set_Glyf
       SFNT.set_Hmtx SFNT.set_Kern SFNT.set_Name SFNT.set_Post SFNT.set_Loca
       SFNT.set_Head SFNT.set_Maxp SFNT.set_Hhea] in H.

Lemma missingTable_none (tables : gmap string (list byte)) (names : list string)
    (name : string) :
  missingTable tables names = None -> In name names ->
  bool_decide (is_Some (tables !! name)) = true.
Proof.
  unfold missingTable. intros H Hin.
  pose proof (find_none _ _ H name Hin) as Hf. cbv beta in Hf.
  now apply negb_false_iff in Hf.
Qed.

(** What [ParseSFNT] has done when it returns a font, from the end of the
    loop over the table records on. *)
Lemma parseFont_decoded (names : list string) (b : list byte) (sfntVersion : string)
    (tables : gmap string (list byte)) (sfnt : SFNT.t) :
  parseFont names b sfntVersion tables = Ok sfnt ->
  SFNT.Data sfnt = b /\ SFNT.Tables sfnt = tables
  /\ SFNT.IsCFF sfnt = String.eqb sfntVersion "OTTO"
  /\ (exists v, BigEndian_Uint32 (list_byte_of_string sfntVersion) = Ok v
                /\ SFNT.IsTrueType sfnt = (v =? 0x00010000))
  /\ is_Some (SFNT.Cmap sfnt) /\ is_Some (SFNT.Head sfnt) /\ is_Some (SFNT.Hhea sfnt)
  /\ is_Some (SFNT.Hmtx sfnt) /\ is_Some (SFNT.Maxp sfnt) /\ is_Some (SFNT.Name sfnt)
  /\ is_Some (SFNT.OS2 sfnt) /\ is_Some (SFNT.Post sfnt)
  /\ (SFNT.IsTrueType sfnt = true -> is_Some (SFNT.Glyf sfnt) /\ is_Some (SFNT.Loca sfnt))
  /\ (is_Some (SFNT.Kern sfnt) <-> is_Some (tables !! "kern")).
Proof.
  unfold parseFont. intros H.
  apply bind_ok in H. destruct H as (isTrueType & Htt & H).
  apply bind_ok in Htt. destruct Htt as (v & Hv & Htt). injection Htt as <-.
  cbv zeta in H. cbn [SFNT.IsTrueType SFNT.IsCFF] in H.
  destruct (missingTable tables _) eqn:Hmiss; [discriminate |].
  assert (Hreq : forall name,
            In name ["cmap"; "head"; "hhea"; "hmtx"; "maxp"; "name"; "OS/2"; "post"] ->
            bool_decide (is_Some (tables !! name)) = true).
  { intros name Hin. apply (missingTable_none _ _ _ Hmiss). apply in_or_app. now left. }
  assert (Htt2 : (v =? 0x00010000) = true ->
            bool_decide (is_Some (tables !! "glyf")) = true).
  { intros E. rewrite E in Hmiss. apply (missingTable_none _ _ _ Hmiss).
    apply in_or_app. right. cbn. auto. }
  clear Hmiss.
  repeat match type of H with
    | (if ?c then _ else _) = _ => destruct c; [discriminate H |]
    end.
  apply bind_ok in H. destruct H as (s1 & H1 & H).
  apply bind_ok in H. destruct H as (s2 & H2 & H).
  apply bind_ok in H. destruct H as (s3 & H3 & H).
  apply bind_ok in H. destruct H as (s4 & H4 & H).
  apply parseHead_sets in H1. destruct H1 as [head ->].
  apply parseMaxp_sets in H2. destruct H2 as [maxp ->].
  apply parseHhea_sets in H3. destruct H3 as [hhea ->].
  fields H4.
  unfold parseTables in H. cbv zeta in H.
  apply bind_ok in H. destruct H as (s5 & H5 & H).
  apply bind_ok in H. destruct H as (s6 & H6 & H).
  apply bind_ok in H. destruct H as (s7 & H7 & H).
  apply bind_ok in H. destruct H as (s8 & H8 & H).
  apply bind_ok in H. destruct H as (s9 & H9 & H).
  apply bind_ok in H. destruct H as (s10 & H10 & H).
  assert (HT4 : SFNT.Tables s4 = tables /\ SFNT.IsTrueType s4 = (v =? 0x00010000)
                /\ ((v =? 0x00010000) = true -> is_Some (SFNT.Loca s4))
                /\ exists loca, s4 = SFNT.mk b (String.eqb sfntVersion "OTTO")
                                      (v =? 0x00010000) tables None (Some head) (Some hhea)
                                      None (Some maxp) None None None None loca None).
  { destruct (v =? 0x00010000) eqn:E.
    - apply parseLoca_sets in H4. destruct H4 as [loca ->].
      cbn. split; [reflexivity |]. split; [reflexivity |]. split; [eauto | eauto].
    - injection H4 as <-. cbn. split; [reflexivity |]. split; [reflexivity |].
      split; [discriminate | eauto]. }
  destruct HT4 as (HT & HI & HL & loca & ->). clear H4 HT HI.
  fields H5. rewrite (Hreq "OS/2") in H5 by (cbn; auto 10).
  apply parseOS2_sets in H5. destruct H5 as [os2 ->].
  fields H6. rewrite (Hreq "cmap") in H6 by (cbn; auto 10).
  apply parseCmap_sets in H6. destruct H6 as [cmap ->].
  fields H7.
  assert (HG : SFNT.Tables s7 = tables
               /\ ((v =? 0x00010000) = true -> is_Some (SFNT.Glyf s7))
               /\ exists glyf, s7 = SFNT.mk b (String.eqb sfntVersion "OTTO")
                                     (v =? 0x00010000) tables (Some cmap) (Some head)
                                     (Some hhea) None (Some maxp) None (Some os2) None
                                     glyf loca None).
  { destruct (bool_decide (is_Some (tables !! "glyf"))) eqn:E.
    - apply parseGlyf_sets in H7. destruct H7 as [glyf ->]. cbn.
      split; [reflexivity |]. split; [eauto | eauto].
    - injection H7 as <-. cbn. split; [reflexivity |]. split; [| eauto].
      intros E'. discriminate (Htt2 E'). }
  destruct HG as (_ & HG & glyf & ->). clear H7.
  fields H8. rewrite (Hreq "hmtx") in H8 by (cbn; auto 10).
  apply parseHmtx_sets in H8. destruct H8 as [hmtx ->].
  fields H9.
  assert (HK : (is_Some (SFNT.Kern s9) <-> is_Some (tables !! "kern"))
               /\ exists kern, s9 = SFNT.mk b (String.eqb sfntVersion "OTTO")
                                     (v =? 0x00010000) tables (Some cmap) (Some head)
                                     (Some hhea) (Some hmtx) (Some maxp) None (Some os2)
                                     None glyf loca kern).
  { destruct (bool_decide (is_Some (tables !! "kern"))) eqn:E.
    - apply parseKern_sets in H9. destruct H9 as [kern ->]. cbn.
      apply bool_decide_eq_true in E. split; [| eauto]. split; eauto.
    - injection H9 as <-. cbn. apply bool_decide_eq_false in E. split; [| eauto].
      split; [intros [? ?]; discriminate | intros ?; contradiction]. }
  destruct HK as (HK & kern & ->). clear H9.
  fields H10. rewrite (Hreq "name") in H10 by (cbn; auto 10).
  apply parseName_sets in H10. destruct H10 as [name ->].
  fields H. rewrite (Hreq "post") in H by (cbn; auto 10).
  apply parsePost_sets in H. destruct H as [post ->].
  cbn. cbn in HK, HG, HL.
  do 12 (split; [solve [eauto] |]). split; [| exact HK].
  intros E. split; [apply HG | apply HL]; exact E.
Qed.

(** The version tag that the directory is read with is OTTO or 1.0. *)
Lemma parseDirectory_version (b b' : list byte) (sfntVersion : string)
    (tables : gmap string (list byte)) :
  parseDirectory b = (b', Ok (sfntVersion, tables)) ->
  if String.eqb sfntVersion "OTTO" then True
  else BigEndian_Uint32 (list_byte_of_string sfntVersion) = Ok 0x00010000.
Proof.
  unfold parseDirectory. intros H.
  destruct ((len b <? 12) || (MaxInt32 <? len b)); [discriminate |].
  destruct (binaryReader.ReadBytes 4 (newBinaryReader b)) as [versionBytes r].
  cbv zeta in H.
  assert (Hv : sfntVersion = string_of_bytes versionBytes).
  { destruct (if negb (String.eqb (string_of_bytes versionBytes) "OTTO") then _ else _)
      as [[|] | |]; try discriminate.
    destruct (binaryReader.ReadUint16 r) as [numTables r1].
    destruct (binaryReader.ReadUint16 r1) as [? r2].
    destruct (binaryReader.ReadUint16 r2) as [? r3].
    destruct (binaryReader.ReadUint16 r3) as [? r4].
    destruct (uint32 (len b) <? _); [discriminate |].
    destruct (parseTableRecords _ _) as [? [st | |]]; try discriminate.
    now injection H as _ <- _. }
  rewrite <- Hv in H.
  destruct (String.eqb sfntVersion "OTTO"); [exact I |].
  cbn [negb] in H.
  unfold string_of_bytes in Hv. rewrite Hv, list_byte_of_string_of_list_byte.
  destruct (BigEndian_Uint32 versionBytes) as [v | |]; try discriminate.
  cbn [bind] in H.
  destruct (Z.eqb_spec v 0x00010000) as [Heq | Hne].
  - rewrite Heq. reflexivity.
  - cbn [negb] in H. discriminate H.
Qed.

(** X9. A font that [ParseSFNT] returns holds the buffer as the call left
    it, is either CFF or TrueType and not both, has its cmap, head, hhea,
    hmtx, maxp, name, OS/2 and post tables decoded, its glyf and loca
    tables too when it is TrueType, and a kern table exactly when the file
    has one. *)
Theorem ParseSFNT_decodes_tables (macintoshGlyphNames : list string) (b : list byte)
    (sfnt : SFNT.t) :
  snd (ParseSFNT macintoshGlyphNames b) = Ok sfnt ->
  SFNT.Data sfnt = fst (ParseSFNT macintoshGlyphNames b)
  /\ SFNT.IsCFF sfnt = negb (SFNT.IsTrueType sfnt)
  /\ is_Some (SFNT.Cmap sfnt) /\ is_Some (SFNT.Head sfnt) /\ is_Some (SFNT.Hhea sfnt)
  /\ is_Some (SFNT.Hmtx sfnt) /\ is_Some (SFNT.Maxp sfnt) /\ is_Some (SFNT.Name sfnt)
  /\ is_Some (SFNT.OS2 sfnt) /\ is_Some (SFNT.Post sfnt)
  /\ (SFNT.IsTrueType sfnt = true -> is_Some (SFNT.Glyf sfnt) /\ is_Some (SFNT.Loca sfnt))
  /\ (is_Some (SFNT.Kern sfnt) <-> is_Some (SFNT.Tables sfnt !! "kern")).
Proof.
  unfold ParseSFNT. intros H.
  destruct (parseDirectory b) as [b' [[sfntVersion tables] | |]] eqn:Hd; try discriminate.
  cbn [fst snd] in *.
  pose proof (parseDirectory_version _ _ _ _ Hd) as Hver.
  destruct (parseFont_decoded _ _ _ _ _ H)
    as (HD & HT & HC & (v & Hv & HI) & H1 & H2 & H3 & H4 & H5 & H6 & H7 & H8 & HG & HK).
  split; [exact HD |]. split.
  - rewrite HC, HI. destruct (String.eqb_spec sfntVersion "OTTO") as [-> | Hne].
    + vm_compute in Hv. injection Hv as <-. reflexivity.
    + rewrite Hver in Hv. injection Hv as <-. reflexivity.
  - do 8 (split; [assumption |]). split; [exact HG |]. rewrite HT. exact HK.
Qed.

(** The example file is parsed: it is TrueType and has no kern table. *)
Lemma ParseSFNT_decodes_tables_witness :
  exists sfnt : SFNT.t,
    snd (ParseSFNT [] demoFont) = Ok sfnt
    /\ SFNT.IsTrueType sfnt = true /\ SFNT.Kern sfnt = None
    /\ SFNT.Data sfnt = fst (ParseSFNT [] demoFont)
    /\ SFNT.IsCFF sfnt = negb (SFNT.IsTrueType sfnt)
    /\ is_Some (SFNT.Cmap sfnt) /\ is_Some (SFNT.Head sfnt) /\ is_Some (SFNT.Hhea sfnt)
    /\ is_Some (SFNT.Hmtx sfnt) /\ is_Some (SFNT.Maxp sfnt) /\ is_Some (SFNT.Name sfnt)
    /\ is_Some (SFNT.OS2 sfnt) /\ is_Some (SFNT.Post sfnt)
    /\ (SFNT.IsTrueType sfnt = true -> is_Some (SFNT.Glyf sfnt) /\ is_Some (SFNT.Loca sfnt))
    /\ (is_Some (SFNT.Kern sfnt) <-> is_Some (SFNT.Tables sfnt !! "kern")).
Proof.
  destruct (snd (ParseSFNT [] demoFont)) as [sfnt | e | p] eqn:H.
  - exists sfnt. split; [reflexivity |].
    split; [| split; [| exact (ParseSFNT_decodes_tables [] demoFont sfnt H)]].
    + assert (E : (s <- snd (ParseSFNT [] demoFont) ;; Ok (SFNT.IsTrueType s)) = Ok true)
        by (vm_compute; reflexivity).
      rewrite H in E. now injection E.
    + assert (E : (s <- snd (ParseSFNT [] demoFont) ;; Ok (SFNT.Kern s)) = Ok None)
        by (vm_compute; reflexivity).
      rewrite H in E. now injection E.
  - exfalso.
    assert (E : (s <- snd (ParseSFNT [] demoFont) ;; Ok tt) = Ok tt)
      by (vm_compute; reflexivity).
    rewrite H in E. discriminate E.
  - exfalso.
    assert (E : (s <- snd (ParseSFNT [] demoFont) ;; Ok tt) = Ok tt)
      by (vm_compute; reflexivity).
    rewrite H in E. discriminate E.
Defined.

End Decoded.

(** ** Outlines: one flag and one coordinate pair for each point *)

Section Aligned.

Import glyfTable.

Lemma repeatFlag_length (i : Z) (n : nat) (j : Z) (st : list Z * list bool)
    (r : binaryReader.t) (st' : list Z * list bool) (r' : binaryReader.t) :
  forRange n j (repeatFlag i) st r = Ok (st', r') ->
  length (fst st') = length (fst st) /\ length (snd st') = length (snd st).
Proof.
  intros H.
  apply (forRange_invariant
           (fun _ t => length (fst t) = length (fst st)
                       /\ length (snd t) = length (snd st))) in H.
  - exact H.
  - split; reflexivity.
  - intros k [fl oc] rk t' rk' _ [Hf Ho] Hb. unfold repeatFlag in Hb.
    pinv; pclean. cbn [fst snd] in *. rewrite !length_insert. split; assumption.
Qed.

Lemma readFlags_length (glyphID numPoints : Z) :
  forall (k : nat) (i : Z) (st : list Z * list bool) (r : binaryReader.t)
    (st' : list Z * list bool) (r' : binaryReader.t),
    readFlags k glyphID numPoints i st r = Ok (st', r') ->
    length (fst st') = length (fst st) /\ length (snd st') = length (snd st).
Proof.
  induction k as [| k IH]; intros i st r st' r' H.
  - cbn in H. pinv. split; reflexivity.
  - cbn [readFlags] in H.
    destruct (i <? numPoints); [| pinv; split; reflexivity].
    unfold badTable in H. pinv; pclean;
      try match goal with
        | E : forRange _ _ _ _ _ = Ok _ |- _ =>
            apply repeatFlag_length in E; destruct E as [L1 L2]
        end;
      match goal with
      | E : readFlags _ _ _ _ _ _ = Ok _ |- _ => apply IH in E; destruct E as [L3 L4]
      end;
      cbn [fst snd] in *; rewrite ?length_insert in *; split; congruence.
Qed.

Lemma readCoordinates_length (glyphID short same : Z) (flags : list Z) (n : nat)
    (st : Z * list Z) (r : binaryReader.t) (st' : Z * list Z) (r' : binaryReader.t) :
  forRange n 0 (readCoordinate glyphID short same flags) st r = Ok (st', r') ->
  length (snd st') = length (snd st).
Proof.
  intros H.
  apply (forRange_invariant (fun _ t => length (snd t) = length (snd st))) in H.
  - exact H.
  - reflexivity.
  - intros k [x cs] rk t' rk' _ Hl Hb. unfold readCoordinate, badTableOrFlags in Hb.
    pinv; pclean; cbn [fst snd] in *; rewrite length_insert; assumption.
Qed.

Lemma simpleGlyph_aligned (glyphID numberOfContours xMin yMin xMax yMax : Z)
    (r : binaryReader.t) (contour : glyfContour.t) (r' : binaryReader.t) :
  simpleGlyph glyphID numberOfContours xMin yMin xMax yMax r = Ok (contour, r') ->
  glyfContour.GlyphID contour = glyphID /\ pointsAligned contour.
Proof.
  unfold simpleGlyph, badTable. intros H. pinv.
  match goal with
  | E : readFlags _ _ _ _ ?st _ = Ok (?st', _) |- _ =>
      apply readFlags_length in E; destruct E as [_ Lf]; destruct st' as [flags onCurve]
  end.
  pinv.
  repeat match goal with
    | E : forRange _ _ (readCoordinate _ _ _ _) _ _ = Ok _ |- _ =>
        apply readCoordinates_length in E
    end.
  cbn [fst snd] in *. unfold pointsAligned.
  cbn [glyfContour.GlyphID glyfContour.OnCurve glyfContour.XCoordinates
       glyfContour.YCoordinates].
  unfold make in *. rewrite length_replicate in *. rewrite length_replicate in Lf.
  split; [reflexivity |]. split; congruence.
Qed.

Lemma appendPoints_length (c : component) (sub : glyfContour.t) :
  forall (k : nat) (i : Z) (xs ys xs' ys' : list Z),
    appendPoints c sub k i xs ys = Ok (xs', ys') ->
    length xs' = (length xs + k)%nat /\ length ys' = (length ys + k)%nat.
Proof.
  induction k as [| k IH]; intros i xs ys xs' ys' H.
  - cbn in H. injection H as <- <-. split; lia.
  - cbn [appendPoints] in H.
    apply bind_ok in H. destruct H as (x & _ & H).
    apply bind_ok in H. destruct H as (y & _ & H).
    destruct (if negb (Z.land (flags c) 0x00C8 =? 0) then _ else _) as [x' y'].
    apply IH in H. rewrite !length_app in H. cbn [length] in H. lia.
Qed.

Lemma addComponent_aligned (contour : glyfContour.t) (c : component)
    (sub contour' : glyfContour.t) :
  pointsAligned contour -> pointsAligned sub ->
  addComponent contour c (Some sub) = Ok contour' ->
  glyfContour.GlyphID contour' = glyfContour.GlyphID contour /\ pointsAligned contour'.
Proof.
  intros [H1 H2] [H3 H4] H. unfold addComponent in H. cbv zeta in H.
  apply bind_ok in H. destruct H as (numPoints & _ & H).
  cbn [deref bind] in H.
  apply bind_ok in H. destruct H as ([xs ys] & Hxy & H).
  injection H as <-. apply appendPoints_length in Hxy. destruct Hxy as [Hx Hy].
  unfold pointsAligned.
  cbn [glyfContour.GlyphID glyfContour.OnCurve glyfContour.XCoordinates
       glyfContour.YCoordinates fst snd].
  rewrite length_app. split; [reflexivity |]. split; lia.
Qed.

(** The component loop keeps a contour aligned when the glyphs it resolves
    are. *)
Lemma components_aligned (rec : Z -> option (result (option glyfContour.t)))
    (glyphID : Z) :
  (forall subGlyphID sub, rec subGlyphID = Some (Ok (Some sub)) -> pointsAligned sub) ->
  forall (k : nat) (contour : glyfContour.t) (r : binaryReader.t)
    (contour' : glyfContour.t),
    pointsAligned contour ->
    components k rec glyphID contour r = Some (Ok contour') ->
    glyfContour.GlyphID contour' = glyfContour.GlyphID contour /\ pointsAligned contour'.
Proof.
  intros Hrec. induction k as [| k IH]; intros contour r contour' Ha H; [discriminate |].
  cbn [components] in H.
  destruct (readComponent glyphID r) as [[c r1] | |]; try discriminate.
  destruct (rec (subGlyphID c)) as [[subContour | |] |] eqn:Hsub; try discriminate.
  destruct (addComponent contour c subContour) as [contour1 | |] eqn:Hadd;
    try discriminate.
  destruct subContour as [sub |].
  - destruct (addComponent_aligned _ _ _ _ Ha (Hrec _ _ Hsub) Hadd) as [Hid Ha1].
    destruct (Z.land (flags c) 0x0020 =? 0).
    + injection H as <-. split; assumption.
    + destruct (IH _ _ _ Ha1 H) as [Hid' Ha']. split; [congruence | exact Ha'].
  - unfold addComponent in Hadd. cbv zeta in Hadd.
    destruct (if 0 <? len (glyfContour.EndPoints contour) then _ else _);
      cbn in Hadd; discriminate Hadd.
Qed.

(** X10. An outline that [Contour] returns carries the glyph ID it was
    asked for and has one on-curve flag and one x and one y coordinate for
    each of its points, for simple and for composite glyphs. *)
Theorem Contour_points_aligned (fuel : nat) (glyf : glyfTable.t) (glyphID level : Z)
    (contour : glyfContour.t) :
  Contour fuel glyf glyphID level = Some (Ok (Some contour)) ->
  glyfContour.GlyphID contour = glyphID
  /\ length (glyfContour.OnCurve contour) = length (glyfContour.XCoordinates contour)
  /\ length (glyfContour.YCoordinates contour) = length (glyfContour.XCoordinates contour).
Proof.
  change (Contour fuel glyf glyphID level = Some (Ok (Some contour)) ->
          glyfContour.GlyphID contour = glyphID /\ pointsAligned contour).
  revert glyphID level contour.
  induction fuel as [| fuel IH]; intros glyphID level contour H; [discriminate |].
  cbn [Contour] in H.
  destruct (Get glyf glyphID) as [[b |] | |]; try discriminate.
  destruct (len b =? 0); [discriminate |].
  destruct (binaryReader.Len (newBinaryReader b) <? 10); [discriminate |].
  destruct (readHeader (newBinaryReader b)) as [[[[[numberOfContours xMin] yMin] xMax] yMax] r].
  destruct (0 <=? numberOfContours).
  - destruct (simpleGlyph glyphID numberOfContours xMin yMin xMax yMax r)
      as [[c r'] | |] eqn:Hs; try discriminate.
    injection H as <-. exact (simpleGlyph_aligned _ _ _ _ _ _ _ _ _ Hs).
  - destruct (7 <? level); [discriminate |].
    destruct (components _ _ _ _ _) as [[c | |] |] eqn:Hc; try discriminate.
    injection H as <-.
    apply components_aligned in Hc.
    + exact Hc.
    + intros subGlyphID sub Hsub. exact (proj2 (IH _ _ _ Hsub)).
    + split; reflexivity.
Qed.

(** The triangle of the example file: three points. *)
Lemma Contour_points_aligned_witness :
  exists contour : glyfContour.t,
    Contour 1 demoGlyfTable 1 0 = Some (Ok (Some contour))
    /\ length (glyfContour.XCoordinates contour) = 3%nat
    /\ glyfContour.GlyphID contour = 1
    /\ length (glyfContour.OnCurve contour) = length (glyfContour.XCoordinates contour)
    /\ length (glyfContour.YCoordinates contour)
       = length (glyfContour.XCoordinates contour).
Proof.
  eexists. split; [vm_compute; reflexivity |].
  split; [reflexivity |].
  apply (Contour_points_aligned 1 demoGlyfTable 1 0). vm_compute. reflexivity.
Defined.

End Aligned.

(** ** cmap formats 0 and 6: the byte table and the trimmed table *)

Section Format0.

Lemma length_copy {A : Type} (dst src : list A) : length (copy dst src) = length dst.
Proof. unfold copy. rewrite length_app, length_take, length_drop. lia. Qed.

(** X11. A format-0 subtable that the decoder accepts has 256 glyph IDs,
    maps every character from 0 to 255 to its entry, which is a glyph of
    the font, and maps no other character. *)
Theorem format0_lookups_in_font (sfnt : SFNT.t) (j : Z) (r : binaryReader.t)
    (subtable : cmapSubtable) (r' : binaryReader.t) (numGlyphs : Z) :
  SFNT.NumGlyphs sfnt = Ok numGlyphs ->
  SFNT.parseCmapFormat0 sfnt j r = Ok (subtable, r') ->
  exists glyphs : cmapFormat0.t,
    subtable = Format0 glyphs
    /\ length (cmapFormat0.GlyphIdArray glyphs) = 256%nat
    /\ forall c : Z,
         if (0 <=? c) && (c <? 256) then
           exists g : Z,
             cmapFormat0.GlyphIdArray glyphs !! Z.to_nat c = Some g
             /\ cmapFormat0.Get glyphs c = Ok (uint16 g, true)
             /\ 0 <= uint16 g < numGlyphs
         else cmapFormat0.Get glyphs c = Ok (0, false).
Proof.
  intros Hn H. symmetry in Hn. unfold SFNT.parseCmapFormat0 in H. pinv.
  match goal with E : SFNT.NumGlyphs sfnt = Ok _ |- _ => rewrite <- Hn in E; injection E as <- end.
  match goal with
  | E : existsb _ ?arr = false |- _ => set (glyphIdArray := arr) in *; rename E into Hall
  end.
  assert (Hlen : length glyphIdArray = 256%nat).
  { subst glyphIdArray. rewrite length_copy. unfold make. now rewrite length_replicate. }
  eexists. split; [reflexivity |]. cbn [cmapFormat0.GlyphIdArray].
  split; [exact Hlen |].
  intros c. unfold cmapFormat0.Get. cbn [cmapFormat0.GlyphIdArray].
  destruct ((0 <=? c) && (c <? 256)) eqn:Hc.
  2:{ apply andb_false_iff in Hc.
      destruct (Z.ltb_spec c 0) as [? | Hc0]; [reflexivity |].
      destruct (Z.leb_spec 256 c) as [? | Hc1]; [reflexivity |].
      destruct Hc as [Hc | Hc]; [apply Z.leb_gt in Hc | apply Z.ltb_ge in Hc]; lia. }
  apply andb_true_iff in Hc. destruct Hc as [Hc0 Hc1].
  apply Z.leb_le in Hc0. apply Z.ltb_lt in Hc1.
  destruct (Z.ltb_spec c 0) as [? | _]; [lia |].
  destruct (Z.leb_spec 256 c) as [? | _]; [lia |]. cbn [orb].
  destruct (lookup_lt_is_Some_2 glyphIdArray (Z.to_nat c)) as [g Hg]; [lia |].
  exists g. split; [exact Hg |].
  assert (Hnth : nth (Z.to_nat c) glyphIdArray 0 = g).
  { apply nth_lookup_Some with (d := 0) in Hg. exact Hg. }
  rewrite Hnth. split; [reflexivity |].
  split; [unfold uint16; apply Z.mod_pos_bound; lia |].
  assert (Hin : In g glyphIdArray).
  { rewrite <- Hnth. apply nth_In. lia. }
  pose proof (existsb_exists (fun glyphID => numGlyphs <=? uint16 glyphID) glyphIdArray)
    as Hex.
  destruct (Z.leb_spec numGlyphs (uint16 g)) as [Hbad | Hok]; [| exact Hok].
  assert (Ht : existsb (fun glyphID => numGlyphs <=? uint16 glyphID) glyphIdArray = true).
  { apply Hex. exists g. split; [exact Hin |]. now apply Z.leb_le. }
  rewrite Ht in Hall. discriminate Hall.
Qed.

(** The byte table that maps 0x41 to the glyph 1 in a font of five glyphs. *)
Lemma format0_lookups_in_font_witness :
  cmapFormat0.Get subtableOneGlyph 0x41 = Ok (1, true)
  /\ exists glyphs : cmapFormat0.t,
       Format0 subtableOneGlyph = Format0 glyphs
       /\ length (cmapFormat0.GlyphIdArray glyphs) = 256%nat
       /\ forall c : Z,
            if (0 <=? c) && (c <? 256) then
              exists g : Z,
                cmapFormat0.GlyphIdArray glyphs !! Z.to_nat c = Some g
                /\ cmapFormat0.Get glyphs c = Ok (uint16 g, true)
                /\ 0 <= uint16 g < 5
            else cmapFormat0.Get glyphs c = Ok (0, false).
Proof.
  split; [vm_compute; reflexivity |].
  apply (format0_lookups_in_font (decoding 0 5 ∅) 0 (newBinaryReader format0OneGlyph)
           (Format0 subtableOneGlyph) (binaryReader.mk format0OneGlyph 258) 5).
  - vm_compute. reflexivity.
  - vm_compute. reflexivity.
Defined.

(** X12. A format-6 subtable that the decoder accepts maps the characters
    from its first code on, one for each entry, to the entries in order,
    and maps no other character; no lookup panics. *)
Theorem format6_lookup_decoded (j : Z) (r : binaryReader.t) (subtable : cmapSubtable)
    (r' : binaryReader.t) :
  SFNT.parseCmapFormat6 j r = Ok (subtable, r') ->
  exists glyphs : cmapFormat6.t,
    subtable = Format6 glyphs
    /\ 0 <= cmapFormat6.FirstCode glyphs < 65536
    /\ len (cmapFormat6.GlyphIdArray glyphs) < 65536
    /\ forall c : Z, - 2 ^ 31 <= c < 2 ^ 31 ->
         if (cmapFormat6.FirstCode glyphs <=? c)
            && (c <? cmapFormat6.FirstCode glyphs + len (cmapFormat6.GlyphIdArray glyphs))
         then
           exists g : Z,
             cmapFormat6.GlyphIdArray glyphs
               !! Z.to_nat (c - cmapFormat6.FirstCode glyphs) = Some g
             /\ cmapFormat6.Get glyphs c = Ok (g, true)
         else cmapFormat6.Get glyphs c = Ok (0, false).
Proof.
  intros H. unfold SFNT.parseCmapFormat6 in H. pinv.
  match goal with
  | E : forRange (Z.to_nat ?n) _ _ _ _ = Ok (?arr, _) |- _ =>
      apply forRange_length in E;
      [ unfold make in E; rewrite length_replicate in E; rename E into Hlen
      | intros i t ri t' ri' Hb; pinv; pclean; apply length_insert ]
  end.
  pclean.
  match goal with
  | |- exists _, Format6 (cmapFormat6.mk ?f ?a) = _ /\ _ =>
      set (firstCode := f) in *; set (glyphIdArray := a) in *
  end.
  eexists. split; [reflexivity |].
  cbn [cmapFormat6.FirstCode cmapFormat6.GlyphIdArray].
  assert (Hf : 0 <= firstCode < 65536) by assumption.
  assert (Hl : len glyphIdArray < 65536) by (unfold len; lia).
  split; [exact Hf |]. split; [exact Hl |].
  intros c Hc. unfold cmapFormat6.Get.
  cbn [cmapFormat6.FirstCode cmapFormat6.GlyphIdArray].
  assert (Hul : uint32 (len glyphIdArray) = len glyphIdArray)
    by (unfold uint32; apply Z.mod_small; unfold len in *; lia).
  assert (Huf : uint32 firstCode = firstCode) by (unfold uint32; apply Z.mod_small; lia).
  rewrite Hul, Huf.
  destruct (Z.leb_spec firstCode c) as [Hge | Hlt]; cbn [andb].
  - assert (Huc : uint32 c = c) by (unfold uint32; apply Z.mod_small; lia).
    assert (Hud : uint32 (c - firstCode) = c - firstCode)
      by (unfold uint32; apply Z.mod_small; lia).
    rewrite Huc, Hud.
    destruct (Z.ltb_spec c firstCode) as [? | _]; [lia |]. cbn [orb].
    destruct (Z.ltb_spec c (firstCode + len glyphIdArray)) as [Hin | Hout].
    + destruct (Z.leb_spec (len glyphIdArray) (c - firstCode)) as [? | _]; [lia |].
      destruct (lookup_lt_is_Some_2 glyphIdArray (Z.to_nat (c - firstCode))) as [g Hg];
        [unfold len in *; lia |].
      exists g. split; [exact Hg |]. unfold index.
      destruct (Z.ltb_spec (c - firstCode) 0) as [? | _]; [lia |].
      rewrite Hg. reflexivity.
    + destruct (Z.leb_spec (len glyphIdArray) (c - firstCode)) as [_ | ?]; [| lia].
      reflexivity.
  - destruct (Z.ltb_spec c firstCode) as [_ | ?]; [| lia]. reflexivity.
Qed.

(** The trimmed table of two glyphs from 0x41 on. *)
Lemma format6_lookup_decoded_witness :
  cmapFormat6.Get subtableTwoGlyphs 0x42 = Ok (2, true)
  /\ exists glyphs : cmapFormat6.t,
       Format6 subtableTwoGlyphs = Format6 glyphs
       /\ 0 <= cmapFormat6.FirstCode glyphs < 65536
       /\ len (cmapFormat6.GlyphIdArray glyphs) < 65536
       /\ forall c : Z, - 2 ^ 31 <= c < 2 ^ 31 ->
            if (cmapFormat6.FirstCode glyphs <=? c)
               && (c <? cmapFormat6.FirstCode glyphs
                        + len (cmapFormat6.GlyphIdArray glyphs))
            then
              exists g : Z,
                cmapFormat6.GlyphIdArray glyphs
                  !! Z.to_nat (c - cmapFormat6.FirstCode glyphs) = Some g
                /\ cmapFormat6.Get glyphs c = Ok (g, true)
            else cmapFormat6.Get glyphs c = Ok (0, false).
Proof.
  split; [vm_compute; reflexivity |].
  apply (format6_lookup_decoded 0 (newBinaryReader format6TwoGlyphs)
           (Format6 subtableTwoGlyphs) (binaryReader.mk format6TwoGlyphs 10)).
  vm_compute. reflexivity.
Defined.

End Format0.

(** ** post: every glyph ID has a name or the empty name *)

Section PostNames.

(** X13. After [parsePost], [GlyphName] answers every 16-bit glyph ID
    without a panic: the decoded name of the glyph, or the empty name for
    an ID past the decoded names. *)
Theorem GlyphName_total (macintoshGlyphNames : list string) (sfnt sfnt' : SFNT.t) :
  SFNT.parsePost macintoshGlyphNames sfnt = Ok sfnt' ->
  exists post : postTable.t,
    SFNT.Post sfnt' = Some post
    /\ len (postTable.GlyphName post) < 65536
    /\ forall glyphID : Z, 0 <= glyphID < 65536 ->
         if glyphID <? len (postTable.GlyphName post) then
           exists name : string,
             postTable.GlyphName post !! Z.to_nat glyphID = Some name
             /\ SFNT.GlyphName sfnt' glyphID = Ok name
         else SFNT.GlyphName sfnt' glyphID = Ok "".
Proof.
  unfold SFNT.parsePost. intros H.
  destruct (SFNT.Tables sfnt !! "post") as [b |]; [| discriminate].
  destruct (len b <? 32); [discriminate |].
  apply bind_ok in H. destruct H as (post & Hrun & H). injection H as <-.
  exists post. split; [reflexivity |].
  assert (Hlen : len (postTable.GlyphName post) < 65536).
  { apply run_ok' in Hrun. destruct Hrun as [r' Hrun]. pinv;
      cbn [postTable.GlyphName]; try (unfold len; cbn [length]; lia).
    match goal with
    | E : forRange (Z.to_nat ?n) _ _ _ _ = Ok (?names, _) |- _ =>
        apply forRange_length in E;
        [ unfold make in E; rewrite length_replicate in E; rename E into Hl
        | intros i t ri t' ri' Hb; pinv; pclean; apply length_insert ]
    end.
    pclean. unfold len. lia. }
  split; [exact Hlen |].
  intros glyphID Hid. unfold SFNT.GlyphName.
  cbn [SFNT.Post SFNT.set_Post deref bind]. unfold postTable.Get.
  assert (Hu : uint16 (len (postTable.GlyphName post)) = len (postTable.GlyphName post))
    by (unfold uint16; apply Z.mod_small; unfold len in *; lia).
  rewrite Hu.
  destruct (Z.ltb_spec glyphID (len (postTable.GlyphName post))) as [Hin | Hout].
  - destruct (Z.leb_spec (len (postTable.GlyphName post)) glyphID) as [? | _]; [lia |].
    destruct (lookup_lt_is_Some_2 (postTable.GlyphName post) (Z.to_nat glyphID))
      as [name Hname]; [unfold len in *; lia |].
    exists name. split; [exact Hname |]. unfold index.
    destruct (Z.ltb_spec glyphID 0) as [? | _]; [lia |].
    rewrite Hname. reflexivity.
  - destruct (Z.leb_spec (len (postTable.GlyphName post)) glyphID) as [_ | ?]; [| lia].
    reflexivity.
Qed.

(** The post table of two names: the glyph 1 is named A and there is no
    name for the glyph 2. *)
Lemma GlyphName_total_witness :
  SFNT.parsePost [".notdef"] decodingPost
  = Ok (SFNT.set_Post postTwoNamesTable decodingPost)
  /\ SFNT.GlyphName (SFNT.set_Post postTwoNamesTable decodingPost) 1 = Ok "A"
  /\ exists post : postTable.t,
       SFNT.Post (SFNT.set_Post postTwoNamesTable decodingPost) = Some post
       /\ len (postTable.GlyphName post) < 65536
       /\ forall glyphID : Z, 0 <= glyphID < 65536 ->
            if glyphID <? len (postTable.GlyphName post) then
              exists name : string,
                postTable.GlyphName post !! Z.to_nat glyphID = Some name
                /\ SFNT.GlyphName (SFNT.set_Post postTwoNamesTable decodingPost) glyphID
                   = Ok name
            else SFNT.GlyphName (SFNT.set_Post postTwoNamesTable decodingPost) glyphID
                 = Ok "".
Proof.
  assert (H : SFNT.parsePost [".notdef"] decodingPost
              = Ok (SFNT.set_Post postTwoNamesTable decodingPost))
    by (vm_compute; reflexivity).
  split; [exact H |]. split; [vm_compute; reflexivity |].
  exact (GlyphName_total _ _ _ H).
Defined.

End PostNames.

(** ** The tables of a parsed font are pieces of the file *)

Section Inside.

Lemma slice_ok {A : Type} (s : list A) (lo hi : Z) (t : list A) :
  slice s lo hi = Ok t ->
  0 <= lo <= hi /\ hi <= len s /\ t = take (Z.to_nat (hi - lo)) (drop (Z.to_nat lo) s).
Proof.
  unfold slice.
  destruct (Z.ltb_spec lo 0) as [? | ?]; [discriminate |].
  destruct (Z.ltb_spec hi lo) as [? | ?]; [discriminate |].
  destruct (Z.ltb_spec (len s) hi) as [? | ?]; [discriminate |].
  cbn [orb]. intros E. injection E as <-. repeat split; lia.
Qed.

(** A table record that is accepted adds a piece of the buffer under its
    tag. *)
Lemma parseTableRecord_table (st : directoryState) (b' : list byte)
    (st' : directoryState) :
  parseTableRecord st = (b', Ok st') ->
  exists (tag : string) (offset length : Z) (table : list byte),
    slice (dirData st') offset (offset + length) = Ok table
    /\ 0 <= length
    /\ dirTables st' = <[tag := table]> (dirTables st).
Proof.
  unfold parseTableRecord.
  destruct (binaryReader.ReadString 4 _) as [tag r1].
  destruct (binaryReader.ReadUint32 r1) as [checksum r2].
  destruct (binaryReader.ReadUint32 r2) as [offset r3].
  pose proof (ReadUint_nonneg 4 r3) as Hlen. fold binaryReader.ReadUint32 in Hlen.
  destruct (binaryReader.ReadUint32 r3) as [length r4]. cbn [fst] in Hlen.
  cbv zeta.
  destruct (_ || _ || _); [discriminate |].
  destruct (String.eqb tag "head" && (length <? 12)); [discriminate |].
  destruct (if String.eqb tag "head" then _ else Ok (0, dirData st))
    as [[checksumAdjustment b1] | |]; try discriminate.
  destruct (slice b1 offset (offset + length + _)) as [table1 | |]; try discriminate.
  destruct (negb (calcChecksum table1 =? checksum)); [discriminate |].
  destruct (if String.eqb tag "head" then _ else Ok b1) as [b2 | |]; try discriminate.
  destruct (slice b2 offset (offset + length)) as [table | |] eqn:Es; try discriminate.
  intros H. injection H as <- <-. cbn [dirData dirTables].
  exists tag, offset, length, table. repeat split; assumption.
Qed.

Lemma parseTableRecords_inside (k : nat) :
  forall (st : directoryState) (b' : list byte) (st' : directoryState),
    len (dirData st) <= MaxInt32 ->
    parseTableRecords k st = (b', Ok st') ->
    tablesInside (dirData st) (dirTables st) ->
    b' = dirData st /\ tablesInside (dirData st) (dirTables st').
Proof.
  induction k as [| k IH]; intros st b' st' Hmax H Hin; cbn [parseTableRecords] in H.
  - injection H as <- <-. split; [reflexivity | exact Hin].
  - destruct (parseTableRecord st) as [b1 [st1 | |]] eqn:E; try discriminate.
    destruct (parseTableRecord_frame st b1 (Ok st1) Hmax E) as [[Hb Hst] | Hres];
      [| discriminate Hres].
    specialize (Hst st1 eq_refl).
    destruct (parseTableRecord_table st b1 st1 E)
      as (tag & offset & n & table & Hs & Hl & Ht).
    rewrite Hst in Hs. apply slice_ok in Hs. destruct Hs as (Ho & Hhi & Htable).
    assert (Hin1 : tablesInside (dirData st1) (dirTables st1)).
    { rewrite Hst, Ht. intros tag' table' Hlook.
      apply lookup_insert_Some in Hlook.
      destruct Hlook as [[_ <-] | [_ Hlook]]; [| exact (Hin tag' table' Hlook)].
      assert (Hlt : length table = Z.to_nat n).
      { rewrite Htable, length_take, length_drop. unfold len in Hhi. lia. }
      exists offset. split; [lia |]. split; [unfold len in *; lia |].
      rewrite Hlt. rewrite Htable at 1. f_equal. lia. }
    rewrite <- Hst in Hmax.
    destruct (IH st1 b' st' Hmax H Hin1) as [Hb' Hin']. rewrite Hst in *.
    split; assumption.
Qed.

Lemma parseDirectory_inside (b b' : list byte) (sfntVersion : string)
    (tables : gmap string (list byte)) :
  parseDirectory b = (b', Ok (sfntVersion, tables)) ->
  b' = b /\ tablesInside b tables.
Proof.
  unfold parseDirectory.
  destruct (Z.ltb_spec (len b) 12) as [? | ?]; [discriminate |].
  destruct (Z.ltb_spec MaxInt32 (len b)) as [? | Hmax]; [discriminate |]. cbn [orb].
  destruct (binaryReader.ReadBytes 4 (newBinaryReader b)) as [versionBytes r].
  cbv zeta.
  destruct (if negb _ then _ else _) as [[|] | |]; try discriminate.
  destruct (binaryReader.ReadUint16 r) as [numTables r1].
  destruct (binaryReader.ReadUint16 r1) as [? r2].
  destruct (binaryReader.ReadUint16 r2) as [? r3].
  destruct (binaryReader.ReadUint16 r3) as [? r4].
  destruct (uint32 (len b) <? _); [discriminate |].
  destruct (parseTableRecords _ _) as [b1 [st | |]] eqn:E; try discriminate.
  intros E0. injection E0 as <- _ <-.
  apply parseTableRecords_inside in E; [exact E | exact Hmax |].
  intros tag table Hlook. cbn [dirTables] in Hlook.
  rewrite lookup_empty in Hlook. discriminate Hlook.
Qed.

(** X14. Every table of a font that [ParseSFNT] returns is a piece of the
    caller's buffer, which the font holds unchanged as its data: the bytes
    of the table are the bytes of the buffer from some offset on. *)
Theorem ParseSFNT_tables_inside (macintoshGlyphNames : list string) (b : list byte)
    (sfnt : SFNT.t) :
  snd (ParseSFNT macintoshGlyphNames b) = Ok sfnt ->
  SFNT.Data sfnt = b
  /\ forall (tag : string) (table : list byte),
       SFNT.Tables sfnt !! tag = Some table ->
       exists offset : Z,
         0 <= offset /\ offset + len table <= len b
         /\ table = take (length table) (drop (Z.to_nat offset) b).
Proof.
  unfold ParseSFNT. intros H.
  destruct (parseDirectory b) as [b' [[sfntVersion tables] | |]] eqn:Hd; try discriminate.
  cbn [snd] in H.
  destruct (parseDirectory_inside _ _ _ _ Hd) as [-> Hin].
  destruct (parseFont_decoded _ _ _ _ _ H) as (HD & HT & _).
  split; [exact HD |]. rewrite HT. exact Hin.
Qed.

(** The example file: its tables lie inside its 560 bytes. *)
Lemma ParseSFNT_tables_inside_witness :
  exists sfnt : SFNT.t,
    snd (ParseSFNT [] demoFont) = Ok sfnt
    /\ SFNT.Data sfnt = demoFont
    /\ forall (tag : string) (table : list byte),
         SFNT.Tables sfnt !! tag = Some table ->
         exists offset : Z,
           0 <= offset /\ offset + len table <= len demoFont
           /\ table = take (length table) (drop (Z.to_nat offset) demoFont).
Proof.
  destruct (snd (ParseSFNT [] demoFont)) as [sfnt | e | p] eqn:H.
  - exists sfnt. split; [reflexivity |].
    exact (ParseSFNT_tables_inside [] demoFont sfnt H).
  - exfalso.
    assert (E : (s <- snd (ParseSFNT [] demoFont) ;; Ok tt) = Ok tt)
      by (vm_compute; reflexivity).
    rewrite H in E. discriminate E.
  - exfalso.
    assert (E : (s <- snd (ParseSFNT [] demoFont) ;; Ok tt) = Ok tt)
      by (vm_compute; reflexivity).
    rewrite H in E. discriminate E.
Defined.

End Inside.

(** ** name: language tag records are never decoded *)

Section NameTags.

Import binaryReader.

Lemma pbind_read {A B : Type} (f : binaryReader.t -> A * binaryReader.t)
    (k : A -> parser B) (r : binaryReader.t) :
  pbind (read f) k r = k (fst (f r)) (snd (f r)).
Proof. unfold pbind, read. destruct (f r). reflexivity. Qed.

Lemma ReadUint16_at (b : list byte) (p : Z) :
  0 <= p -> p + 2 <= len b ->
  ReadUint16 (mk b p) = (be (take 2 (drop (Z.to_nat p) b)), mk b (p + 2)).
Proof.
  intros Hp Hl. unfold ReadUint16. rewrite ReadUint_enough by (unfold Len; cbn; lia).
  reflexivity.
Qed.

(** A loop whose turns each take [step] bytes and keep the list's length
    ends after the bytes of all its turns when the buffer holds them. *)
Lemma forRange_advances {A : Type} (body : Z -> list A -> parser (list A))
    (b : list byte) (step : Z) :
  0 <= step ->
  (forall i t p, 0 <= i < len t -> 0 <= p -> p + step <= len b ->
     exists t', body i t (mk b p) = Ok (t', mk b (p + step)) /\ length t' = length t) ->
  forall (k : nat) (i : Z) (t : list A) (p : Z),
    0 <= i -> i + Z.of_nat k <= len t -> 0 <= p -> p + step * Z.of_nat k <= len b ->
    exists t', forRange k i body t (mk b p) = Ok (t', mk b (p + step * Z.of_nat k))
               /\ length t' = length t.
Proof.
  intros Hstep Hbody. induction k as [| k IH]; intros i t p Hi Hk Hp Hl.
  - exists t. cbn. split; [| reflexivity]. unfold pret. do 3 f_equal. lia.
  - cbn [forRange]. unfold pbind.
    destruct (Hbody i t p ltac:(lia) Hp ltac:(nia)) as (t1 & -> & Hl1).
    destruct (IH (i + 1) t1 (p + step) ltac:(lia) ltac:(unfold len in *; lia)
                ltac:(lia) ltac:(nia)) as (t' & -> & Hl').
    exists t'. split; [do 3 f_equal; lia | congruence].
Qed.

(** X15. A name table of version 1 that announces at least one language
    tag record, and is long enough for the records it announces, makes
    [parseName] panic: the records are stored into a slice that was never
    made. *)
Theorem parseName_language_tags_panic (sfnt : SFNT.t) (b : list byte) :
  SFNT.Tables sfnt !! "name" = Some b -> len b <= MaxInt32 ->
  be (take 2 b) = 1 ->
  1 <= be (take 2 (drop (Z.to_nat (6 + 12 * be (take 2 (drop 2 b)))) b)) ->
  6 + 12 * be (take 2 (drop 2 b)) + 2
    + 4 * be (take 2 (drop (Z.to_nat (6 + 12 * be (take 2 (drop 2 b)))) b)) <= len b ->
  SFNT.parseName sfnt = Panic IndexOutOfRange.
Proof.
  intros HT Hmax Hversion.
  set (count := be (take 2 (drop 2 b))).
  set (langTagCount := be (take 2 (drop (Z.to_nat (6 + 12 * count)) b))).
  intros Htags Hlen.
  assert (Hcount : 0 <= count) by apply be_nonneg.
  assert (Hcount' : count < 65536).
  { subst count. pose proof (be_lt (take 2 (drop 2 b))) as H.
    apply Z.lt_le_trans with (1 := H). change 65536 with (256 ^ 2).
    apply Z.pow_le_mono_r; [lia |]. rewrite length_take. lia. }
  assert (Htags' : langTagCount < 65536).
  { subst langTagCount.
    pose proof (be_lt (take 2 (drop (Z.to_nat (6 + 12 * count)) b))) as H.
    apply Z.lt_le_trans with (1 := H). change 65536 with (256 ^ 2).
    apply Z.pow_le_mono_r; [lia |]. rewrite length_take. lia. }
  assert (Hu : forall x, 0 <= x <= len b -> uint32 x = x).
  { intros x Hx. unfold uint32, MaxInt32 in *. apply Z.mod_small. lia. }
  unfold SFNT.parseName. rewrite HT.
  destruct (Z.ltb_spec (len b) 6) as [? | _]; [lia |].
  unfold run, newBinaryReader.
  rewrite pbind_read, ReadUint16_at by lia. cbn [fst snd].
  change (drop (Z.to_nat 0) b) with b. rewrite Hversion.
  change (negb (1 =? 0) && negb (1 =? 1)) with false. cbv iota.
  rewrite pbind_read, ReadUint16_at by lia. cbn [fst snd].
  change (Z.to_nat (0 + 2)) with 2%nat. fold count.
  rewrite pbind_read, ReadUint16_at by lia. cbn [fst snd].
  rewrite (Hu (len b)), (Hu (6 + 12 * count)) by lia.
  destruct (Z.ltb_spec (len b) (6 + 12 * count)) as [? | _]; [lia |].
  unfold pbind at 1.
  match goal with
  | |- context [forRange (Z.to_nat count) 0 ?body ?init ?r] =>
      destruct (forRange_advances body b 12 ltac:(lia)) with
        (k := Z.to_nat count) (i := 0) (t := init) (p := 6) as (records & Hloop & _)
  end.
  - intros i t p Hi Hp Hl.
    repeat (rewrite pbind_read, ReadUint16_at by lia; cbn [fst snd]).
    unfold lift, store.
    destruct (Z.ltb_spec i 0) as [? | _]; [lia |].
    destruct (Z.leb_spec (len t) i) as [? | _]; [lia |]. cbn [orb].
    eexists. split; [do 3 f_equal; lia | apply length_insert].
  - lia.
  - unfold make, len. rewrite length_replicate. lia.
  - lia.
  - lia.
  - replace (0 + 2 + 2 + 2) with 6 by lia. rewrite Hloop.
    replace (6 + 12 * Z.of_nat (Z.to_nat count)) with (6 + 12 * count) by lia.
    unfold pbind at 1. change (1 =? 1) with true. cbv iota.
    rewrite (Hu (6 + 12 * count + 2)) by lia.
    destruct (Z.ltb_spec (len b) (6 + 12 * count + 2)) as [? | _]; [lia |].
    rewrite pbind_read, ReadUint16_at by lia. cbn [fst snd]. fold langTagCount.
    rewrite (Hu (6 + 12 * count + 2 + 4 * langTagCount)) by lia.
    destruct (Z.ltb_spec (len b) (6 + 12 * count + 2 + 4 * langTagCount)) as [? | _];
      [lia |].
    destruct (Z.to_nat langTagCount) as [| k] eqn:Hk; [lia |].
    cbn [forRange]. unfold pbind at 1.
    rewrite pbind_read. cbn [fst snd]. unfold pbind at 1. unfold lift at 1.
    reflexivity.
Qed.

(** The name table of version 1 with one language tag record. *)
Lemma parseName_language_tags_panic_witness :
  SFNT.parseName decodingName = Panic IndexOutOfRange.
Proof.
  apply (parseName_language_tags_panic decodingName nameOneLangTag).
  - vm_compute. reflexivity.
  - vm_compute. discriminate.
  - vm_compute. reflexivity.
  - vm_compute. discriminate.
  - vm_compute. discriminate.
Defined.

End NameTags.

(** ** loca and hmtx: the decoded values are the words of the table *)

Section Words.

Import binaryReader.

(** An invariant of a loop that also speaks of the reader. *)
Lemma forRange_invariant_reader {St : Type} (I : Z -> St -> binaryReader.t -> Prop)
    (body : Z -> St -> parser St) :
  forall (n : nat) (i : Z) (s : St) (r : binaryReader.t) (s' : St) (r' : binaryReader.t),
    I i s r ->
    (forall j t rj t' rj', i <= j < i + Z.of_nat n -> I j t rj ->
       body j t rj = Ok (t', rj') -> I (j + 1) t' rj') ->
    forRange n i body s r = Ok (s', r') ->
    I (i + Z.of_nat n) s' r'.
Proof.
  induction n as [| n IH]; intros i s r s' r' Hi Hstep H.
  - cbn in H. injection H as <- <-. now replace (i + Z.of_nat 0) with i by lia.
  - cbn [forRange] in H. unfold pbind in H.
    destruct (body i s r) as [[t rt] | |] eqn:E; try discriminate.
    replace (i + Z.of_nat (S n)) with ((i + 1) + Z.of_nat n) by lia.
    apply (IH (i + 1) t rt s' r').
    + apply (Hstep i s r t rt); [lia | exact Hi | exact E].
    + intros j u rj u' rj' Hj. apply Hstep. lia.
    + exact H.
Qed.

Lemma ReadUint_at (n : Z) (b : list byte) (p : Z) :
  0 <= p -> p + n <= len b ->
  ReadUint n (mk b p) = (be (take (Z.to_nat n) (drop (Z.to_nat p) b)), mk b (p + n)).
Proof.
  intros Hp Hl. rewrite ReadUint_enough by (unfold Len; cbn; lia). reflexivity.
Qed.

(** The loop of [parseLoca] over a table that holds [count] words of
    [width] bytes stores the words in order. *)
Lemma readOffsets_words (width : Z) (b : list byte) (count : Z) (offsets offsets' : list Z)
    (r' : binaryReader.t) :
  0 < width <= 4 -> 0 <= count -> width * count <= len b ->
  SFNT.readOffsets (ReadUint width) count offsets (newBinaryReader b) = Ok (offsets', r') ->
  forall i : nat, Z.of_nat i < count ->
    offsets' !! i = Some (be (take (Z.to_nat width) (drop (Z.to_nat (width * Z.of_nat i)) b))).
Proof.
  intros Hw Hc Hl H. unfold SFNT.readOffsets in H.
  apply (forRange_invariant_reader
           (fun j t rj =>
              rj = mk b (width * j)
              /\ forall i : nat, Z.of_nat i < j ->
                   t !! i = Some (be (take (Z.to_nat width)
                                        (drop (Z.to_nat (width * Z.of_nat i)) b))))) in H.
  - destruct H as [_ H]. intros i Hi. apply H. lia.
  - split; [unfold newBinaryReader; f_equal; lia | intros i Hi; lia].
  - intros j t rj t' rj' Hj [-> Hq] Hb. cbv beta in Hb.
    rewrite pbind_read in Hb. rewrite ReadUint_at in Hb by nia. cbn [fst snd] in Hb.
    pinv; pclean;
      (split; [f_equal; lia |]);
      intros i Hi;
      (destruct (Nat.eq_dec i (Z.to_nat j)) as [-> | Hne];
       [ rewrite list_lookup_insert_eq by (unfold len in *; lia);
         rewrite Z2Nat.id by lia; f_equal;
         unfold uint32; apply Z.mod_small; split; [apply be_nonneg |];
         match goal with
         | |- be ?bs < _ =>
             pose proof (be_lt bs) as Hlt; apply Z.lt_le_trans with (1 := Hlt);
             change (2 ^ 32) with (256 ^ 4); apply Z.pow_le_mono_r; [lia |];
             rewrite length_take; lia
         end
       | rewrite list_lookup_insert_ne by lia; apply Hq; lia ]).
Qed.

(** X16. When [parseLoca] succeeds on a font of fewer than 65535 glyphs
    with the short (0) or the long (1) offset format, the loca table holds
    exactly numGlyphs+1 words of 2 or 4 bytes and the decoded offsets are
    these words as they are stored, in order (a short offset is not
    doubled). *)
Theorem parseLoca_offsets_are_words (sfnt sfnt1 : SFNT.t) (b : list byte)
    (numGlyphs indexToLocFormat : Z) :
  SFNT.Tables sfnt !! "loca" = Some b -> len b <= MaxInt32 ->
  SFNT.NumGlyphs sfnt = Ok numGlyphs -> 0 <= numGlyphs < 65535 ->
  SFNT.IndexToLocFormat sfnt = Ok indexToLocFormat ->
  indexToLocFormat = 0 \/ indexToLocFormat = 1 ->
  SFNT.parseLoca sfnt = Ok sfnt1 ->
  let width := if indexToLocFormat =? 0 then 2 else 4 in
  exists offsets : list Z,
    SFNT.Loca sfnt1 = Some (locaTable.mk offsets)
    /\ len offsets = numGlyphs + 1
    /\ len b = width * (numGlyphs + 1)
    /\ forall i : nat, Z.of_nat i <= numGlyphs ->
         offsets !! i
         = Some (be (take (Z.to_nat width) (drop (Z.to_nat (width * Z.of_nat i)) b))).
Proof.
  intros HT Hmax HN Hg HF Hfmt H width.
  pose proof (len_nonneg b) as Hb0.
  assert (Hc : uint16 (numGlyphs + 1) = numGlyphs + 1)
    by (unfold uint16; apply Z.mod_small; lia).
  assert (Hc32 : uint32 (numGlyphs + 1) = numGlyphs + 1)
    by (unfold uint32; apply Z.mod_small; lia).
  assert (Hlb : uint32 (len b) = len b)
    by (unfold uint32, MaxInt32 in *; apply Z.mod_small; lia).
  unfold SFNT.parseLoca in H. rewrite HT, HN in H. cbn [bind] in H. cbv zeta in H.
  rewrite HF in H. cbn [bind] in H. rewrite Hc, Hc32, Hlb in H.
  apply bind_ok in H. destruct H as (offsets & E & H). injection H as <-.
  exists offsets. split; [reflexivity |].
  assert (Hmake : length (make 0 (numGlyphs + 1)) = Z.to_nat (numGlyphs + 1))
    by (unfold make; apply length_replicate).
  destruct Hfmt as [-> | ->]; subst width; cbn [Z.eqb] in *.
  - assert (Hu : uint32 (2 * (numGlyphs + 1)) = 2 * (numGlyphs + 1))
      by (unfold uint32; apply Z.mod_small; lia).
    rewrite Hu in E.
    destruct (Z.eqb_spec (len b) (2 * (numGlyphs + 1))) as [Hl | ?]; [| discriminate].
    cbn [negb] in E. apply run_ok' in E. destruct E as [r' E].
    change ReadUint16 with (ReadUint 2) in E.
    pose proof E as E'. apply readOffsets_sorted in E'; [| lia]. destruct E' as [Hlen _].
    split; [unfold len; lia |]. split; [exact Hl |].
    intros i Hi.
    apply (readOffsets_words 2 b (numGlyphs + 1) (make 0 (numGlyphs + 1)) offsets r');
      try lia. exact E.
  - assert (Hu : uint32 (4 * (numGlyphs + 1)) = 4 * (numGlyphs + 1))
      by (unfold uint32; apply Z.mod_small; lia).
    rewrite Hu in E.
    destruct (Z.eqb_spec (len b) (4 * (numGlyphs + 1))) as [Hl | ?]; [| discriminate].
    cbn [negb] in E. apply run_ok' in E. destruct E as [r' E].
    change ReadUint32 with (ReadUint 4) in E.
    pose proof E as E'. apply readOffsets_sorted in E'; [| lia]. destruct E' as [Hlen _].
    split; [unfold len; lia |]. split; [exact Hl |].
    intros i Hi.
    apply (readOffsets_words 4 b (numGlyphs + 1) (make 0 (numGlyphs + 1)) offsets r');
      try lia. exact E.
Qed.

(** The loca table of the example file: six short offsets. *)
Lemma parseLoca_offsets_are_words_witness :
  SFNT.parseLoca decodingDemo = Ok (SFNT.set_Loca demoLocaTable decodingDemo)
  /\ exists offsets : list Z,
       SFNT.Loca (SFNT.set_Loca demoLocaTable decodingDemo) = Some (locaTable.mk offsets)
       /\ len offsets = 5 + 1
       /\ len demoLoca = 2 * (5 + 1)
       /\ forall i : nat, Z.of_nat i <= 5 ->
            offsets !! i
            = Some (be (take (Z.to_nat 2) (drop (Z.to_nat (2 * Z.of_nat i)) demoLoca))).
Proof.
  assert (H : SFNT.parseLoca decodingDemo = Ok (SFNT.set_Loca demoLocaTable decodingDemo))
    by (vm_compute; reflexivity).
  split; [exact H |].
  apply (parseLoca_offsets_are_words decodingDemo
           (SFNT.set_Loca demoLocaTable decodingDemo) demoLoca 5 0).
  - vm_compute. reflexivity.
  - vm_compute. discriminate.
  - reflexivity.
  - lia.
  - reflexivity.
  - left. reflexivity.
  - exact H.
Defined.

Lemma ReadInt16_at (b : list byte) (p : Z) :
  0 <= p -> p + 2 <= len b ->
  ReadInt16 (mk b p) = (int16 (be (take 2 (drop (Z.to_nat p) b))), mk b (p + 2)).
Proof.
  intros Hp Hl. unfold ReadInt16. rewrite ReadUint_at by lia. reflexivity.
Qed.

(** X17. When [parseHmtx] succeeds, the hmtx table holds 4 bytes for each
    long metric and 2 bytes for each further glyph, and the decoded values
    are the words of the table in order: the advance and the signed left
    side bearing of each long metric, then the signed left side bearings. *)
Theorem parseHmtx_metrics_are_words (sfnt sfnt' : SFNT.t) (b : list byte)
    (numGlyphs numberOfHMetrics : Z) :
  SFNT.Tables sfnt !! "hmtx" = Some b -> len b <= MaxInt32 ->
  SFNT.NumGlyphs sfnt = Ok numGlyphs ->
  SFNT.NumberOfHMetrics sfnt = Ok numberOfHMetrics ->
  0 <= numberOfHMetrics <= numGlyphs -> numGlyphs < 65536 ->
  SFNT.parseHmtx sfnt = Ok sfnt' ->
  exists hmtx : hmtxTable.t,
    SFNT.Hmtx sfnt' = Some hmtx
    /\ len b = 4 * numberOfHMetrics + 2 * (numGlyphs - numberOfHMetrics)
    /\ (forall i : nat, Z.of_nat i < numberOfHMetrics ->
          hmtxTable.HMetrics hmtx !! i
          = Some (hmtxTable.mkMetric
                    (be (take 2 (drop (Z.to_nat (4 * Z.of_nat i)) b)))
                    (int16 (be (take 2 (drop (Z.to_nat (4 * Z.of_nat i + 2)) b))))))
    /\ (forall i : nat, Z.of_nat i < numGlyphs - numberOfHMetrics ->
          hmtxTable.LeftSideBearings hmtx !! i
          = Some (int16 (be (take 2 (drop (Z.to_nat (4 * numberOfHMetrics
                                                     + 2 * Z.of_nat i)) b))))).
Proof.
  intros HT Hmax HN HH Hn Hg H.
  pose proof (len_nonneg b) as Hb0.
  unfold SFNT.parseHmtx in H. rewrite HH, HN in H. cbn [bind] in H. cbv zeta in H.
  rewrite HT in H.
  assert (Hd : uint16 (numGlyphs - numberOfHMetrics) = numGlyphs - numberOfHMetrics)
    by (unfold uint16; apply Z.mod_small; lia).
  rewrite Hd in H.
  assert (Hlb : uint32 (len b) = len b)
    by (unfold uint32, MaxInt32 in *; apply Z.mod_small; lia).
  assert (Hu : uint32 (4 * numberOfHMetrics + 2 * (numGlyphs - numberOfHMetrics))
               = 4 * numberOfHMetrics + 2 * (numGlyphs - numberOfHMetrics))
    by (unfold uint32; apply Z.mod_small; lia).
  rewrite Hlb, Hu in H.
  destruct (Z.eqb_spec (len b) (4 * numberOfHMetrics + 2 * (numGlyphs - numberOfHMetrics)))
    as [Hl | ?]; [| discriminate].
  cbn [negb] in H.
  apply bind_ok in H. destruct H as (hmtx & Hrun & H). injection H as <-.
  exists hmtx. split; [reflexivity |]. split; [exact Hl |].
  apply run_ok' in Hrun. destruct Hrun as [r' Hrun].
  apply pbind_ok in Hrun. destruct Hrun as (hMetrics & r1 & H1 & Hrun).
  apply pbind_ok in Hrun. destruct Hrun as (leftSideBearings & r2 & H2 & Hrun).
  apply pret_ok in Hrun. destruct Hrun as [-> _].
  cbn [hmtxTable.HMetrics hmtxTable.LeftSideBearings].
  apply (forRange_invariant_reader
           (fun j t rj =>
              rj = mk b (4 * j)
              /\ forall i : nat, Z.of_nat i < j ->
                   t !! i
                   = Some (hmtxTable.mkMetric
                             (be (take 2 (drop (Z.to_nat (4 * Z.of_nat i)) b)))
                             (int16 (be (take 2 (drop (Z.to_nat (4 * Z.of_nat i + 2)) b)))))))
    in H1.
  2:{ split; [unfold newBinaryReader; f_equal; lia | intros i Hi; lia]. }
  2:{ intros j t rj t' rj' Hj [-> Hq] Hb. cbv beta in Hb.
      rewrite pbind_read, ReadUint16_at in Hb by lia. cbn [fst snd] in Hb.
      rewrite pbind_read, ReadInt16_at in Hb by lia. cbn [fst snd] in Hb.
      pinv; pclean. split; [f_equal; lia |].
      intros i Hi. destruct (Nat.eq_dec i (Z.to_nat j)) as [-> | Hne].
      - rewrite list_lookup_insert_eq by (unfold len in *; lia).
        rewrite Z2Nat.id by lia. reflexivity.
      - rewrite list_lookup_insert_ne by lia. apply Hq. lia. }
  cbv beta in H1. destruct H1 as [-> Hm].
  replace (0 + Z.of_nat (Z.to_nat numberOfHMetrics)) with numberOfHMetrics in * by lia.
  split; [exact Hm |].
  apply (forRange_invariant_reader
           (fun j t rj =>
              rj = mk b (4 * numberOfHMetrics + 2 * j)
              /\ forall i : nat, Z.of_nat i < j ->
                   t !! i
                   = Some (int16 (be (take 2 (drop (Z.to_nat (4 * numberOfHMetrics
                                                              + 2 * Z.of_nat i)) b))))))
    in H2.
  - cbv beta in H2. destruct H2 as [_ Hs]. intros i Hi. apply Hs. lia.
  - split; [f_equal; lia | intros i Hi; lia].
  - intros j t rj t' rj' Hj [-> Hq] Hb. cbv beta in Hb.
    rewrite pbind_read, ReadInt16_at in Hb by lia. cbn [fst snd] in Hb.
    pinv; pclean. split; [f_equal; lia |].
    intros i Hi. destruct (Nat.eq_dec i (Z.to_nat j)) as [-> | Hne].
    + rewrite list_lookup_insert_eq by (unfold len in *; lia).
      rewrite Z2Nat.id by lia. reflexivity.
    + rewrite list_lookup_insert_ne by lia. apply Hq. lia.
Qed.

(** The font of five glyphs and two long metrics. *)
Lemma parseHmtx_metrics_are_words_witness :
  SFNT.parseHmtx
    (SFNT.set_Hhea hheaTwoMetricsTable (SFNT.set_Maxp maxpFiveGlyphs decodingMetrics))
  = Ok (SFNT.set_Hmtx hmtxTwoMetricsTable
          (SFNT.set_Hhea hheaTwoMetricsTable (SFNT.set_Maxp maxpFiveGlyphs decodingMetrics)))
  /\ exists hmtx : hmtxTable.t,
       SFNT.Hmtx
         (SFNT.set_Hmtx hmtxTwoMetricsTable
            (SFNT.set_Hhea hheaTwoMetricsTable
               (SFNT.set_Maxp maxpFiveGlyphs decodingMetrics))) = Some hmtx
       /\ len hmtxTwoMetrics = 4 * 2 + 2 * (5 - 2)
       /\ (forall i : nat, Z.of_nat i < 2 ->
             hmtxTable.HMetrics hmtx !! i
             = Some (hmtxTable.mkMetric
                       (be (take 2 (drop (Z.to_nat (4 * Z.of_nat i)) hmtxTwoMetrics)))
                       (int16 (be (take 2 (drop (Z.to_nat (4 * Z.of_nat i + 2))
                                             hmtxTwoMetrics))))))
       /\ (forall i : nat, Z.of_nat i < 5 - 2 ->
             hmtxTable.LeftSideBearings hmtx !! i
             = Some (int16 (be (take 2 (drop (Z.to_nat (4 * 2 + 2 * Z.of_nat i))
                                          hmtxTwoMetrics))))).
Proof.
  assert (H : SFNT.parseHmtx
                (SFNT.set_Hhea hheaTwoMetricsTable
                   (SFNT.set_Maxp maxpFiveGlyphs decodingMetrics))
              = Ok (SFNT.set_Hmtx hmtxTwoMetricsTable
                      (SFNT.set_Hhea hheaTwoMetricsTable
                         (SFNT.set_Maxp maxpFiveGlyphs decodingMetrics))))
    by (vm_compute; reflexivity).
  split; [exact H |].
  apply (parseHmtx_metrics_are_words
           (SFNT.set_Hhea hheaTwoMetricsTable (SFNT.set_Maxp maxpFiveGlyphs decodingMetrics))
           (SFNT.set_Hmtx hmtxTwoMetricsTable
              (SFNT.set_Hhea hheaTwoMetricsTable
                 (SFNT.set_Maxp maxpFiveGlyphs decodingMetrics)))
           hmtxTwoMetrics 5 2).
  - vm_compute. reflexivity.
  - vm_compute. discriminate.
  - reflexivity.
  - reflexivity.
  - lia.
  - lia.
  - exact H.
Defined.

End Words.

(** ** hmtx and loca: tables of the right size are accepted *)

Section Accepted.

Import binaryReader.

(** A loop whose turn [i] reads [step] bytes at [base + step * i] and keeps
    an invariant runs to its end when the buffer holds the bytes of all its
    turns. *)
Lemma forRange_runs {A : Type} (I : Z -> list A -> Prop)
    (body : Z -> list A -> parser (list A)) (b : list byte) (step base n : Z) :
  0 <= step ->
  (forall i t, 0 <= i < n -> I i t -> base + step * (i + 1) <= len b ->
     exists t', body i t (mk b (base + step * i)) = Ok (t', mk b (base + step * (i + 1)))
                /\ I (i + 1) t') ->
  forall (k : nat) (i : Z) (t : list A),
    0 <= i -> i + Z.of_nat k = n -> I i t -> base + step * n <= len b ->
    exists t', forRange k i body t (mk b (base + step * i)) = Ok (t', mk b (base + step * n))
               /\ I n t'.
Proof.
  intros Hstep Hbody. induction k as [| k IH]; intros i t Hi Hk HI Hl.
  - exists t. cbn. split; [unfold pret; do 4 f_equal; lia |].
    now replace n with i by lia.
  - cbn [forRange]. unfold pbind.
    destruct (Hbody i t ltac:(lia) HI ltac:(nia)) as (t1 & -> & HI1).
    destruct (IH (i + 1) t1 ltac:(lia) ltac:(lia) HI1 Hl) as (t' & -> & HI').
    exists t'. split; [reflexivity | exact HI'].
Qed.

(** X18. With maxp and hhea decoded, [parseHmtx] accepts the hmtx table
    exactly when it has 4 bytes for each long metric and 2 bytes for each
    further glyph, and rejects any other length as a bad table; it never
    panics. *)
Theorem parseHmtx_accepts_by_length (sfnt : SFNT.t) (b : list byte)
    (numGlyphs numberOfHMetrics : Z) :
  SFNT.Tables sfnt !! "hmtx" = Some b -> len b <= MaxInt32 ->
  SFNT.NumGlyphs sfnt = Ok numGlyphs ->
  SFNT.NumberOfHMetrics sfnt = Ok numberOfHMetrics ->
  0 <= numberOfHMetrics <= numGlyphs -> numGlyphs < 65536 ->
  if len b =? 4 * numberOfHMetrics + 2 * (numGlyphs - numberOfHMetrics)
  then exists hmtx : hmtxTable.t, SFNT.parseHmtx sfnt = Ok (SFNT.set_Hmtx hmtx sfnt)
  else SFNT.parseHmtx sfnt = Err (Errorf "hmtx: bad table" []).
Proof.
  intros HT Hmax HN HH Hn Hg.
  pose proof (len_nonneg b) as Hb0.
  unfold SFNT.parseHmtx. rewrite HH, HN. cbn [bind]. cbv zeta. rewrite HT.
  assert (Hd : uint16 (numGlyphs - numberOfHMetrics) = numGlyphs - numberOfHMetrics)
    by (unfold uint16; apply Z.mod_small; lia).
  rewrite Hd.
  assert (Hlb : uint32 (len b) = len b)
    by (unfold uint32, MaxInt32 in *; apply Z.mod_small; lia).
  assert (Hu : uint32 (4 * numberOfHMetrics + 2 * (numGlyphs - numberOfHMetrics))
               = 4 * numberOfHMetrics + 2 * (numGlyphs - numberOfHMetrics))
    by (unfold uint32; apply Z.mod_small; lia).
  rewrite Hlb, Hu.
  destruct (Z.eqb_spec (len b) (4 * numberOfHMetrics + 2 * (numGlyphs - numberOfHMetrics)))
    as [Hl | Hl]; [| reflexivity].
  cbn [negb]. unfold run, newBinaryReader. unfold pbind at 1.
  match goal with
  | |- context [forRange (Z.to_nat numberOfHMetrics) 0 ?body ?init _] =>
      destruct (forRange_runs (fun _ t => len t = numberOfHMetrics) body b 4 0
                  numberOfHMetrics ltac:(lia)) with
        (k := Z.to_nat numberOfHMetrics) (i := 0) (t := init)
        as (hMetrics & Hrun & _)
  end.
  - intros i t Hi Ht Hlp.
    rewrite pbind_read, ReadUint16_at by lia. cbn [fst snd].
    rewrite pbind_read, ReadInt16_at by lia. cbn [fst snd].
    unfold lift, store.
    destruct (Z.ltb_spec i 0) as [? | _]; [lia |].
    destruct (Z.leb_spec (len t) i) as [? | _]; [lia |]. cbn [orb].
    eexists. split; [do 3 f_equal; lia |].
    unfold len. rewrite length_insert. exact Ht.
  - lia.
  - lia.
  - unfold make, len. rewrite length_replicate. lia.
  - lia.
  - replace (0 + 4 * 0) with 0 in Hrun by lia. rewrite Hrun.
    unfold pbind at 1.
    match goal with
    | |- context [forRange (Z.to_nat ?c) 0 ?body ?init ?r] =>
        destruct (forRange_runs (fun _ t => len t = c) body b 2 (0 + 4 * numberOfHMetrics)
                    c ltac:(lia)) with
          (k := Z.to_nat c) (i := 0) (t := init)
          as (leftSideBearings & Hrun2 & _)
    end.
    + intros i t Hi Ht Hlp.
      rewrite pbind_read, ReadInt16_at by lia. cbn [fst snd].
      unfold lift, store.
      destruct (Z.ltb_spec i 0) as [? | _]; [lia |].
      destruct (Z.leb_spec (len t) i) as [? | _]; [lia |]. cbn [orb].
      eexists. split; [do 3 f_equal; lia |].
      unfold len. rewrite length_insert. exact Ht.
    + lia.
    + lia.
    + unfold make, len. rewrite length_replicate. lia.
    + lia.
    + replace (0 + 4 * numberOfHMetrics + 2 * 0) with (0 + 4 * numberOfHMetrics)
        in Hrun2 by lia.
      rewrite Hrun2. cbn [bind]. eexists. reflexivity.
Qed.

(** The font of five glyphs and two long metrics: 14 bytes are accepted. *)
Lemma parseHmtx_accepts_by_length_witness :
  exists hmtx : hmtxTable.t,
    SFNT.parseHmtx
      (SFNT.set_Hhea hheaTwoMetricsTable (SFNT.set_Maxp maxpFiveGlyphs decodingMetrics))
    = Ok (SFNT.set_Hmtx hmtx
            (SFNT.set_Hhea hheaTwoMetricsTable
               (SFNT.set_Maxp maxpFiveGlyphs decodingMetrics))).
Proof.
  apply (parseHmtx_accepts_by_length
           (SFNT.set_Hhea hheaTwoMetricsTable (SFNT.set_Maxp maxpFiveGlyphs decodingMetrics))
           hmtxTwoMetrics 5 2).
  - vm_compute. reflexivity.
  - vm_compute. discriminate.
  - reflexivity.
  - reflexivity.
  - lia.
  - lia.
Defined.

(** The loop of [parseLoca] runs to its end over words that do not
    decrease. *)
Lemma readOffsets_runs (width : Z) (b : list byte) (count : Z) (offsets : list Z) :
  0 < width <= 4 -> len offsets = count -> width * count <= len b ->
  (forall i : nat, Z.of_nat i + 1 < count ->
     be (take (Z.to_nat width) (drop (Z.to_nat (width * Z.of_nat i)) b))
     <= be (take (Z.to_nat width) (drop (Z.to_nat (width * Z.of_nat (S i))) b))) ->
  exists (offsets' : list Z) (r' : binaryReader.t),
    SFNT.readOffsets (ReadUint width) count offsets (newBinaryReader b) = Ok (offsets', r').
Proof.
  intros Hw Hlen Hl Hsorted.
  pose proof (len_nonneg offsets) as Hc.
  assert (Hword : forall p, uint32 (be (take (Z.to_nat width) (drop (Z.to_nat p) b)))
                            = be (take (Z.to_nat width) (drop (Z.to_nat p) b))).
  { intros p. unfold uint32. apply Z.mod_small. split; [apply be_nonneg |].
    match goal with
    | |- be ?bs < _ =>
        pose proof (be_lt bs) as Hlt; apply Z.lt_le_trans with (1 := Hlt);
        change (2 ^ 32) with (256 ^ 4); apply Z.pow_le_mono_r; [lia |];
        rewrite length_take; lia
    end. }
  unfold SFNT.readOffsets, newBinaryReader.
  match goal with
  | |- context [forRange (Z.to_nat count) 0 ?body offsets _] =>
      destruct (forRange_runs
                  (fun j t =>
                     len t = count
                     /\ forall i : nat, Z.of_nat i < j ->
                          t !! i = Some (be (take (Z.to_nat width)
                                               (drop (Z.to_nat (width * Z.of_nat i)) b))))
                  body b width 0 count ltac:(lia)) with
        (k := Z.to_nat count) (i := 0) (t := offsets) as (offsets' & Hrun & _)
  end.
  - intros i t Hi [Ht Hq] Hlp.
    rewrite pbind_read, ReadUint_at by lia. cbn [fst snd].
    unfold pbind at 1. unfold lift at 1. unfold store.
    destruct (Z.ltb_spec i 0) as [? | _]; [lia |].
    destruct (Z.leb_spec (len t) i) as [? | _]; [lia |]. cbn [orb].
    rewrite Hword.
    replace (Z.to_nat (0 + width * i)) with (Z.to_nat (width * Z.of_nat (Z.to_nat i)))
      by lia.
    set (word := be (take (Z.to_nat width)
                       (drop (Z.to_nat (width * Z.of_nat (Z.to_nat i))) b))).
    assert (HI : len (<[Z.to_nat i := word]> t) = count
                 /\ forall a : nat, Z.of_nat a < i + 1 ->
                      <[Z.to_nat i := word]> t !! a
                      = Some (be (take (Z.to_nat width)
                                    (drop (Z.to_nat (width * Z.of_nat a)) b)))).
    { split; [unfold len; rewrite length_insert; exact Ht |].
      intros a Ha. destruct (Nat.eq_dec a (Z.to_nat i)) as [-> | Hne].
      - rewrite list_lookup_insert_eq by (unfold len in *; lia). reflexivity.
      - rewrite list_lookup_insert_ne by lia. apply Hq. lia. }
    exists (<[Z.to_nat i := word]> t). split; [| exact HI].
    unfold pbind at 1. unfold lift at 1.
    destruct (Z.ltb_spec 0 i) as [Hpos | Hzero].
    + unfold index. destruct (Z.ltb_spec (i - 1) 0) as [? | _]; [lia |].
      rewrite (proj2 HI (Z.to_nat (i - 1))) by lia. cbn [bind].
      pose proof (Hsorted (Z.to_nat (i - 1)) ltac:(lia)) as Hle.
      replace (S (Z.to_nat (i - 1))) with (Z.to_nat i) in Hle by lia.
      fold word in Hle.
      destruct (Z.ltb_spec word
                  (be (take (Z.to_nat width)
                         (drop (Z.to_nat (width * Z.of_nat (Z.to_nat (i - 1)))) b))))
        as [? | _]; [lia |].
      unfold pret. do 3 f_equal. lia.
    + unfold pret. do 3 f_equal. lia.
  - lia.
  - lia.
  - split; [exact Hlen | intros i Hi; lia].
  - lia.
  - replace (0 + width * 0) with 0 in Hrun by lia. eauto.
Qed.

(** X19. [parseLoca] accepts a loca table of short (0) or long (1) format
    for fewer than 65535 glyphs when it holds exactly numGlyphs+1 words
    that do not decrease from each one to the next, and it rejects a table
    of any other length as a bad table. *)
Theorem parseLoca_accepts_sorted (sfnt : SFNT.t) (b : list byte)
    (numGlyphs indexToLocFormat : Z) :
  SFNT.Tables sfnt !! "loca" = Some b -> len b <= MaxInt32 ->
  SFNT.NumGlyphs sfnt = Ok numGlyphs -> 0 <= numGlyphs < 65535 ->
  SFNT.IndexToLocFormat sfnt = Ok indexToLocFormat ->
  indexToLocFormat = 0 \/ indexToLocFormat = 1 ->
  let width := if indexToLocFormat =? 0 then 2 else 4 in
  if len b =? width * (numGlyphs + 1) then
    (forall i : nat, Z.of_nat i < numGlyphs ->
       be (take (Z.to_nat width) (drop (Z.to_nat (width * Z.of_nat i)) b))
       <= be (take (Z.to_nat width) (drop (Z.to_nat (width * Z.of_nat (S i))) b))) ->
    exists offsets : list Z,
      SFNT.parseLoca sfnt = Ok (SFNT.set_Loca (locaTable.mk offsets) sfnt)
  else SFNT.parseLoca sfnt = Err (Errorf "loca: bad table" []).
Proof.
  intros HT Hmax HN Hg HF Hfmt width.
  pose proof (len_nonneg b) as Hb0.
  assert (Hc : uint16 (numGlyphs + 1) = numGlyphs + 1)
    by (unfold uint16; apply Z.mod_small; lia).
  assert (Hc32 : uint32 (numGlyphs + 1) = numGlyphs + 1)
    by (unfold uint32; apply Z.mod_small; lia).
  assert (Hlb : uint32 (len b) = len b)
    by (unfold uint32, MaxInt32 in *; apply Z.mod_small; lia).
  assert (Hw : 0 < width <= 4) by (subst width; destruct (indexToLocFormat =? 0); lia).
  assert (Hu : uint32 (width * (numGlyphs + 1)) = width * (numGlyphs + 1))
    by (unfold uint32; apply Z.mod_small; nia).
  assert (Hmake : len (make 0 (numGlyphs + 1)) = numGlyphs + 1)
    by (unfold make, len; rewrite length_replicate; lia).
  unfold SFNT.parseLoca. rewrite HT, HN. cbn [bind]. cbv zeta.
  rewrite HF. cbn [bind]. rewrite Hc, Hc32, Hlb.
  destruct Hfmt as [-> | ->]; subst width; cbn [Z.eqb] in *; rewrite Hu.
  - destruct (Z.eqb_spec (len b) (2 * (numGlyphs + 1))) as [Hl | Hl]; [| reflexivity].
    cbn [negb]. intros Hsorted. change ReadUint16 with (ReadUint 2).
    destruct (readOffsets_runs 2 b (numGlyphs + 1) (make 0 (numGlyphs + 1))
                ltac:(lia) Hmake ltac:(lia)) as (offsets & r' & Hrun).
    + intros i Hi. apply Hsorted. lia.
    + unfold run. rewrite Hrun. cbn [bind]. eauto.
  - destruct (Z.eqb_spec (len b) (4 * (numGlyphs + 1))) as [Hl | Hl]; [| reflexivity].
    cbn [negb]. intros Hsorted. change ReadUint32 with (ReadUint 4).
    destruct (readOffsets_runs 4 b (numGlyphs + 1) (make 0 (numGlyphs + 1))
                ltac:(lia) Hmake ltac:(lia)) as (offsets & r' & Hrun).
    + intros i Hi. apply Hsorted. lia.
    + unfold run. rewrite Hrun. cbn [bind]. eauto.
Qed.

(** The loca table of the example file is accepted. *)
Lemma parseLoca_accepts_sorted_witness :
  exists offsets : list Z,
    SFNT.parseLoca decodingDemo = Ok (SFNT.set_Loca (locaTable.mk offsets) decodingDemo).
Proof.
  apply (parseLoca_accepts_sorted decodingDemo demoLoca 5 0).
  - vm_compute. reflexivity.
  - vm_compute. discriminate.
  - reflexivity.
  - lia.
  - reflexivity.
  - left. reflexivity.
  - intros i Hi.
    assert (Hcases : i = 0%nat \/ i = 1%nat \/ i = 2%nat \/ i = 3%nat \/ i = 4%nat) by lia.
    destruct Hcases as [-> | [-> | [-> | [-> | ->]]]]; vm_compute; discriminate.
Defined.

End Accepted.

(** ** cmap: the decoded subtables and the lookup through them *)

Section CmapLookup.

Lemma parseCmapFormat0_decoded (sfnt : SFNT.t) (j : Z) (r : binaryReader.t)
    (subtable : cmapSubtable) (r' : binaryReader.t) (numGlyphs : Z) :
  SFNT.NumGlyphs sfnt = Ok numGlyphs ->
  SFNT.parseCmapFormat0 sfnt j r = Ok (subtable, r') ->
  subtableDecoded numGlyphs subtable.
Proof.
  intros Hn H. symmetry in Hn. unfold SFNT.parseCmapFormat0 in H. pinv.
  match goal with E : SFNT.NumGlyphs sfnt = Ok _ |- _ => rewrite <- Hn in E; injection E as <- end.
  cbn [subtableDecoded cmapFormat0.GlyphIdArray].
  split; [rewrite length_copy; unfold make; now rewrite length_replicate |].
  intros g Hin.
  match goal with E : existsb _ ?arr = false |- _ => rename E into Hall end.
  destruct (Z.ltb_spec (uint16 g) numGlyphs) as [Hok | Hbad]; [exact Hok |].
  assert (Ht : existsb (fun glyphID => numGlyphs <=? uint16 glyphID)
                 (copy (make 0 256) (map byteZ v0)) = true).
  { apply existsb_exists. exists g. split; [exact Hin | now apply Z.leb_le]. }
  rewrite Ht in Hall. discriminate Hall.
Qed.

Lemma parseCmapSubtable_decoded (sfnt : SFNT.t) (j format : Z) (r : binaryReader.t)
    (subtable : cmapSubtable) (r' : binaryReader.t) (numGlyphs : Z) :
  SFNT.NumGlyphs sfnt = Ok numGlyphs -> 0 <= numGlyphs < 65536 ->
  SFNT.parseCmapSubtable sfnt j format r = Ok (Some subtable, r') ->
  subtableDecoded numGlyphs subtable.
Proof.
  intros Hn Hr H. unfold SFNT.parseCmapSubtable in H.
  destruct (format =? 0).
  { apply pbind_ok in H. destruct H as (s & r1 & Hs & H).
    apply pret_ok in H. destruct H as [H _]. injection H as <-.
    exact (parseCmapFormat0_decoded _ _ _ _ _ _ Hn Hs). }
  destruct (format =? 4).
  { apply pbind_ok in H. destruct H as (s & r1 & Hs & H).
    apply pret_ok in H. destruct H as [H _]. injection H as <-.
    destruct (parseCmapFormat4_decoded _ _ _ _ _ _ Hn Hs) as (segments & -> & Hd).
    exact Hd. }
  destruct (format =? 6).
  { apply pbind_ok in H. destruct H as (s & r1 & Hs & H).
    apply pret_ok in H. destruct H as [H _]. injection H as <-.
    unfold SFNT.parseCmapFormat6 in Hs. pinv. exact I. }
  destruct (format =? 12).
  { apply pbind_ok in H. destruct H as (s & r1 & Hs & H).
    apply pret_ok in H. destruct H as [H _]. injection H as <-.
    destruct (parseCmapFormat12_decoded _ _ _ _ _ _ Hn Hr Hs)
      as (groups & n & -> & L1 & L2 & L3 & Hg).
    exists n. auto. }
  apply pret_ok in H. destruct H as [H _]. discriminate H.
Qed.

(** One encoding record adds at most one subtable, a decoded one. *)
Lemma parseCmapRecord_decoded (sfnt : SFNT.t) (b : list byte) (j : Z)
    (st : SFNT.cmapState) (r : binaryReader.t) (st' : SFNT.cmapState)
    (r' : binaryReader.t) (numGlyphs : Z) :
  SFNT.NumGlyphs sfnt = Ok numGlyphs -> 0 <= numGlyphs < 65536 ->
  Forall (subtableDecoded numGlyphs) (cmapTable.Subtables (SFNT.cmap st)) ->
  SFNT.parseCmapRecord sfnt b j st r = Ok (st', r') ->
  Forall (subtableDecoded numGlyphs) (cmapTable.Subtables (SFNT.cmap st')).
Proof.
  intros Hn Hr Hall H. unfold SFNT.parseCmapRecord in H.
  apply pbind_ok in H. destruct H as (platformID & r1 & _ & H).
  apply pbind_ok in H. destruct H as (encodingID & r2 & _ & H).
  apply pbind_ok in H. destruct H as (offset & r3 & _ & H).
  destruct (uint32 (len b - 8) <? offset); [discriminate H |].
  apply pbind_ok in H. destruct H as (inside & r4 & _ & H).
  destruct inside; [discriminate H |].
  apply pbind_ok in H. destruct H as (sub & r5 & _ & H).
  apply pbind_ok in H. destruct H as ([[format length] rs] & r6 & _ & H).
  destruct ((length <? 8) || (MaxUint32 - offset <? length)); [discriminate H |].
  apply pbind_ok in H. destruct H as (subtableID & r7 & _ & H).
  apply pbind_ok in H. destruct H as (buf' & r8 & _ & H).
  cbv zeta in H.
  apply pbind_ok in H. destruct H as ([subtableID' st1] & r9 & Hst & H).
  apply pret_ok in H. destruct H as [-> _].
  cbn [SFNT.cmap cmapTable.Subtables].
  destruct (subtableID =? -1).
  - apply pbind_ok in Hst. destruct Hst as ([decoded rd] & r10 & Hdec & Hst).
    apply pret_ok in Hst. destruct Hst as [Hst _]. injection Hst as _ ->.
    cbn [SFNT.cmap cmapTable.Subtables fst].
    apply lift_ok in Hdec. destruct Hdec as [Hdec _].
    destruct decoded as [s |]; [| exact Hall].
    apply Forall_app. split; [exact Hall |]. constructor; [| constructor].
    exact (parseCmapSubtable_decoded _ _ _ _ _ _ _ Hn Hr Hdec).
  - apply pret_ok in Hst. destruct Hst as [Hst _]. injection Hst as _ ->. exact Hall.
Qed.

Lemma parseCmap_decoded (sfnt sfnt' : SFNT.t) (numGlyphs : Z) :
  SFNT.NumGlyphs sfnt = Ok numGlyphs -> 0 <= numGlyphs < 65536 ->
  SFNT.parseCmap sfnt = Ok sfnt' ->
  exists cmap : cmapTable.t,
    sfnt' = SFNT.set_Cmap cmap sfnt
    /\ Forall (subtableDecoded numGlyphs) (cmapTable.Subtables cmap).
Proof.
  intros Hn Hr H. unfold SFNT.parseCmap in H.
  apply bind_ok in H. destruct H as (st & Hst & H). injection H as <-.
  exists (SFNT.cmap st). split; [reflexivity |].
  unfold SFNT.parseCmap_state in Hst.
  destruct (SFNT.Tables sfnt !! "cmap") as [b |]; [| discriminate].
  destruct (len b <? 4); [discriminate |].
  apply run_ok' in Hst. destruct Hst as [r' Hst]. pinv.
  match goal with
  | E : forRange _ _ _ _ _ = Ok _ |- _ =>
      apply (forRange_invariant
               (fun _ t => Forall (subtableDecoded numGlyphs)
                             (cmapTable.Subtables (SFNT.cmap t)))) in E;
      [exact E | constructor |]
  end.
  intros i t ri t' ri' _ Ht Hb.
  exact (parseCmapRecord_decoded _ _ _ _ _ _ _ _ Hn Hr Ht Hb).
Qed.

Lemma format6_Get_total (glyphs : cmapFormat6.t) (r : Z) :
  exists (g : Z) (hit : bool), cmapFormat6.Get glyphs r = Ok (g, hit).
Proof.
  unfold cmapFormat6.Get.
  destruct (_ || _) eqn:Hc; [eauto |].
  apply orb_false_iff in Hc. destruct Hc as [_ Hc]. apply Z.leb_gt in Hc.
  set (idx := uint32 (uint32 r - uint32 (cmapFormat6.FirstCode glyphs))) in *.
  assert (Hidx : 0 <= idx) by (subst idx; unfold uint32; apply Z.mod_pos_bound; lia).
  assert (Hle : uint32 (len (cmapFormat6.GlyphIdArray glyphs))
                <= len (cmapFormat6.GlyphIdArray glyphs))
    by (unfold uint32; apply Z.mod_le; unfold len; lia).
  destruct (lookup_lt_is_Some_2 (cmapFormat6.GlyphIdArray glyphs) (Z.to_nat idx))
    as [g Hg]; [unfold len in *; lia |].
  unfold index. destruct (Z.ltb_spec idx 0) as [? | _]; [lia |].
  rewrite Hg. cbn [bind]. eauto.
Qed.

(** The lookup of a decoded subtable other than format 4 returns, and
    returns a glyph of the font when the format's decoder checks glyphs. *)
Lemma subtable_Get_total (numGlyphs : Z) (subtable : cmapSubtable) (r : Z) :
  0 <= numGlyphs < 65536 -> - 2 ^ 31 <= r < 2 ^ 31 ->
  subtableDecoded numGlyphs subtable -> notFormat4 subtable = true ->
  exists (g : Z) (hit : bool),
    cmapSubtable_Get subtable r = Ok (g, hit)
    /\ (glyphsChecked subtable = true -> if hit then 0 <= g < numGlyphs else g = 0).
Proof.
  intros Hn Hr Hd Hf. destruct subtable as [glyphs | segments | glyphs | groups];
    cbn [cmapSubtable_Get glyphsChecked]; [| discriminate Hf | |].
  - cbn [subtableDecoded] in Hd. destruct Hd as [Hlen Hd]. unfold cmapFormat0.Get.
    destruct ((r <? 0) || (256 <=? r)) eqn:Hc.
    + exists 0, false. split; [reflexivity | intros _; reflexivity].
    + apply orb_false_iff in Hc. destruct Hc as [Hc0 Hc1].
      apply Z.ltb_ge in Hc0. apply Z.leb_gt in Hc1.
      eexists _, true. split; [reflexivity |]. intros _.
      split; [unfold uint16; apply Z.mod_pos_bound; lia |].
      apply Hd. apply nth_In. lia.
  - destruct (format6_Get_total glyphs r) as (g & hit & Hg).
    exists g, hit. split; [exact Hg | discriminate].
  - cbn [subtableDecoded] in Hd. destruct Hd as (n & L1 & L2 & L3 & Hg).
    unfold cmapFormat12.Get.
    destruct (Z.ltb_spec r 0) as [Hneg | Hpos].
    + exists 0, false. split; [reflexivity | intros _; reflexivity].
    + destruct (Get_from_safe groups numGlyphs n L1 L2 L3 Hg Hn r ltac:(lia)
                  (length (cmapFormat12.StartCharCode groups)) 0 ltac:(lia)
                  ltac:(rewrite L1; cbn; lia)) as (g & hit & Hget & Hin).
      exists g, hit. split; [exact Hget | intros _; exact Hin].
Qed.

(** The lookup through decoded subtables, none of format 4, returns. *)
Lemma Get_in_total_decoded (numGlyphs : Z) (r : Z) :
  0 <= numGlyphs < 65536 -> - 2 ^ 31 <= r < 2 ^ 31 ->
  forall subtables : list cmapSubtable,
    Forall (subtableDecoded numGlyphs) subtables ->
    forallb notFormat4 subtables = true ->
    exists g : Z,
      cmapTable.Get_in subtables r = Ok g
      /\ (forallb glyphsChecked subtables = true -> g = 0 \/ 0 <= g < numGlyphs).
Proof.
  intros Hn Hr. induction subtables as [| subtable rest IH]; intros Hall Hf.
  - exists 0. split; [reflexivity | intros _; left; reflexivity].
  - inversion Hall as [| ? ? Hd Hrest]; subst.
    cbn [forallb] in Hf. apply andb_true_iff in Hf. destruct Hf as [Hf1 Hf2].
    destruct (subtable_Get_total numGlyphs subtable r Hn Hr Hd Hf1)
      as (g & hit & Hget & Hin).
    cbn [cmapTable.Get_in]. rewrite Hget. cbn [bind fst snd].
    destruct hit.
    + exists g. split; [reflexivity |]. cbn [forallb]. intros Hc.
      apply andb_true_iff in Hc. destruct Hc as [Hc _]. right. exact (Hin Hc).
    + destruct (IH Hrest Hf2) as (g' & Hg' & Hin').
      exists g'. split; [exact Hg' |]. cbn [forallb]. intros Hc.
      apply andb_true_iff in Hc. destruct Hc as [_ Hc]. exact (Hin' Hc).
Qed.

(** X20. After [parseCmap] has decoded the cmap table of a font of
    numGlyphs glyphs, [GlyphIndex] answers every rune without a panic when
    no decoded subtable has format 4, and the glyph it returns is 0 or a
    glyph ID below numGlyphs when every decoded subtable has format 0 or
    12. *)
Theorem GlyphIndex_after_parseCmap (sfnt sfnt' : SFNT.t) (numGlyphs : Z) :
  SFNT.NumGlyphs sfnt = Ok numGlyphs -> 0 <= numGlyphs < 65536 ->
  SFNT.parseCmap sfnt = Ok sfnt' ->
  exists cmap : cmapTable.t,
    SFNT.Cmap sfnt' = Some cmap
    /\ (forallb notFormat4 (cmapTable.Subtables cmap) = true ->
        forall r : Z, - 2 ^ 31 <= r < 2 ^ 31 ->
          exists g : Z,
            SFNT.GlyphIndex sfnt' r = Ok g
            /\ (forallb glyphsChecked (cmapTable.Subtables cmap) = true ->
                g = 0 \/ 0 <= g < numGlyphs)).
Proof.
  intros Hn Hr H.
  destruct (parseCmap_decoded _ _ _ Hn Hr H) as (cmap & -> & Hall).
  exists cmap. split; [reflexivity |].
  intros Hf r Hrune. unfold SFNT.GlyphIndex.
  cbn [SFNT.Cmap SFNT.set_Cmap deref bind]. unfold cmapTable.Get.
  exact (Get_in_total_decoded numGlyphs r Hr Hrune _ Hall Hf).
Qed.

(** The cmap table with the format-12 subtable of two groups. *)
Lemma GlyphIndex_after_parseCmap_witness :
  SFNT.parseCmap decodingCmap = Ok (SFNT.set_Cmap cmapTwoGroupsTable decodingCmap)
  /\ SFNT.GlyphIndex (SFNT.set_Cmap cmapTwoGroupsTable decodingCmap) 0x1F600 = Ok 4
  /\ exists cmap : cmapTable.t,
       SFNT.Cmap (SFNT.set_Cmap cmapTwoGroupsTable decodingCmap) = Some cmap
       /\ (forallb notFormat4 (cmapTable.Subtables cmap) = true ->
           forall r : Z, - 2 ^ 31 <= r < 2 ^ 31 ->
             exists g : Z,
               SFNT.GlyphIndex (SFNT.set_Cmap cmapTwoGroupsTable decodingCmap) r = Ok g
               /\ (forallb glyphsChecked (cmapTable.Subtables cmap) = true ->
                   g = 0 \/ 0 <= g < 5)).
Proof.
  assert (H : SFNT.parseCmap decodingCmap
              = Ok (SFNT.set_Cmap cmapTwoGroupsTable decodingCmap))
    by (vm_compute; reflexivity).
  split; [exact H |]. split; [vm_compute; reflexivity |].
  apply (GlyphIndex_after_parseCmap decodingCmap
           (SFNT.set_Cmap cmapTwoGroupsTable decodingCmap) 5).
  - reflexivity.
  - lia.
  - exact H.
Defined.

End CmapLookup.
